(** * Print-event agent (Monitoramento1/agent/agente.py): model and properties

    A shallow embedding of the class [PrintMonitor]: the identity encoding
    ([criar_id_unico]), the extractor ([extrair_dados_evento]) with the
    regular expressions it searches, the sender ([send_events],
    [send_events_batch]), the persisted set of identities
    ([carregar_eventos_processados], [salvar_eventos_processados]), the
    catch-up pass ([processar_todos_eventos]) and the polling loop
    ([monitor_events]).

    Conventions.
    - A Python [str] is a [string]; a character is the code point it
      denotes, so the alphabet is the code points 0..255.  The character
      tables ([\d], [\s], [\w], lower case) are Python's on that range.
    - A Python [int] is a [Z].  [int] and [str] refuse to convert more
      than 4300 digits; the counts that the extractor reads in a message
      can be that long, and [int_group] raises there.  The record numbers
      of the event log are 64-bit, so the conversions of the identities
      ([str_of_int], [int_of_str]) are taken without that limit.
    - The set [self.eventos_processados] is a [gset string].
    - What the process does to the outside (POST requests, sleeps, writes
      of the state file) is recorded in a trace; the collector is a
      function from the number of the request to its outcome, the event
      log is the list of raw events each fetch returns.
    - An exception that escapes a function is a value [Raised]; the state
      reached before it is kept, as mutation in Python is. *)

From Stdlib Require Import ZArith String Ascii List Bool Lia.
From Stdlib Require Import DecimalString DecimalZ.
From stdpp Require Import base option list gmap sets strings.

Local Open Scope string_scope.
Local Open Scope list_scope.
Local Open Scope Z_scope.

(** ** Python strings *)

Module PyStr.

Definition chars (s : string) : list ascii := list_ascii_of_string s.
Definition of_chars (l : list ascii) : string := string_of_list_ascii l.

Definition code (c : ascii) : N := N_of_ascii c.

Definition between (lo hi : N) (c : ascii) : bool :=
  ((lo <=? code c) && (code c <=? hi))%N.

(** [str.isspace] on one character, which is also [\s]. *)
Definition is_space (c : ascii) : bool :=
  between 9 13 c || between 28 32 c
  || (code c =? 133)%N || (code c =? 160)%N.

(** A decimal digit: [\d], and the digits [int] accepts. *)
Definition is_digit (c : ascii) : bool := between 48 57 c.

Definition digit_value (c : ascii) : Z := Z.of_N (code c) - 48.

(** [str.isalnum] on one character or an underscore: [\w]. *)
Definition is_word (c : ascii) : bool :=
  between 48 57 c || between 65 90 c || between 97 122 c
  || (code c =? 95)%N
  || (code c =? 170)%N || between 178 179 c || (code c =? 181)%N
  || between 185 186 c || between 188 190 c
  || between 192 214 c || between 216 246 c || between 248 255 c.

(** [str.lower] on one character. *)
Definition lower (c : ascii) : ascii :=
  if between 65 90 c || between 192 214 c || between 216 222 c
  then ascii_of_N (code c + 32) else c.

Fixpoint starts_with (p s : list ascii) : bool :=
  match p, s with
  | [], _ => true
  | a :: p', b :: s' => Ascii.eqb a b && starts_with p' s'
  | _ :: _, [] => false
  end.

(** [needle in hay]. *)
Fixpoint contains (needle hay : list ascii) : bool :=
  starts_with needle hay
  || match hay with
     | [] => false
     | _ :: hay' => contains needle hay'
     end.

Fixpoint lstrip (s : list ascii) : list ascii :=
  match s with
  | c :: s' => if is_space c then lstrip s' else s
  | [] => []
  end.

(** [s.strip()]. *)
Definition strip (s : list ascii) : list ascii :=
  rev (lstrip (rev (lstrip s))).

(** [s.split(sep, 1)] when [sep] occurs in [s]: the text before the first
    occurrence and the text after it. *)
Fixpoint split_first (sep : ascii) (s : list ascii)
  : option (list ascii * list ascii) :=
  match s with
  | [] => None
  | c :: s' =>
      if Ascii.eqb c sep then Some ([], s')
      else match split_first sep s' with
           | Some (a, b) => Some (c :: a, b)
           | None => None
           end
  end.

(** The value of a run of decimal digits, most significant first. *)
Definition digits_value (ds : list ascii) : Z :=
  fold_left (fun acc c => 10 * acc + digit_value c) ds 0.

(** The digits of an [int] literal after its sign: decimal digits, with
    single underscores allowed between two digits. *)
Fixpoint digits_body (after_digit : bool) (s : list ascii) (acc : Z)
  : option Z :=
  match s with
  | [] => if after_digit then Some acc else None
  | c :: s' =>
      if is_digit c then digits_body true s' (10 * acc + digit_value c)
      else if Ascii.eqb c "_" && after_digit then
        match s' with
        | d :: _ => if is_digit d then digits_body false s' acc else None
        | [] => None
        end
      else None
  end.

(** The white space that [int] skips around a number: [\t\n\v\f\r], the
    space, [\x85] and [\xa0]; not the separators [\x1c]..[\x1f], which
    [str.isspace] has. *)
Definition is_int_space (c : ascii) : bool :=
  between 9 13 c || (code c =? 32)%N
  || (code c =? 133)%N || (code c =? 160)%N.

Fixpoint lstrip_int (s : list ascii) : list ascii :=
  match s with
  | c :: s' => if is_int_space c then lstrip_int s' else s
  | [] => []
  end.

Definition strip_int (s : list ascii) : list ascii :=
  rev (lstrip_int (rev (lstrip_int s))).

(** The number of digits that [int] accepts:
    [sys.int_info.default_max_str_digits]. *)
Definition max_str_digits : nat := 4300.

(** [int(s)] on a string: [None] stands for [ValueError]. *)
Definition int_of_str (s : list ascii) : option Z :=
  match strip_int s with
  | "-"%char :: ds => option_map Z.opp (digits_body false ds 0)
  | "+"%char :: ds => digits_body false ds 0
  | ds => digits_body false ds 0
  end.

(** [str(n)] for an [int]. *)
Definition str_of_int (n : Z) : string :=
  NilEmpty.string_of_int (Z.to_int n).

End PyStr.

(** ** Regular expressions

    The fragment of Python's [re] that the agent's patterns use, with the
    backtracking semantics of [re.search]: the leftmost position at which
    the pattern matches, alternatives tried from left to right, greedy
    repetitions from the longest, lazy ones from the shortest.  Every
    repetition in the patterns is over a single character class; [x?] is
    the alternation of [x] and the empty pattern. *)

Module Re.

Import PyStr.

Inductive cclass : Type :=
| CDigit      (* \d *)
| CSpace      (* \s *)
| CDot.       (* .  : anything but a newline *)

Inductive regex : Type :=
| Eps
| Chr (c : ascii)
| Cls (k : cclass)
| Seq (r1 r2 : regex)
| Alt (r1 r2 : regex)
| Star (greedy : bool) (k : cclass)
| Group (n : nat) (r : regex)
| WordB                         (* \b *)
| EndS.                         (* $  *)

Definition in_class (k : cclass) (c : ascii) : bool :=
  match k with
  | CDigit => is_digit c
  | CSpace => is_space c
  | CDot => negb (code c =? 10)%N
  end.

(** The text captured by each group that took part in the match. *)
Definition captures : Type := list (nat * list ascii).

Fixpoint group (n : nat) (cs : captures) : option (list ascii) :=
  match cs with
  | [] => None
  | (m, t) :: cs' => if Nat.eqb m n then Some t else group n cs'
  end.

(** A continuation receives the character before the current position,
    the rest of the text and the captures so far. *)
Definition cont : Type :=
  option ascii -> list ascii -> captures -> option captures.

Definition word_before (prev : option ascii) : bool :=
  match prev with Some c => is_word c | None => false end.

Definition word_after (s : list ascii) : bool :=
  match s with c :: _ => is_word c | [] => false end.

Section Matcher.

(** [re.IGNORECASE]. *)
Variable icase : bool.

Definition chr_matches (p c : ascii) : bool :=
  if icase then Ascii.eqb (lower p) (lower c) else Ascii.eqb p c.

Fixpoint star_greedy (k : cclass) (prev : option ascii) (s : list ascii)
    (cs : captures) (kont : cont) : option captures :=
  match s with
  | c :: s' =>
      if in_class k c then
        match star_greedy k (Some c) s' cs kont with
        | Some r => Some r
        | None => kont prev s cs
        end
      else kont prev s cs
  | [] => kont prev s cs
  end.

Fixpoint star_lazy (k : cclass) (prev : option ascii) (s : list ascii)
    (cs : captures) (kont : cont) : option captures :=
  match kont prev s cs with
  | Some r => Some r
  | None =>
      match s with
      | c :: s' =>
          if in_class k c then star_lazy k (Some c) s' cs kont else None
      | [] => None
      end
  end.

Fixpoint rmatch (r : regex) (prev : option ascii) (s : list ascii)
    (cs : captures) (kont : cont) : option captures :=
  match r with
  | Eps => kont prev s cs
  | Chr p =>
      match s with
      | c :: s' => if chr_matches p c then kont (Some c) s' cs else None
      | [] => None
      end
  | Cls k =>
      match s with
      | c :: s' => if in_class k c then kont (Some c) s' cs else None
      | [] => None
      end
  | Seq r1 r2 =>
      rmatch r1 prev s cs (fun p' s' cs' => rmatch r2 p' s' cs' kont)
  | Alt r1 r2 =>
      match rmatch r1 prev s cs kont with
      | Some x => Some x
      | None => rmatch r2 prev s cs kont
      end
  | Star true k => star_greedy k prev s cs kont
  | Star false k => star_lazy k prev s cs kont
  | Group n r1 =>
      rmatch r1 prev s cs
        (fun p' s' cs' =>
           kont p' s'
             ((n, take (length s - length s')%nat s) :: cs'))
  | WordB =>
      if xorb (word_before prev) (word_after s) then kont prev s cs
      else None
  | EndS =>
      match s with
      | [] => kont prev s cs
      | [c] => if (code c =? 10)%N then kont prev s cs else None
      | _ => None
      end
  end.

Fixpoint search_from (r : regex) (prev : option ascii) (s : list ascii)
  : option captures :=
  match rmatch r prev s [] (fun _ _ cs => Some cs) with
  | Some cs => Some cs
  | None =>
      match s with
      | [] => None
      | c :: s' => search_from r (Some c) s'
      end
  end.

End Matcher.

(** [re.search(r, s)], or [re.search(r, s, re.IGNORECASE)]. *)
Definition search (icase : bool) (r : regex) (s : string) : option captures :=
  search_from icase r None (chars s).

(** Pattern syntax. *)
Fixpoint lit_chars (l : list ascii) : regex :=
  match l with
  | [] => Eps
  | [c] => Chr c
  | c :: l' => Seq (Chr c) (lit_chars l')
  end.

Definition lit (s : string) : regex := lit_chars (chars s).
Definition plus (greedy : bool) (k : cclass) : regex :=
  Seq (Cls k) (Star greedy k).
Definition opt (r : regex) : regex := Alt r Eps.

Fixpoint seqs (rs : list regex) : regex :=
  match rs with
  | [] => Eps
  | [r] => r
  | r :: rs' => Seq r (seqs rs')
  end.

End Re.

(** ** Data model *)

(** The value under the key ['Message'] of a raw event: the key may be
    missing, or hold JSON [null] (PowerShell emits it when the text of an
    event cannot be rendered), or hold a string. *)
Inductive msg_field : Type :=
| MAbsent
| MNull
| MStr (s : string).

(** One line of the output of the PowerShell script, decoded: a [dict]
    with an optional record number, time, host and message. *)
Record RawEvent : Type := {
  RecordId : option Z;
  TimeCreated : option string;
  MachineName : option string;
  Message : msg_field
}.

(** The dictionary [dados] built by the extractor. *)
Record CanonicalEvent : Type := {
  record_id : option Z;
  date : string;
  user : string;
  machine : string;
  pages : Z;
  document : string;
  printer : string
}.

(** An element of the JSON body: [dados] without ['record_id']. *)
Record WireEvent : Type := {
  w_date : string;
  w_user : string;
  w_machine : string;
  w_pages : Z;
  w_document : string;
  w_printer : string
}.

Definition to_wire (e : CanonicalEvent) : WireEvent :=
  {| w_date := date e; w_user := user e; w_machine := machine e;
     w_pages := pages e; w_document := document e;
     w_printer := printer e |}.

(** ** Extractor *)

Module Patterns.

Import Re.

Definition a_acute : ascii := "225"%char.
Definition e_acute : ascii := "233"%char.

Definition Paginas_impressas : string :=
  String "P" (String a_acute "ginas impressas:").
Definition paginas : string := String "p" (String a_acute "gina").
Definition atraves : string := "atrav" +:+ String e_acute "s".

(** A pattern with its [re.IGNORECASE] flag. *)
Definition pattern : Type := bool * regex.

Definition digits : regex := Group 1 (plus true CDigit).
Definition spaces : regex := Star true CSpace.
Definition some_text (n : nat) : regex := Group n (plus false CDot).

(** [O documento \d+, (.+?) pertencente a (.+?) em] *)
Definition pt_doc_user : pattern :=
  (false, seqs [lit "O documento "; plus true CDigit; lit ", ";
                some_text 1; lit " pertencente a "; some_text 2;
                lit " em"]).

(** [foi impresso em (.+?)(?:\s+pela porta|\s+através|\.|$)] *)
Definition pt_printer : pattern :=
  (false, seqs [lit "foi impresso em "; some_text 1;
                Alt (Seq (plus true CSpace) (lit "pela porta"))
                  (Alt (Seq (plus true CSpace) (lit atraves))
                     (Alt (Chr ".") EndS))]).

(** [Páginas impressas:\s*(\d+)] *)
Definition pt_pages_1 : pattern :=
  (false, seqs [lit Paginas_impressas; spaces; digits]).

(** [Total de páginas impressas:\s*(\d+)] *)
Definition pt_pages_2 : pattern :=
  (false, seqs [lit "Total de "; lit paginas; lit "s impressas:";
                spaces; digits]).

(** [(\d+)\s+páginas?\b], ignoring case *)
Definition pt_pages_3 : pattern :=
  (true, seqs [digits; plus true CSpace; lit paginas; opt (Chr "s");
               WordB]).

(** [Document \d+, (.+?) owned by (.+?) on] *)
Definition en_doc_user : pattern :=
  (false, seqs [lit "Document "; plus true CDigit; lit ", ";
                some_text 1; lit " owned by "; some_text 2; lit " on"]).

(** [was printed on (.+?)(?:\s+through|\s+via|\.|$)] *)
Definition en_printer : pattern :=
  (false, seqs [lit "was printed on "; some_text 1;
                Alt (Seq (plus true CSpace) (lit "through"))
                  (Alt (Seq (plus true CSpace) (lit "via"))
                     (Alt (Chr ".") EndS))]).

(** [Pages printed:\s*(\d+)] *)
Definition en_pages_1 : pattern :=
  (false, seqs [lit "Pages printed:"; spaces; digits]).

(** [Total pages printed:\s*(\d+)] *)
Definition en_pages_2 : pattern :=
  (false, seqs [lit "Total pages printed:"; spaces; digits]).

(** [(\d+)\s+pages?\b], ignoring case *)
Definition en_pages_3 : pattern :=
  (true, seqs [digits; plus true CSpace; lit "page"; opt (Chr "s");
               WordB]).

(** [(?:Size in bytes:|Tamanho em bytes:)\s*\d+\.\s*(?:Pages printed:|Páginas impressas:)?\s*(\d+)] *)
Definition en_pages_4 : pattern :=
  (false, seqs [Alt (lit "Size in bytes:") (lit "Tamanho em bytes:");
                spaces; plus true CDigit; Chr "."; spaces;
                opt (Alt (lit "Pages printed:") (lit Paginas_impressas));
                spaces; digits]).

Definition page_word : regex :=
  Alt (Seq (lit paginas) (opt (Chr "s"))) (Seq (lit "page") (opt (Chr "s"))).

(** The list [patterns] of the generic scan, all searched ignoring case:
    [(?:páginas?|pages?)\s*:\s*(\d+)], [(\d+)\s*(?:páginas?|pages?)],
    [(?:total|Total)\s*:\s*(\d+)], [(?:impressas?|printed)\s*:\s*(\d+)]. *)
Definition generic_patterns : list pattern :=
  [ (true, seqs [page_word; spaces; Chr ":"; spaces; digits]);
    (true, seqs [digits; spaces; page_word]);
    (true, seqs [Alt (lit "total") (lit "Total"); spaces; Chr ":";
                 spaces; digits]);
    (true, seqs [Alt (Seq (lit "impressa") (opt (Chr "s"))) (lit "printed");
                 spaces; Chr ":"; spaces; digits]) ].

End Patterns.

Import Patterns.

Definition re_search (p : pattern) (msg : string) : option Re.captures :=
  Re.search p.1 p.2 msg.

(** [int(match.group(n))] for a group that is a run of decimal digits;
    [None] where Python raises: when the group took no part in the match,
    and when the run has more than 4300 digits ([ValueError]). *)
Definition int_group (n : nat) (m : Re.captures) : option Z :=
  t ← Re.group n m;
  if (length t <=? PyStr.max_str_digits)%nat
  then Some (PyStr.digits_value t) else None.

(** [match.group(n).strip()], with the same convention. *)
Definition strip_group (n : nat) (m : Re.captures) : option string :=
  (fun t => PyStr.of_chars (PyStr.strip t)) <$> Re.group n m.

(** The chain "pattern 1; if not found, pattern 2; ...": the count of the
    first pattern that matches.  The outer [None] is an exception. *)
Fixpoint first_count (ps : list pattern) (msg : string)
  : option (option Z) :=
  match ps with
  | [] => Some None
  | p :: ps' =>
      match re_search p msg with
      | Some m => n ← int_group 1 m; Some (Some n)
      | None => first_count ps' msg
      end
  end.

Definition valid_pages (n : Z) : bool := (1 <=? n) && (n <=? 10000).

(** The loop over [patterns]: the first count in range, after which the
    loop breaks; a count out of range is passed over. *)
Fixpoint generic_scan (ps : list pattern) (msg : string)
  : option (option Z) :=
  match ps with
  | [] => Some None
  | p :: ps' =>
      match re_search p msg with
      | Some m =>
          n ← int_group 1 m;
          if valid_pages n then Some (Some n) else generic_scan ps' msg
      | None => generic_scan ps' msg
      end
  end.

(** The branch of the message's language: Portuguese when it contains
    ['pertencente a'] or ['foi impresso'], otherwise "English or other". *)
Definition is_portuguese (msg : string) : bool :=
  PyStr.contains (PyStr.chars "pertencente a") (PyStr.chars msg)
  || PyStr.contains (PyStr.chars "foi impresso") (PyStr.chars msg).

Definition language_patterns (msg : string) : list pattern :=
  if is_portuguese msg then [pt_pages_1; pt_pages_2; pt_pages_3]
  else [en_pages_1; en_pages_2; en_pages_3; en_pages_4].

(** The document and the user, or the defaults when the pattern fails. *)
Definition doc_user (p : pattern) (msg : string) : option (string * string) :=
  match re_search p msg with
  | Some m => d ← strip_group 1 m; u ← strip_group 2 m; Some (d, u)
  | None => Some ("Documento", "Desconhecido")
  end.

Definition printer_name (p : pattern) (msg : string) : option string :=
  match re_search p msg with
  | Some m => strip_group 1 m
  | None => Some "Impressora"
  end.

(** [dados['pages']] after the language branch and the generic scan. *)
Definition pages_before_validation (msg : string) : option Z :=
  found ← first_count (language_patterns msg) msg;
  let pages0 := default 1 found in
  if pages0 =? 1 then
    generic ← generic_scan generic_patterns msg;
    Some (default pages0 generic)
  else Some pages0.

(** The final validation. *)
Definition validate_pages (n : Z) : Z :=
  if (n <? 1) || (n >? 10000) then 1 else n.

Definition extract_pages (msg : string) : option Z :=
  validate_pages <$> pages_before_validation msg.

(** [mensagem = evento_raw.get('Message', '')]: a missing key gives the
    empty string; on [null] the first use of [mensagem] raises, which is
    [None] here. *)
Definition message_text (evento_raw : RawEvent) : option string :=
  match Message evento_raw with
  | MAbsent => Some ""
  | MNull => None
  | MStr s => Some s
  end.

(** [extrair_dados_evento]: [None] is the [return None] of the handler
    that catches every exception.  [now] is the reading of the clock used
    when the raw event has no time; [self_machine] is
    [self.machine_name]. *)
Definition extrair_dados_evento (now self_machine : string)
    (evento_raw : RawEvent) : option CanonicalEvent :=
  mensagem ← message_text evento_raw;
  let pt := is_portuguese mensagem in
  '(doc, usr) ← doc_user (if pt then pt_doc_user else en_doc_user) mensagem;
  prn ← printer_name (if pt then pt_printer else en_printer) mensagem;
  pgs ← extract_pages mensagem;
  Some {| record_id := RecordId evento_raw;
          date := default now (TimeCreated evento_raw);
          user := usr;
          machine := default self_machine (MachineName evento_raw);
          pages := pgs;
          document := doc;
          printer := prn |}.

(** ** The agent and its surroundings *)

(** The decoded body of a response: [response.json()] raises on a body
    that is not JSON, and [result.get] raises on a JSON value that is not
    an object. *)
Inductive body : Type :=
| JsonObject
| JsonOther
| NotJson.

(** What one call of [requests.post] comes to. *)
Inductive http_outcome : Type :=
| Response (status_code : Z) (b : body)
| ConnectionError
| Timeout
| RequestException.

(** An entry of ['processed_ids'] in the state file: a bare integer in
    the old format, a string in the new one. *)
Inductive json_id : Type :=
| JInt (n : Z)
| JStr (s : string).

(** The JSON document of [PROCESSED_EVENTS_FILE]. *)
Record StateFile : Type := {
  processed_ids : list json_id;
  last_update : string;
  highest_id_this_machine : Z;
  total_processed : Z;
  stats_by_machine : gmap string Z
}.

Inductive action : Type :=
| Post (events : list WireEvent)     (* requests.post(server_url, json={"events": events}) *)
| Sleep (seconds : Z)                (* time.sleep(seconds) *)
| Save (file : StateFile).           (* json.dump(data, f) *)

(** [config] and the host name. *)
Record Config : Type := {
  machine_name : string;
  max_retries : Z;
  batch_size : Z;
  check_interval : Z;
  retry_interval : Z;
  process_all_on_start : bool
}.

(** The collector answers the [n]-th request of the process with
    [collector n]; [clock] is the reading of [datetime.now()]. *)
Record Env : Type := {
  collector : nat -> http_outcome;
  clock : string
}.

(** The attributes of [self] that change, the local [eventos_buffer] of
    [monitor_events], and the trace of what was done to the outside. *)
Record State : Type := {
  eventos_processados : gset string;
  highest_record_id : Z;
  eventos_buffer : list CanonicalEvent;
  trace : list action
}.

Definition with_processados (s : gset string) (st : State) : State :=
  {| eventos_processados := s;
     highest_record_id := highest_record_id st;
     eventos_buffer := eventos_buffer st;
     trace := trace st |}.

Definition with_highest (h : Z) (st : State) : State :=
  {| eventos_processados := eventos_processados st;
     highest_record_id := h;
     eventos_buffer := eventos_buffer st;
     trace := trace st |}.

Definition with_buffer (b : list CanonicalEvent) (st : State) : State :=
  {| eventos_processados := eventos_processados st;
     highest_record_id := highest_record_id st;
     eventos_buffer := b;
     trace := trace st |}.

Definition with_trace (t : list action) (st : State) : State :=
  {| eventos_processados := eventos_processados st;
     highest_record_id := highest_record_id st;
     eventos_buffer := eventos_buffer st;
     trace := t |}.

Definition is_post (a : action) : bool :=
  match a with Post _ => true | _ => false end.

Definition posts_in (t : list action) : nat :=
  length (List.filter is_post t).

(** The file on disk: what the last write left, or what was there. *)
Fixpoint disk (initial : option StateFile) (t : list action)
  : option StateFile :=
  match t with
  | [] => initial
  | Save f :: t' => disk (Some f) t'
  | _ :: t' => disk initial t'
  end.

(** ** Exceptions and state *)

Inductive exn : Type :=
| TypeError
| ValueError.

Inductive result (A : Type) : Type :=
| Done (a : A)
| Raised (e : exn).

Arguments Done {A} a.
Arguments Raised {A} e.

Definition M (A : Type) : Type := State -> result A * State.

Definition ret {A : Type} (a : A) : M A := fun st => (Done a, st).

Definition bind {A B : Type} (m : M A) (f : A -> M B) : M B :=
  fun st =>
    match m st with
    | (Done a, st') => f a st'
    | (Raised e, st') => (Raised e, st')
    end.

Definition raise {A : Type} (e : exn) : M A := fun st => (Raised e, st).

Definition update (f : State -> State) : M unit :=
  fun st => (Done tt, f st).

Definition ask {A : Type} (f : State -> A) : M A :=
  fun st => (Done (f st), st).

Notation "x <~ m ;; k" := (bind m (fun x => k))
  (at level 62, m at next level, right associativity).
Notation "m ;;; k" := (bind m (fun _ => k))
  (at level 62, right associativity).

Definition emit (a : action) : M unit :=
  update (fun st => with_trace (trace st ++ [a]) st).

Definition sleep (seconds : Z) : M unit := emit (Sleep seconds).

Definition when (b : bool) (m : M unit) : M unit :=
  if b then m else ret tt.

(** [for x in l: body x]. *)
Fixpoint for_each {A : Type} (l : list A) (f : A -> M unit) : M unit :=
  match l with
  | [] => ret tt
  | x :: l' => f x ;;; for_each l' f
  end.

(** ** Identity *)

(** [criar_id_unico]: a missing or empty [machine_name] is replaced by
    the name of this host. *)
Definition criar_id_unico (cfg : Config) (record_id : Z)
    (machine_name_arg : option string) : string :=
  let name :=
    match machine_name_arg with
    | None | Some "" => machine_name cfg
    | Some m => m
    end in
  name +:+ "_" +:+ PyStr.str_of_int record_id.

(** The identity under which the loops mark a raw event:
    [RecordId] defaults to 0 and [MachineName] to this host. *)
Definition raw_record_id (e : RawEvent) : Z := default 0 (RecordId e).

Definition raw_machine (cfg : Config) (e : RawEvent) : string :=
  default (machine_name cfg) (MachineName e).

Definition raw_id (cfg : Config) (e : RawEvent) : string :=
  criar_id_unico cfg (raw_record_id e) (Some (raw_machine cfg e)).

(** [criar_id_unico(rid)] for [rid = e.get('record_id', 0)] of a buffered
    record: the key is always there, and holds [None] when the raw event
    had no [RecordId], which the format renders as ["None"]. *)
Definition buffered_id (cfg : Config) (e : CanonicalEvent) : string :=
  match record_id e with
  | Some rid => criar_id_unico cfg rid None
  | None => machine_name cfg +:+ "_None"
  end.

(** ** Sender *)

(** An attempt counts when the status is 200 and the lines between the
    test of the status and [return True] do not raise. *)
Definition accepted (r : http_outcome) : bool :=
  match r with
  | Response status JsonObject => status =? 200
  | _ => false
  end.

Definition post (env : Env) (events : list WireEvent) : M http_outcome :=
  fun st =>
    (Done (collector env (posts_in (trace st))),
     with_trace (trace st ++ [Post events]) st).

(** The body of [for attempt in range(self.max_retries)], from [attempt]
    on, with [remaining] iterations to go. *)
Fixpoint send_attempts (env : Env) (cfg : Config) (events : list WireEvent)
    (attempt remaining : nat) : M bool :=
  match remaining with
  | O => ret false
  | S remaining' =>
      r <~ post env events ;;
      if accepted r then ret true
      else
        when (Z.of_nat attempt <? max_retries cfg - 1) (sleep 5) ;;;
        send_attempts env cfg events (S attempt) remaining'
  end.

Definition send_events (env : Env) (cfg : Config) (events : list WireEvent)
  : M bool :=
  match events with
  | [] => ret true
  | _ => send_attempts env cfg events 0 (Z.to_nat (max_retries cfg))
  end.

(** [range(0, stop, step)]. *)
Definition py_range (stop step : Z) : result (list Z) :=
  if step =? 0 then Raised ValueError
  else if step <? 0 then Done []
  else Done (map (fun k => Z.of_nat k * step)
               (seq 0 (Z.to_nat ((stop + step - 1) / step)))).

(** [l[i:j]] for [0 <= i <= j]. *)
Definition slice {A : Type} (i j : Z) (l : list A) : list A :=
  take (Z.to_nat (j - i)) (drop (Z.to_nat i) l).

(** The loop over the batches; the result is [failed_batches]. *)
Fixpoint send_batches (env : Env) (cfg : Config)
    (events_to_send : list WireEvent) (starts : list Z) : M (list Z) :=
  match starts with
  | [] => ret []
  | i :: rest =>
      ok <~ send_events env cfg
              (slice i (i + batch_size cfg) events_to_send) ;;
      when (i + batch_size cfg <? Z.of_nat (length events_to_send))
        (sleep 1) ;;;
      failed <~ send_batches env cfg events_to_send rest ;;
      ret (if ok then failed else i :: failed)
  end.

Definition send_events_batch (env : Env) (cfg : Config)
    (events : list CanonicalEvent) : M bool :=
  match events with
  | [] => ret true
  | _ =>
      let events_to_send := map to_wire events in
      match py_range (Z.of_nat (length events)) (batch_size cfg) with
      | Raised e => raise e
      | Done starts =>
          failed <~ send_batches env cfg events_to_send starts ;;
          ret (match failed with [] => true | _ => false end)
      end
  end.

(** ** Persisted identities *)

Definition split_id (id : string) : option (string * list ascii) :=
  '(m, r) ← PyStr.split_first "_" (PyStr.chars id);
  Some (PyStr.of_chars m, r).

(** [(int(record_id), evento_id)] filed under its machine, for an
    identity with an underscore whose tail is an integer. *)
Definition parsed_entry (id : string) : option (string * (Z * string)) :=
  '(m, r) ← split_id id;
  n ← PyStr.int_of_str r;
  Some (m, (n, id)).

Fixpoint insert_by_key (x : Z * string) (l : list (Z * string))
  : list (Z * string) :=
  match l with
  | [] => [x]
  | y :: l' => if x.1 <? y.1 then x :: l else y :: insert_by_key x l'
  end.

(** [eventos.sort(key=lambda x: x[0])]: a stable sort. *)
Definition sort_by_key (l : list (Z * string)) : list (Z * string) :=
  fold_left (fun acc x => insert_by_key x acc) l [].

(** [l[-n:]]. *)
Definition last_n {A : Type} (n : Z) (l : list A) : list A :=
  drop (length l - Z.to_nat n)%nat l.

Definition of_machine (entries : list (string * (Z * string))) (m : string)
  : list (Z * string) :=
  map snd (List.filter (fun e => String.eqb e.1 m) entries).

(** The set kept when there are more than 50000 identities: for every
    machine the 10000 entries with the largest record numbers.  The set
    is walked in the order of [elements]. *)
Definition novos_eventos (ids : gset string) : gset string :=
  let entries := omap parsed_entry (elements ids) in
  list_to_set
    (concat
       (map (fun m => map snd (last_n 10000 (sort_by_key (of_machine entries m))))
          (remove_dups (map fst entries)))).

Definition stats_por_maquina (ids : gset string) : gmap string Z :=
  foldr
    (fun id acc =>
       match split_id id with
       | Some (m, _) => <[m := default 0 (acc !! m) + 1]> acc
       | None => acc
       end)
    ∅ (elements ids).

Definition state_file (env : Env) (st : State) : StateFile :=
  {| processed_ids := JStr <$> elements (eventos_processados st);
     last_update := clock env;
     highest_id_this_machine := highest_record_id st;
     total_processed := Z.of_nat (size (eventos_processados st));
     stats_by_machine := stats_por_maquina (eventos_processados st) |}.

Definition salvar_eventos_processados (env : Env) : M unit :=
  n <~ ask (fun st => size (eventos_processados st)) ;;
  when (50000 <? Z.of_nat n)
    (update (fun st =>
               with_processados (novos_eventos (eventos_processados st)) st)) ;;;
  st <~ ask id ;;
  emit (Save (state_file env st)).

(** [carregar_eventos_processados]: [None] is a file that is missing or
    cannot be read. *)
Definition carregar_eventos_processados (cfg : Config)
    (file : option StateFile) : gset string :=
  match file with
  | Some f =>
      list_to_set
        (map (fun pid =>
                match pid with
                | JInt n => machine_name cfg +:+ "_" +:+ PyStr.str_of_int n
                | JStr s => s
                end)
           (processed_ids f))
  | None => ∅
  end.

(** The record number of an identity of this machine, as the constructor
    reads it: the text after the first underscore, when it is an integer. *)
Definition own_record_id (cfg : Config) (id : string) : option Z :=
  if PyStr.starts_with (PyStr.chars (machine_name cfg +:+ "_"))
       (PyStr.chars id)
  then '(_, r) ← split_id id; PyStr.int_of_str r
  else None.

(** [PrintMonitor.__init__]. *)
Definition init (cfg : Config) (file : option StateFile) : State :=
  let ids := carregar_eventos_processados cfg file in
  {| eventos_processados := ids;
     highest_record_id :=
       foldr (fun id h => match own_record_id cfg id with
                          | Some n => Z.max h n
                          | None => h
                          end)
         0 (elements ids);
     eventos_buffer := [];
     trace := [] |}.

Definition add_processado (id : string) : M unit :=
  update (fun st => with_processados ({[id]} ∪ eventos_processados st) st).

Definition raise_highest (rid : Z) : M unit :=
  update (fun st =>
            if highest_record_id st <? rid then with_highest rid st else st).

(** ** Catch-up pass *)

Definition mark_raw (cfg : Config) (e : RawEvent) : M unit :=
  add_processado (raw_id cfg e) ;;;
  when (String.eqb (raw_machine cfg e) (machine_name cfg))
    (raise_highest (raw_record_id e)).

Definition eventos_nao_processados (cfg : Config) (ids : gset string)
    (eventos_raw : list RawEvent) : list RawEvent :=
  List.filter (fun e => negb (bool_decide (raw_id cfg e ∈ ids))) eventos_raw.

Definition extrair_todos (env : Env) (cfg : Config) (l : list RawEvent)
  : list CanonicalEvent :=
  omap (extrair_dados_evento (clock env) (machine_name cfg)) l.

(** [processar_todos_eventos], on the events that
    [buscar_todos_eventos_powershell] returned. *)
Definition processar_todos_eventos (env : Env) (cfg : Config)
    (eventos_raw : list RawEvent) : M unit :=
  match eventos_raw with
  | [] => ret tt
  | _ =>
      ids <~ ask eventos_processados ;;
      let nao_processados := eventos_nao_processados cfg ids eventos_raw in
      match nao_processados with
      | [] => ret tt
      | _ =>
          let extraidos := extrair_todos env cfg nao_processados in
          match extraidos with
          | [] => ret tt
          | _ =>
              ok <~ send_events_batch env cfg extraidos ;;
              if ok then
                for_each nao_processados (mark_raw cfg) ;;;
                salvar_eventos_processados env
              else ret tt
          end
      end
  end.

(** ** Polling loop *)

(** The test "new, of this machine, above the last one processed". *)
Definition accepts (cfg : Config) (st : State) (e : RawEvent) : bool :=
  negb (bool_decide (raw_id cfg e ∈ eventos_processados st))
  && String.eqb (raw_machine cfg e) (machine_name cfg)
  && (highest_record_id st <? raw_record_id e).

(** The loop that fills [novos_eventos]. *)
Fixpoint collect (env : Env) (cfg : Config) (eventos_raw : list RawEvent)
    (novos : list CanonicalEvent) : M (list CanonicalEvent) :=
  match eventos_raw with
  | [] => ret novos
  | e :: rest =>
      st <~ ask id ;;
      if accepts cfg st e then
        match extrair_dados_evento (clock env) (machine_name cfg) e with
        | Some evento =>
            add_processado (raw_id cfg e) ;;;
            collect env cfg rest (novos ++ [evento])
        | None => collect env cfg rest novos
        end
      else collect env cfg rest novos
  end.

(** One round of the loop after a delivery: the identity is added and
    the high-water mark raised; [None > int] raises. *)
Definition confirm_buffered (cfg : Config) (e : CanonicalEvent) : M unit :=
  add_processado (buffered_id cfg e) ;;;
  match record_id e with
  | Some rid => raise_highest rid
  | None => raise TypeError
  end.

Definition deliver_buffer (env : Env) (cfg : Config) : M unit :=
  buffer <~ ask eventos_buffer ;;
  match buffer with
  | [] => ret tt
  | _ =>
      ok <~ send_events env cfg (map to_wire buffer) ;;
      if ok then
        for_each buffer (confirm_buffered cfg) ;;;
        update (with_buffer []) ;;;
        salvar_eventos_processados env
      else
        when (1000 <? Z.of_nat (length buffer))
          (update (with_buffer (last_n 500 buffer)))
  end.

(** [rid > n] for a string [rid] and an integer [n]. *)
Definition str_gt_int (rid : string) (n : Z) : result bool :=
  Raised TypeError.

(** [{rid for rid in ids if rid > bound}]. *)
Fixpoint ids_above (ids : list string) (bound : Z) : result (list string) :=
  match ids with
  | [] => Done []
  | rid :: rest =>
      match str_gt_int rid bound with
      | Raised e => Raised e
      | Done b =>
          match ids_above rest bound with
          | Raised e => Raised e
          | Done kept => Done (if b then rid :: kept else kept)
          end
      end
  end.

(** "Limpa cache se muito grande". *)
Definition limpar_cache : M unit :=
  st <~ ask id ;;
  if 10000 <? Z.of_nat (size (eventos_processados st)) then
    match ids_above (elements (eventos_processados st))
            (highest_record_id st - 5000) with
    | Raised e => raise e
    | Done kept => update (with_processados (list_to_set kept))
    end
  else ret tt.

(** The body of [try:] in the loop, on the events that
    [buscar_eventos_recentes_powershell(5)] returned. *)
Definition tick (env : Env) (cfg : Config) (eventos_raw : list RawEvent)
  : M unit :=
  novos <~ collect env cfg eventos_raw [] ;;
  when (match novos with [] => false | _ => true end)
    (update (fun st => with_buffer (eventos_buffer st ++ novos) st)) ;;;
  deliver_buffer env cfg ;;;
  limpar_cache ;;;
  sleep (check_interval cfg).

(** One iteration of [while True], with [except Exception]. *)
Definition iteration (env : Env) (cfg : Config) (eventos_raw : list RawEvent)
  : M unit :=
  fun st =>
    match tick env cfg eventos_raw st with
    | (Raised _, st') => sleep (retry_interval cfg) st'
    | done => done
    end.

(** After the loop: "Envia eventos restantes" and "Salva estado final". *)
Definition drain (env : Env) (cfg : Config) : M unit :=
  buffer <~ ask eventos_buffer ;;
  match buffer with
  | [] => ret tt
  | _ =>
      ok <~ send_events env cfg (map to_wire buffer) ;;
      if ok then
        for_each buffer (fun e => add_processado (buffered_id cfg e)) ;;;
        salvar_eventos_processados env
      else ret tt
  end ;;;
  salvar_eventos_processados env.

(** The start of [monitor_events], up to the loop: the catch-up pass when
    it is enabled, on the [history] that the log returns, and the empty
    buffer. *)
Definition startup (env : Env) (cfg : Config) (history : list RawEvent)
  : M unit :=
  when (process_all_on_start cfg)
    (processar_todos_eventos env cfg history) ;;;
  update (with_buffer []).

(** [monitor_events]: [polls] are the answers of the log to the polls of
    the loop, one per iteration, until the interruption of the keyboard
    ends the loop. *)
Definition monitor_events (env : Env) (cfg : Config)
    (history : list RawEvent) (polls : list (list RawEvent)) : M unit :=
  startup env cfg history ;;;
  for_each polls (iteration env cfg) ;;;
  drain env cfg.

(** ** Definitions used in the statements *)

(** A character occurs in a string. *)
Fixpoint occurs (c : ascii) (s : string) : Prop :=
  match s with
  | EmptyString => False
  | String d s' => c = d \/ occurs c s'
  end.

(** The groups that take part in every match of a pattern. *)
Fixpoint binds (n : nat) (r : Re.regex) : bool :=
  match r with
  | Re.Seq r1 r2 => binds n r1 || binds n r2
  | Re.Alt r1 r2 => binds n r1 && binds n r2
  | Re.Group m r1 => Nat.eqb m n || binds n r1
  | _ => false
  end.

(** The captures of [cs] are still there in [cs']. *)
Definition grows (cs cs' : Re.captures) : Prop :=
  forall n, is_Some (Re.group n cs) -> is_Some (Re.group n cs').

(** Every capture of [cs] has at most [bound] characters. *)
Definition within (bound : nat) (cs : Re.captures) : Prop :=
  forall n t, Re.group n cs = Some t -> (length t <= bound)%nat.



(** No pattern of the list finds in the message a count of more digits
    than [int] converts. *)
Definition counts_parsable (ps : list pattern) (msg : string) : bool :=
  forallb (fun p => match re_search p msg with
                    | Some m =>
                        match Re.group 1 m with
                        | Some t => (length t <=? PyStr.max_str_digits)%nat
                        | None => true
                        end
                    | None => true
                    end) ps.

(** The patterns that the extractor may search for a count. *)
Definition count_patterns (msg : string) : list pattern :=
  language_patterns msg ++ generic_patterns.






(** Inputs of the examples. *)
Definition cfg_pc1 : Config :=
  {| machine_name := "PC1"; max_retries := 3; batch_size := 50;
     check_interval := 5; retry_interval := 30;
     process_all_on_start := true |}.

Definition raw (n : Z) (host : string) (m : msg_field) : RawEvent :=
  {| RecordId := Some n; TimeCreated := Some "2024-05-02 10:00:00";
     MachineName := Some host; Message := m |}.

Definition report_msg : string :=
  "Document 3, report.docx owned by alice on \\PC1 was printed on HP-LaserJet. Pages printed: 7.".

Definition relatorio_msg : string :=
  "O documento 12, Relat.pdf pertencente a maria em \\PC2 foi impresso em Ricoh pela porta USB001. Tamanho em bytes: 1000. "
  +:+ Paginas_impressas +:+ " 4".


(** A pattern whose group 1 takes part in every match. *)
Definition page_pattern (p : pattern) : Prop := binds 1 p.2 = true.

(** The requests and pauses of one delivery that makes [posts] attempts:
    a pause of 5 seconds after every attempt but the last. *)
Definition retry_trace (events : list WireEvent) (posts : nat) : list action :=
  match posts with
  | O => []
  | S k => concat (replicate k [Post events; Sleep 5]) ++ [Post events]
  end.

(** The answer to the [i]-th request made from the state [st] on. *)
Definition answer (env : Env) (st : State) (i : nat) : http_outcome :=
  collector env (posts_in (trace st) + i).

Definition env_of (r : http_outcome) : Env :=
  {| collector := fun _ => r; clock := "2024-05-02 10:00:05" |}.

Definition one_record : WireEvent :=
  {| w_date := "2024-05-02 10:00:00"; w_user := "alice";
     w_machine := "PC1"; w_pages := 7; w_document := "report.docx";
     w_printer := "HP-LaserJet" |}.

(** A processed set of 10001 identities of this machine, at the high-water
    mark 10001. *)
Definition full_cache : State :=
  {| eventos_processados :=
       list_to_set
         (map (fun n => criar_id_unico cfg_pc1 (Z.of_nat n) None)
            (seq 1 (Z.to_nat 10001)));
     highest_record_id := 10001;
     eventos_buffer := [];
     trace := [] |}.

(** The events and the collector of the examples of the catch-up pass. *)
Definition unreadable_history : list RawEvent :=
  [raw 5 "PC1" (MStr report_msg); raw 9 "PC1" MNull].

(** A buffered record carries a record number, and the identity of that
    number on this machine is in the processed set. *)
Definition buffered_ok (cfg : Config) (st : State) (ev : CanonicalEvent)
  : Prop :=
  exists rid,
    record_id ev = Some rid /\
    criar_id_unico cfg rid None ∈ eventos_processados st.

(** What holds of the state between two iterations of the loop. *)
Definition steady (cfg : Config) (st : State) : Prop :=
  0 <= highest_record_id st /\
  Forall (buffered_ok cfg st) (eventos_buffer st) /\
  NoDup (record_id <$> eventos_buffer st).

(** The record [ev] was extracted from a raw event of [raws] that passes
    the three tests in the state [st]: its identity is not in the
    processed set, it is of this machine, and its record number is above
    the high-water mark. *)
Definition accepted_from (env : Env) (cfg : Config) (st : State)
    (raws : list RawEvent) (ev : CanonicalEvent) : Prop :=
  exists e rid,
    e ∈ raws /\
    extrair_dados_evento (clock env) (machine_name cfg) e = Some ev /\
    RecordId e = Some rid /\ record_id ev = Some rid /\
    (raw_id cfg e ∉ eventos_processados st) /\
    raw_machine cfg e = machine_name cfg /\
    highest_record_id st < rid.

(** The loop will not take up the record number [rid] of this machine in
    the state [st]. *)
Definition settled (cfg : Config) (st : State) (rid : Z) : Prop :=
  criar_id_unico cfg rid None ∈ eventos_processados st \/
  rid <= highest_record_id st.

(** The raw events of a catch-up pass, those whose identity is not yet
    in the processed set, and the records extracted from them. *)
Definition pass_events (cfg : Config) (st : State)
    (eventos_raw : list RawEvent) : list RawEvent :=
  eventos_nao_processados cfg (eventos_processados st) eventos_raw.

Definition pass_records (env : Env) (cfg : Config) (st : State)
    (eventos_raw : list RawEvent) : list CanonicalEvent :=
  extrair_todos env cfg (pass_events cfg st eventos_raw).

(** The catch-up pass on [unreadable_history], from an empty state file,
    with a collector that accepts every request. *)
Definition unreadable_run : State :=
  snd (processar_todos_eventos (env_of (Response 200 JsonObject)) cfg_pc1
         unreadable_history (init cfg_pc1 None)).

(** A run of [monitor_events] with the collector unreachable: nothing in
    the history, one poll that finds event 1, then the interruption. *)
Definition offline_run : State :=
  snd (monitor_events (env_of ConnectionError) cfg_pc1 []
         [[raw 1 "PC1" (MStr report_msg)]] (init cfg_pc1 None)).

(** The event and the record of the example of the specification. *)
Definition report_event : RawEvent := raw 42 "PC1" (MStr report_msg).

Definition report_record : CanonicalEvent :=
  {| record_id := Some 42; date := "2024-05-02 10:00:00"; user := "alice";
     machine := "PC1"; pages := 7; document := "report.docx";
     printer := "HP-LaserJet" |}.

(** The text of group 1 of the first match of a pattern. *)
Definition group1 (p : pattern) (msg : string) : option string :=
  m ← re_search p msg; PyStr.of_chars <$> Re.group 1 m.

Definition newline : string := String "010"%char "".

(** ** Definitions used in the further properties *)

From stdpp Require Import sorting.

Local Open Scope Z_scope.

(** The value of a decimal numeral, most significant digit first, after
    the digits that gave [acc]. *)
Fixpoint uint_value (d : Decimal.uint) (acc : Z) : Z :=
  match d with
  | Decimal.Nil => acc
  | Decimal.D0 d => uint_value d (10 * acc + 0)
  | Decimal.D1 d => uint_value d (10 * acc + 1)
  | Decimal.D2 d => uint_value d (10 * acc + 2)
  | Decimal.D3 d => uint_value d (10 * acc + 3)
  | Decimal.D4 d => uint_value d (10 * acc + 4)
  | Decimal.D5 d => uint_value d (10 * acc + 5)
  | Decimal.D6 d => uint_value d (10 * acc + 6)
  | Decimal.D7 d => uint_value d (10 * acc + 7)
  | Decimal.D8 d => uint_value d (10 * acc + 8)
  | Decimal.D9 d => uint_value d (10 * acc + 9)
  end.

(** The machine that the save files an identity under: the text before
    its first underscore. *)
Definition machine_of (id : string) : option string := fst <$> split_id id.

(** The entries that the save files under the machine [m]: the record
    number and the identity, for every identity of the set that has an
    underscore after [m] and an integer after the underscore. *)
Definition entries_of (ids : gset string) (m : string) : list (Z * string) :=
  of_machine (omap parsed_entry (elements ids)) m.

(** The order of the sort: by record number. *)
Definition by_key (a b : Z * string) : Prop := a.1 <= b.1.

(** The batches of [send_events_batch]: one slice of the list for each
    start that [range] yields. *)
Definition batches (cfg : Config) (events_to_send : list WireEvent)
    (starts : list Z) : list (list WireEvent) :=
  map (fun i => slice i (i + batch_size cfg) events_to_send) starts.

(** The pause at the end of an iteration: the interval of the checks
    after a tick that completed, that of the retries after an
    exception. *)
Definition pause_after (cfg : Config) (r : result unit) : Z :=
  match r with
  | Done _ => check_interval cfg
  | Raised _ => retry_interval cfg
  end.

(** A state of the loop with the record of event 42 in the buffer. *)
Definition buffering : State :=
  {| eventos_processados := {[criar_id_unico cfg_pc1 42 None]};
     highest_record_id := 0;
     eventos_buffer := [report_record];
     trace := [] |}.


(** ** The configuration *)

(** What [json.load] returns.  A number with a fraction or an exponent is
    kept as its text; [load_config] never looks at it. *)
#[warnings="-register-all"] Inductive jvalue : Type :=
  | VNull
  | VBool (b : bool)
  | VInt (n : Z)
  | VFloat (text : string)
  | VStr (s : string)
  | VList (l : list jvalue)
  | VDict (m : gmap string jvalue).

(** [DEFAULT_CONFIG], in the order of its keys. *)
Definition DEFAULT_CONFIG : list (string * jvalue) :=
  [("server_url", VStr "http://192.168.0.4:5002/api/print_events");
   ("retry_interval", VInt 30);
   ("check_interval", VInt 5);
   ("max_retries", VInt 3);
   ("log_level", VStr "INFO");
   ("batch_size", VInt 50);
   ("process_all_on_start", VBool true)].

(** [DEFAULT_CONFIG.copy()]. *)
Definition default_config : jvalue := VDict (list_to_map DEFAULT_CONFIG).

(** [key in config]: the keys of a dict, the elements of a list, the
    substrings of a string; the other values are not containers and the
    test raises, which is [None]. *)
Definition key_in (key : string) (config : jvalue) : option bool :=
  match config with
  | VDict m => Some (bool_decide (is_Some (m !! key)))
  | VList l =>
      Some (existsb (fun j => match j with
                              | VStr s => String.eqb key s
                              | _ => false
                              end) l)
  | VStr s => Some (PyStr.contains (PyStr.chars key) (PyStr.chars s))
  | _ => None
  end.

(** [config[key] = value] with a string for key: only a dict takes it. *)
Definition set_item (key : string) (value : jvalue) (config : jvalue)
  : option jvalue :=
  match config with
  | VDict m => Some (VDict (<[key := value]> m))
  | _ => None
  end.

(** The loop over the keys of [DEFAULT_CONFIG]. *)
Fixpoint fill_defaults (defaults : list (string * jvalue)) (config : jvalue)
  : option jvalue :=
  match defaults with
  | [] => Some config
  | (key, value) :: rest =>
      present ← key_in key config;
      filled ← (if present : bool then Some config
                else set_item key value config);
      fill_defaults rest filled
  end.

(** The configuration file when the agent starts: missing, not readable
    as JSON, or holding a value. *)
Inductive config_file : Type :=
  | NoFile
  | Unreadable
  | Parsed (config : jvalue).

(** [load_config]: the configuration returned and, when the function
    writes the file, what it writes. *)
Definition load_config (f : config_file) : jvalue * option jvalue :=
  match f with
  | Parsed config =>
      match fill_defaults DEFAULT_CONFIG config with
      | Some config' => (config', None)
      | None => (default_config, Some default_config)
      end
  | _ => (default_config, Some default_config)
  end.
(** * Properties *)

(** ** Strings and decimal numerals *)

Section Strings.

Lemma occurs_append c a b : occurs c b -> occurs c (a +:+ b).
Proof. induction a; simpl; auto. Qed.

Lemma uint_digits_only c d :
  occurs c (NilEmpty.string_of_uint d) -> PyStr.is_digit c = true.
Proof.
  induction d; simpl; try tauto;
    (intros [-> | H]; [reflexivity | auto]).
Qed.

Lemma str_of_int_chars c n :
  occurs c (PyStr.str_of_int n) -> c = "-"%char \/ PyStr.is_digit c = true.
Proof.
  unfold PyStr.str_of_int. destruct (Z.to_int n) as [d | d]; simpl.
  - intros H. right. eapply uint_digits_only, H.
  - intros [-> | H]; [now left | right; eapply uint_digits_only, H].
Qed.

Lemma str_of_int_no_underscore n : ~ occurs "_"%char (PyStr.str_of_int n).
Proof.
  intros H. apply str_of_int_chars in H as [H | H]; discriminate.
Qed.

Lemma str_of_int_inj a b : PyStr.str_of_int a = PyStr.str_of_int b -> a = b.
Proof.
  unfold PyStr.str_of_int. intros H.
  apply DecimalZ.to_int_inj.
  assert (E : Some (Z.to_int a) = Some (Z.to_int b))
    by (rewrite <- !NilEmpty.isi; now rewrite H).
  now injection E.
Qed.

(** The text after the last underscore determines the split. *)
Lemma split_at_last_underscore (h1 h2 t1 t2 : string) :
  ~ occurs "_"%char t1 -> ~ occurs "_"%char t2 ->
  h1 +:+ String "_" t1 = h2 +:+ String "_" t2 ->
  h1 = h2 /\ t1 = t2.
Proof.
  revert h2. induction h1 as [|c h1 IH]; intros [|d h2] N1 N2; simpl.
  - intros [= ->]. auto.
  - intros [= <- ->]. exfalso. apply N1, occurs_append. simpl. auto.
  - intros [= -> <-]. exfalso. apply N2, occurs_append. simpl. auto.
  - intros [= -> E]. destruct (IH h2 N1 N2 E) as [-> ->]. auto.
Qed.

End Strings.

(** ** Identity *)

Lemma criar_id_unico_named cfg s h :
  h <> "" -> criar_id_unico cfg s (Some h) = h +:+ "_" +:+ PyStr.str_of_int s.
Proof. unfold criar_id_unico. destruct h; [congruence | reflexivity]. Qed.

(** C9, as stated: not injective on all hosts.  An empty host name
    is replaced by the name of this machine, so on [PC1] the pairs
    [("", 5)] and [("PC1", 5)] have the same identity. *)
Lemma criar_id_unico_empty_host :
  ~ (forall (cfg : Config) (h1 h2 : string) (s1 s2 : Z),
        0 <= s1 -> 0 <= s2 ->
        criar_id_unico cfg s1 (Some h1) = criar_id_unico cfg s2 (Some h2) ->
        h1 = h2 /\ s1 = s2).
Proof.
  intros H.
  destruct (H cfg_pc1 "" "PC1" 5 5) as [E _]; [lia | lia | reflexivity |].
  discriminate E.
Qed.

(** C9 (amended).  On non-empty host names the identity is a function of
    the host and the record number alone, whatever the agent that computes
    it, and it is injective: equal identities come from equal hosts and
    equal record numbers, also when a host name contains underscores. *)
Theorem criar_id_unico_injective (cfg1 cfg2 : Config) (h1 h2 : string)
    (s1 s2 : Z) :
  h1 <> "" -> h2 <> "" ->
  criar_id_unico cfg1 s1 (Some h1) = criar_id_unico cfg2 s1 (Some h1) /\
  (criar_id_unico cfg1 s1 (Some h1) = criar_id_unico cfg2 s2 (Some h2) ->
   h1 = h2 /\ s1 = s2).
Proof.
  intros N1 N2. rewrite !criar_id_unico_named by assumption.
  split; [reflexivity |]. intros E.
  apply split_at_last_underscore in E as [-> E];
    auto using str_of_int_no_underscore.
  split; [reflexivity | now apply str_of_int_inj].
Qed.

Lemma criar_id_unico_injective_witness :
  "MY_PC" <> "" /\ "MY" <> "" /\
  (criar_id_unico cfg_pc1 7 (Some "MY_PC") = criar_id_unico cfg_pc1 7 (Some "MY_PC") /\
   (criar_id_unico cfg_pc1 7 (Some "MY_PC") = criar_id_unico cfg_pc1 7 (Some "MY") ->
    "MY_PC" = "MY" /\ 7 = 7)).
Proof.
  split; [discriminate |]. split; [discriminate |].
  apply (criar_id_unico_injective cfg_pc1 cfg_pc1 "MY_PC" "MY" 7 7);
    discriminate.
Defined.

(** ** Regular expressions: the groups of a match *)

Section Groups.

Import Re.

Lemma grows_refl cs : grows cs cs.
Proof. intros n H. exact H. Qed.

Lemma grows_trans cs1 cs2 cs3 : grows cs1 cs2 -> grows cs2 cs3 -> grows cs1 cs3.
Proof. intros H1 H2 n H. auto. Qed.

Lemma grows_cons n t cs : grows cs ((n, t) :: cs).
Proof.
  intros m H. simpl. destruct (Nat.eqb n m); [eauto | exact H].
Qed.

Lemma star_greedy_calls k prev s cs kont out :
  star_greedy k prev s cs kont = Some out ->
  exists p' s', kont p' s' cs = Some out.
Proof.
  revert prev. induction s as [|c s IH]; intros prev; simpl.
  - eauto.
  - destruct (in_class k c); [|eauto].
    destruct (star_greedy k (Some c) s cs kont) eqn:E.
    + intros [= <-]. eauto.
    + eauto.
Qed.

Lemma star_lazy_calls k prev s cs kont out :
  star_lazy k prev s cs kont = Some out ->
  exists p' s', kont p' s' cs = Some out.
Proof.
  revert prev. induction s as [|c s IH]; intros prev; simpl.
  - destruct (kont prev [] cs) eqn:E; [intros [= <-]; eauto | discriminate].
  - destruct (kont prev (c :: s) cs) eqn:E; [intros [= <-]; eauto |].
    destruct (in_class k c); [eauto | discriminate].
Qed.

(** A match reaches its continuation with the captures it had, and with
    those of the groups the pattern binds. *)
Lemma rmatch_calls ic r : forall prev s cs kont out,
  rmatch ic r prev s cs kont = Some out ->
  exists p' s' cs',
    kont p' s' cs' = Some out /\ grows cs cs' /\
    (forall n, binds n r = true -> is_Some (group n cs')).
Proof.
  induction r as [ | c | k | r1 IH1 r2 IH2 | r1 IH1 r2 IH2 | g k
                 | n r IH | | ]; intros prev s cs kont out; simpl.
  - intros H. exists prev, s, cs. split; [exact H | split; [apply grows_refl | discriminate]].
  - destruct s as [|d s]; [discriminate|].
    destruct (chr_matches ic c d); [|discriminate].
    intros H. exists (Some d), s, cs. split; [exact H | split; [apply grows_refl | discriminate]].
  - destruct s as [|d s]; [discriminate|].
    destruct (in_class k d); [|discriminate].
    intros H. exists (Some d), s, cs. split; [exact H | split; [apply grows_refl | discriminate]].
  - intros H.
    apply IH1 in H as (p1 & s1 & cs1 & H & G1 & B1).
    apply IH2 in H as (p2 & s2 & cs2 & H & G2 & B2).
    exists p2, s2, cs2. split; [exact H|]. split; [eauto using grows_trans|].
    intros n Hn. apply orb_true_iff in Hn as [Hn | Hn]; auto.
  - destruct (rmatch ic r1 prev s cs kont) eqn:E.
    + intros [= <-]. apply IH1 in E as (p1 & s1 & cs1 & H & G1 & B1).
      exists p1, s1, cs1. split; [exact H|]. split; [exact G1|].
      intros n Hn. apply andb_true_iff in Hn as [Hn _]. auto.
    + intros H. apply IH2 in H as (p1 & s1 & cs1 & H & G1 & B1).
      exists p1, s1, cs1. split; [exact H|]. split; [exact G1|].
      intros n Hn. apply andb_true_iff in Hn as [_ Hn]. auto.
  - intros H.
    assert (exists p' s', kont p' s' cs = Some out) as (p' & s' & H').
    { destruct g; eauto using star_greedy_calls, star_lazy_calls. }
    exists p', s', cs. split; [exact H'|]. split; [apply grows_refl|].
    discriminate.
  - intros H. apply IH in H as (p1 & s1 & cs1 & H & G1 & B1).
    eexists p1, s1, _. split; [exact H|].
    split; [eauto using grows_trans, grows_cons|].
    intros m Hm. simpl.
    destruct (Nat.eqb n m); [eauto | apply B1; exact Hm].
  - destruct (xorb _ _); [|discriminate].
    intros H. exists prev, s, cs. split; [exact H | split; [apply grows_refl | discriminate]].
  - destruct s as [|c [|? ?]]; try discriminate.
    + intros H. exists prev, [], cs. split; [exact H | split; [apply grows_refl | discriminate]].
    + destruct (PyStr.code c =? 10)%N; [|discriminate].
      intros H. exists prev, [c], cs. split; [exact H | split; [apply grows_refl | discriminate]].
Qed.

Lemma search_from_binds ic r n : forall s prev m,
  binds n r = true ->
  search_from ic r prev s = Some m -> is_Some (group n m).
Proof.
  induction s as [|c s IH]; intros prev m B; simpl;
    destruct (rmatch ic r prev _ [] _) eqn:E.
  - intros [= <-]. apply rmatch_calls in E as (? & ? & cs & [= <-] & _ & H).
    auto.
  - discriminate.
  - intros [= <-]. apply rmatch_calls in E as (? & ? & cs & [= <-] & _ & H).
    auto.
  - eauto.
Qed.

Lemma within_nil bound : within bound [].
Proof. intros n t H. discriminate H. Qed.

Lemma within_mono b1 b2 cs : (b1 <= b2)%nat -> within b1 cs -> within b2 cs.
Proof. intros Hb H n t Ht. specialize (H n t Ht). lia. Qed.

Lemma star_greedy_within k prev s cs kont out :
  star_greedy k prev s cs kont = Some out ->
  exists p' s', kont p' s' cs = Some out /\ (length s' <= length s)%nat.
Proof.
  revert prev. induction s as [|c s IH]; intros prev; simpl.
  - eauto.
  - destruct (in_class k c); [|eauto].
    destruct (star_greedy k (Some c) s cs kont) eqn:E.
    + intros [= <-]. apply IH in E as (p' & s' & E & H). eauto.
    + eauto.
Qed.

Lemma star_lazy_within k prev s cs kont out :
  star_lazy k prev s cs kont = Some out ->
  exists p' s', kont p' s' cs = Some out /\ (length s' <= length s)%nat.
Proof.
  revert prev. induction s as [|c s IH]; intros prev; simpl.
  - destruct (kont prev [] cs) eqn:E; [intros [= <-]; eauto | discriminate].
  - destruct (kont prev (c :: s) cs) eqn:E; [intros [= <-]; eauto |].
    destruct (in_class k c); [|discriminate].
    intros H. apply IH in H as (p' & s' & H & L). eauto.
Qed.

(** A match reaches its continuation further in the text, with captures
    that are pieces of the text it went through. *)
Lemma rmatch_within ic bound r : forall prev s cs kont out,
  rmatch ic r prev s cs kont = Some out ->
  (length s <= bound)%nat -> within bound cs ->
  exists p' s' cs',
    kont p' s' cs' = Some out /\ (length s' <= length s)%nat /\
    within bound cs'.
Proof.
  induction r as [ | c | k | r1 IH1 r2 IH2 | r1 IH1 r2 IH2 | g k
                 | n r IH | | ]; intros prev s cs kont out; simpl.
  - intros H L W. exists prev, s, cs. auto.
  - destruct s as [|d s]; [discriminate|].
    destruct (chr_matches ic c d); [|discriminate].
    intros H L W. exists (Some d), s, cs. simpl. auto.
  - destruct s as [|d s]; [discriminate|].
    destruct (in_class k d); [|discriminate].
    intros H L W. exists (Some d), s, cs. simpl. auto.
  - intros H L W.
    apply IH1 in H as (p1 & s1 & cs1 & H & L1 & W1); [|exact L|exact W].
    apply IH2 in H as (p2 & s2 & cs2 & H & L2 & W2); [|lia|exact W1].
    exists p2, s2, cs2. split; [exact H|]. split; [lia | exact W2].
  - destruct (rmatch ic r1 prev s cs kont) eqn:E.
    + intros [= <-] L W. exact (IH1 _ _ _ _ _ E L W).
    + intros H L W. exact (IH2 _ _ _ _ _ H L W).
  - intros H L W.
    assert (exists p' s', kont p' s' cs = Some out /\
                          (length s' <= length s)%nat) as (p' & s' & H' & L').
    { destruct g; eauto using star_greedy_within, star_lazy_within. }
    exists p', s', cs. auto.
  - intros H L W. apply IH in H as (p1 & s1 & cs1 & H & L1 & W1);
      [|exact L|exact W].
    eexists p1, s1, _. split; [exact H|]. split; [exact L1|].
    intros m t. simpl. destruct (Nat.eqb n m).
    + intros [= <-]. rewrite length_take. lia.
    + apply W1.
  - destruct (xorb _ _); [|discriminate].
    intros H L W. exists prev, s, cs. auto.
  - destruct s as [|c [|? ?]]; try discriminate.
    + intros H L W. exists prev, [], cs. auto.
    + destruct (PyStr.code c =? 10)%N; [|discriminate].
      intros H L W. exists prev, [c], cs. auto.
Qed.

Lemma search_from_within ic r : forall s prev m,
  search_from ic r prev s = Some m -> within (length s) m.
Proof.
  induction s as [|c s IH]; intros prev m; simpl;
    destruct (rmatch ic r prev _ [] _) eqn:E.
  - intros [= <-].
    apply (rmatch_within ic 0) in E as (? & ? & cs & [= <-] & _ & W);
      [exact W | simpl; lia | apply within_nil].
  - discriminate.
  - intros [= <-].
    apply (rmatch_within ic (S (length s))) in E
      as (? & ? & cs & [= <-] & _ & W);
      [exact W | simpl; lia | apply within_nil].
  - intros H. apply IH in H. eapply within_mono; [|exact H]. lia.
Qed.

End Groups.

Lemma re_search_binds p msg m n :
  binds n p.2 = true -> re_search p msg = Some m -> is_Some (Re.group n m).
Proof. intros B H. eapply search_from_binds; eauto. Qed.

(** ** Extractor *)

Lemma chars_length msg : length (PyStr.chars msg) = String.length msg.
Proof.
  unfold PyStr.chars. induction msg as [|c msg IH]; simpl; congruence.
Qed.

(** A group of a match is a piece of the message. *)
Lemma re_search_within p msg m :
  re_search p msg = Some m -> within (String.length msg) m.
Proof.
  intros H. rewrite <- chars_length. eapply search_from_within, H.
Qed.

Lemma counts_parsable_app ps qs msg :
  counts_parsable (ps ++ qs) msg
  = counts_parsable ps msg && counts_parsable qs msg.
Proof. apply forallb_app. Qed.

(** In a message of at most 4300 characters no count is too long. *)
Lemma counts_parsable_short ps msg :
  (String.length msg <= PyStr.max_str_digits)%nat ->
  counts_parsable ps msg = true.
Proof.
  intros L. apply forallb_forall. intros p _.
  destruct (re_search p msg) as [m|] eqn:R; [|reflexivity].
  destruct (Re.group 1 m) as [t|] eqn:G; [|reflexivity].
  apply Nat.leb_le. pose proof (re_search_within _ _ _ R 1%nat t G). lia.
Qed.

Lemma int_group_some p msg m :
  page_pattern p -> re_search p msg = Some m ->
  counts_parsable [p] msg = true ->
  exists n, int_group 1 m = Some n.
Proof.
  intros B H C. destruct (re_search_binds p msg m 1 B H) as [t Ht].
  unfold counts_parsable in C. simpl in C. rewrite H, Ht, andb_true_r in C.
  unfold int_group. rewrite Ht. simpl. rewrite C. eauto.
Qed.

Lemma first_count_total ps msg :
  Forall page_pattern ps -> counts_parsable ps msg = true ->
  exists found, first_count ps msg = Some found.
Proof.
  induction 1 as [|p ps Hp _ IH]; simpl; [eauto|].
  intros C. change (counts_parsable ([p] ++ ps) msg = true) in C.
  rewrite counts_parsable_app in C. apply andb_true_iff in C as [C1 C2].
  destruct (re_search p msg) as [m|] eqn:E; [|exact (IH C2)].
  destruct (int_group_some p msg m Hp E C1) as [n ->]. simpl. eauto.
Qed.

Lemma generic_scan_total ps msg :
  Forall page_pattern ps -> counts_parsable ps msg = true ->
  exists found, generic_scan ps msg = Some found.
Proof.
  induction 1 as [|p ps Hp _ IH]; simpl; [eauto|].
  intros C. change (counts_parsable ([p] ++ ps) msg = true) in C.
  rewrite counts_parsable_app in C. apply andb_true_iff in C as [C1 C2].
  destruct (re_search p msg) as [m|] eqn:E; [|exact (IH C2)].
  destruct (int_group_some p msg m Hp E C1) as [n ->]. simpl.
  destruct (valid_pages n); eauto.
Qed.



Lemma language_patterns_ok msg : Forall page_pattern (language_patterns msg).
Proof.
  unfold language_patterns. destruct (is_portuguese msg);
    repeat constructor.
Qed.

Lemma generic_patterns_ok : Forall page_pattern generic_patterns.
Proof. repeat constructor. Qed.




(** The page count before the validation, by what the two scans find. *)
Lemma pages_before_validation_cases msg :
  counts_parsable (count_patterns msg) msg = true ->
  exists found generic,
    first_count (language_patterns msg) msg = Some found /\
    generic_scan generic_patterns msg = Some generic /\
    pages_before_validation msg =
      Some (match found with
            | Some n => if n =? 1 then default n generic else n
            | None => default 1 generic
            end).
Proof.
  unfold count_patterns. rewrite counts_parsable_app.
  intros C. apply andb_true_iff in C as [C1 C2].
  destruct (first_count_total _ msg (language_patterns_ok msg) C1)
    as [found F].
  destruct (generic_scan_total _ msg generic_patterns_ok C2) as [generic G].
  exists found, generic. split; [exact F|]. split; [exact G|].
  unfold pages_before_validation. rewrite F, G. simpl.
  destruct found as [n|]; simpl; [destruct (n =? 1)|]; reflexivity.
Qed.


Lemma extrair_dados_evento_inv now self ev d :
  extrair_dados_evento now self ev = Some d ->
  exists msg, message_text ev = Some msg /\
              extract_pages msg = Some (pages d) /\
              record_id d = RecordId ev /\
              machine d = default self (MachineName ev).
Proof.
  unfold extrair_dados_evento.
  destruct (message_text ev) as [msg|]; simpl; [|discriminate].
  destruct (doc_user _ msg) as [[doc usr]|]; simpl; [|discriminate].
  destruct (printer_name _ msg) as [prn|]; simpl; [|discriminate].
  destruct (extract_pages msg) as [pgs|] eqn:E; simpl; [|discriminate].
  intros [= <-]. simpl. exists msg. auto.
Qed.

Lemma doc_user_total msg :
  is_Some (doc_user (if is_portuguese msg then pt_doc_user else en_doc_user)
             msg).
Proof.
  unfold doc_user.
  set (p := if is_portuguese msg then pt_doc_user else en_doc_user).
  assert (B1 : binds 1 p.2 = true) by (subst p; destruct (is_portuguese msg);
                                        reflexivity).
  assert (B2 : binds 2 p.2 = true) by (subst p; destruct (is_portuguese msg);
                                        reflexivity).
  destruct (re_search p msg) as [m|] eqn:R; [|eexists; reflexivity].
  destruct (re_search_binds p msg m 1 B1 R) as [t1 H1].
  destruct (re_search_binds p msg m 2 B2 R) as [t2 H2].
  unfold strip_group. rewrite H1, H2. eexists. reflexivity.
Qed.

Lemma printer_name_total msg :
  is_Some (printer_name (if is_portuguese msg then pt_printer else en_printer)
             msg).
Proof.
  unfold printer_name.
  set (p := if is_portuguese msg then pt_printer else en_printer).
  assert (B1 : binds 1 p.2 = true) by (subst p; destruct (is_portuguese msg);
                                        reflexivity).
  destruct (re_search p msg) as [m|] eqn:R; [|eexists; reflexivity].
  destruct (re_search_binds p msg m 1 B1 R) as [t1 H1].
  unfold strip_group. rewrite H1. eexists. reflexivity.
Qed.

Lemma extract_pages_total msg :
  counts_parsable (count_patterns msg) msg = true ->
  is_Some (extract_pages msg).
Proof.
  intros C.
  destruct (pages_before_validation_cases msg C) as (f & g & _ & _ & P).
  unfold extract_pages. rewrite P. eexists. reflexivity.
Qed.








(** ** State and trace *)

Lemma with_trace_same st : with_trace (trace st) st = st.
Proof. destruct st; reflexivity. Qed.

Lemma with_trace_twice t1 t2 st :
  with_trace t2 (with_trace t1 st) = with_trace t2 st.
Proof. reflexivity. Qed.

Lemma posts_in_app t1 t2 : posts_in (t1 ++ t2) = (posts_in t1 + posts_in t2)%nat.
Proof. unfold posts_in. now rewrite List.filter_app, length_app. Qed.

Lemma retry_trace_succ events k :
  retry_trace events (S (S k))
  = Post events :: Sleep 5 :: retry_trace events (S k).
Proof. reflexivity. Qed.

(** ** Sender *)

Lemma send_attempts_run env cfg events : forall remaining attempt st,
  (remaining <> 0%nat -> Z.of_nat (attempt + remaining) = max_retries cfg) ->
  exists ok posts,
    send_attempts env cfg events attempt remaining st
    = (Done ok, with_trace (trace st ++ retry_trace events posts) st) /\
    (posts <= remaining)%nat /\
    (forall i, (i + 1 < posts)%nat -> accepted (answer env st i) = false) /\
    (ok = true ->
     (0 < posts)%nat /\ accepted (answer env st (posts - 1)) = true) /\
    (ok = false ->
     posts = remaining /\
     forall i, (i < posts)%nat -> accepted (answer env st i) = false).
Proof.
  induction remaining as [|r IH]; intros attempt st Hn.
  - exists false, 0%nat. simpl. unfold ret.
    rewrite app_nil_r, with_trace_same.
    split; [reflexivity|]. split; [lia|]. split; [intros; lia|].
    split; [discriminate|]. intros _. split; [reflexivity | intros; lia].
  - specialize (Hn ltac:(lia)).
    cbn [send_attempts]. unfold bind at 1, post.
    destruct (accepted (collector env (posts_in (trace st)))) eqn:A.
    + exists true, 1%nat. unfold ret. simpl retry_trace.
      split; [reflexivity|]. split; [lia|]. split; [intros; lia|].
      split; [|discriminate]. intros _. split; [lia|].
      unfold answer. simpl. now rewrite Nat.add_0_r.
    + destruct r as [|r].
      * exists false, 1%nat.
        replace (Z.of_nat attempt <? max_retries cfg - 1) with false
          by (symmetry; apply Z.ltb_ge; lia).
        cbn. split; [reflexivity|]. split; [lia|]. split; [intros; lia|].
        split; [discriminate|]. intros _. split; [reflexivity|].
        intros i Hi. assert (i = 0%nat) as -> by lia.
        unfold answer. now rewrite Nat.add_0_r.
      * replace (Z.of_nat attempt <? max_retries cfg - 1) with true
          by (symmetry; apply Z.ltb_lt; lia).
        cbn [when]. unfold bind at 1, sleep, emit, update. cbn [trace with_trace].
        set (st2 := with_trace ((trace st ++ [Post events]) ++ [Sleep 5]) _).
        destruct (IH (S attempt) st2 ltac:(intros _; lia))
          as (ok & posts & E & Hle & Hbefore & Hok & Hfail).
        assert (P2 : posts_in (trace st2) = S (posts_in (trace st))).
        { subst st2. cbn [trace with_trace].
          rewrite !posts_in_app. unfold posts_in. simpl. lia. }
        assert (A2 : forall i, answer env st2 i = answer env st (S i)).
        { intros i. unfold answer. rewrite P2. f_equal. lia. }
        assert (Hpos : (0 < posts)%nat).
        { destruct ok; [now apply Hok | destruct (Hfail eq_refl); lia]. }
        destruct posts as [|k]; [lia|].
        exists ok, (S (S k)). rewrite E. split.
        { subst st2. cbn [trace with_trace]. unfold with_trace. f_equal. f_equal.
          rewrite retry_trace_succ, <- !app_assoc. reflexivity. }
        split; [lia|]. split.
        { intros [|i] Hi.
          - unfold answer. now rewrite Nat.add_0_r.
          - rewrite <- A2. apply Hbefore. lia. }
        split.
        { intros ->. split; [lia|].
          destruct (Hok eq_refl) as [_ Hacc]. rewrite A2 in Hacc.
          replace (S (S k) - 1)%nat with (S (S k - 1)) by lia. exact Hacc. }
        { intros ->. destruct (Hfail eq_refl) as [-> Hall].
          split; [reflexivity|]. intros [|i] Hi.
          - unfold answer. now rewrite Nat.add_0_r.
          - rewrite <- A2. apply Hall. lia. }
Qed.

Lemma send_events_empty env cfg st :
  send_events env cfg [] st = (Done true, st).
Proof. reflexivity. Qed.

(** C7, as stated: a request answered with status 200 whose body is
    not JSON is a failed attempt, because [response.json()] raises before
    [return True]; with such answers the delivery fails although every
    attempt returned status 200. *)
Lemma send_events_status_200_fails :
  collector (env_of (Response 200 NotJson)) 0 = Response 200 NotJson /\
  fst (send_events (env_of (Response 200 NotJson)) cfg_pc1 [one_record]
         (init cfg_pc1 None)) = Done false.
Proof. split; vm_compute; reflexivity. Qed.

(** C7 (amended).  The delivery of a non-empty batch makes at most
    [max_retries] attempts, from whatever state it starts; an attempt
    succeeds when its answer has status 200 and a body that decodes to a
    JSON object, and any other answer is a failed attempt; the delivery
    succeeds exactly when one of the attempts it is allowed does, and
    stops there; there is a pause of 5 seconds after every attempt but
    the last; a delivery that fails has used all its attempts. *)
Theorem send_events_retries env cfg events st :
  events <> [] ->
  exists ok posts,
    send_events env cfg events st
    = (Done ok, with_trace (trace st ++ retry_trace events posts) st) /\
    (posts <= Z.to_nat (max_retries cfg))%nat /\
    (ok = true <->
     exists i, (i < Z.to_nat (max_retries cfg))%nat /\
               accepted (answer env st i) = true) /\
    (ok = true -> accepted (answer env st (posts - 1)) = true) /\
    (forall i, (i + 1 < posts)%nat -> accepted (answer env st i) = false) /\
    (ok = false -> posts = Z.to_nat (max_retries cfg)).
Proof.
  intros Hne.
  destruct (send_attempts_run env cfg events (Z.to_nat (max_retries cfg)) 0 st)
    as (ok & posts & E & Hle & Hbefore & Hok & Hfail).
  { intros H. simpl. lia. }
  exists ok, posts. split.
  { destruct events; [congruence | exact E]. }
  split; [exact Hle|]. split; [|split; [|split]].
  - split.
    + intros H. destruct (Hok H) as [Hp Ha].
      exists (posts - 1)%nat. split; [lia | exact Ha].
    + intros (i & Hi & Ha). destruct ok; [reflexivity|].
      destruct (Hfail eq_refl) as [-> Hall]. rewrite Hall in Ha by exact Hi.
      discriminate.
  - intros H. now apply Hok.
  - exact Hbefore.
  - intros H. now apply Hfail.
Qed.

Lemma send_events_retries_witness :
  [one_record] <> [] /\
  exists ok posts,
    send_events (env_of (Response 200 JsonObject)) cfg_pc1 [one_record]
      (init cfg_pc1 None)
    = (Done ok,
       with_trace (trace (init cfg_pc1 None) ++ retry_trace [one_record] posts)
         (init cfg_pc1 None)) /\
    (posts <= Z.to_nat (max_retries cfg_pc1))%nat /\
    (ok = true <->
     exists i, (i < Z.to_nat (max_retries cfg_pc1))%nat /\
               accepted (answer (env_of (Response 200 JsonObject))
                           (init cfg_pc1 None) i) = true) /\
    (ok = true ->
     accepted (answer (env_of (Response 200 JsonObject)) (init cfg_pc1 None)
                 (posts - 1)) = true) /\
    (forall i, (i + 1 < posts)%nat ->
               accepted (answer (env_of (Response 200 JsonObject))
                           (init cfg_pc1 None) i) = false) /\
    (ok = false -> posts = Z.to_nat (max_retries cfg_pc1)).
Proof.
  split; [discriminate|].
  apply (send_events_retries (env_of (Response 200 JsonObject)) cfg_pc1
           [one_record] (init cfg_pc1 None)).
  discriminate.
Defined.

(** ** In-memory compaction *)

Lemma ids_above_raises ids bound :
  ids <> [] -> ids_above ids bound = Raised TypeError.
Proof. destruct ids; [congruence | reflexivity]. Qed.

Lemma ids_above_done ids bound kept :
  ids_above ids bound = Done kept -> ids = [].
Proof. destruct ids; [reflexivity | discriminate]. Qed.

Lemma limpar_cache_over st :
  10000 < Z.of_nat (size (eventos_processados st)) ->
  limpar_cache st = (Raised TypeError, st).
Proof.
  intros H. unfold limpar_cache, bind, ask, id.
  replace (10000 <? Z.of_nat (size (eventos_processados st))) with true
    by (symmetry; apply Z.ltb_lt; exact H).
  rewrite ids_above_raises; [reflexivity|].
  intros E. unfold size, set_size in H. simpl in H. rewrite E in H.
  simpl in H. lia.
Qed.

Lemma limpar_cache_same st : exists r, limpar_cache st = (r, st).
Proof.
  destruct (Z.ltb_spec 10000 (Z.of_nat (size (eventos_processados st))))
    as [H | H].
  - eexists. now apply limpar_cache_over.
  - exists (Done tt). unfold limpar_cache, bind, ask, id.
    replace (10000 <? Z.of_nat (size (eventos_processados st))) with false
      by (symmetry; apply Z.ltb_ge; exact H).
    reflexivity.
Qed.

(** C2: the code does the opposite of the claim.  Whenever the processed
    set has more than 10000 identities the compaction compares a string
    with an integer, which raises [TypeError], and the set is left as it
    was. *)
Theorem limpar_cache_raises st :
  10000 < Z.of_nat (size (eventos_processados st)) ->
  limpar_cache st = (Raised TypeError, st).
Proof. exact (limpar_cache_over st). Qed.

Lemma own_id_inj (a b : nat) :
  criar_id_unico cfg_pc1 (Z.of_nat a) None
  = criar_id_unico cfg_pc1 (Z.of_nat b) None -> a = b.
Proof.
  unfold criar_id_unico. cbn [machine_name cfg_pc1 String.append].
  intros [= E]. apply str_of_int_inj in E. lia.
Qed.

Lemma full_cache_size :
  size (eventos_processados full_cache) = Z.to_nat 10001.
Proof.
  unfold full_cache. cbn [eventos_processados].
  rewrite size_list_to_set.
  - now rewrite length_map, length_seq.
  - apply NoDup_ListNoDup, Finite.Injective_map_NoDup; [|apply seq_NoDup].
    intros a b. apply own_id_inj.
Qed.

Lemma limpar_cache_raises_witness :
  10000 < Z.of_nat (size (eventos_processados full_cache)) /\
  limpar_cache full_cache = (Raised TypeError, full_cache).
Proof.
  assert (H : 10000 < Z.of_nat (size (eventos_processados full_cache)))
    by (rewrite full_cache_size; lia).
  split; [exact H | exact (limpar_cache_raises full_cache H)].
Defined.

(** ** Running the monad *)

Lemma bind_done {A B : Type} (m : M A) (f : A -> M B) st a st' :
  m st = (Done a, st') -> bind m f st = f a st'.
Proof. unfold bind. now intros ->. Qed.

Lemma bind_raised {A B : Type} (m : M A) (f : A -> M B) st e st' :
  m st = (Raised e, st') -> bind m f st = (Raised e, st').
Proof. unfold bind. now intros ->. Qed.

Lemma disk_app initial t1 t2 :
  disk initial (t1 ++ t2) = disk (disk initial t1) t2.
Proof.
  revert initial. induction t1 as [|a t1 IH]; intros initial; simpl;
    [reflexivity|].
  destruct a; apply IH.
Qed.

Lemma disk_no_save initial seg :
  (forall f, Save f ∉ seg) -> disk initial seg = initial.
Proof.
  induction seg as [|a seg IH]; intros H; simpl; [reflexivity|].
  assert (H' : forall f, Save f ∉ seg).
  { intros f Hf. apply (H f). now right. }
  destruct a; auto. exfalso. apply (H file). now left.
Qed.

Lemma retry_trace_elem events posts a :
  a ∈ retry_trace events posts -> a = Post events \/ a = Sleep 5.
Proof.
  induction posts as [|[|k] IH].
  - intros H. inversion H.
  - simpl. intros H. apply list_elem_of_singleton in H. auto.
  - rewrite retry_trace_succ. intros H.
    apply elem_of_cons in H as [-> | H]; [auto|].
    apply elem_of_cons in H as [-> | H]; auto.
Qed.

Lemma send_events_run env cfg events st :
  exists ok seg,
    send_events env cfg events st
    = (Done ok, with_trace (trace st ++ seg) st) /\
    forall a, a ∈ seg -> a = Post events \/ a = Sleep 5.
Proof.
  destruct events as [|w events].
  - exists true, []. simpl. unfold ret.
    rewrite app_nil_r, with_trace_same. split; [reflexivity|].
    intros a H. inversion H.
  - destruct (send_attempts_run env cfg (w :: events)
                (Z.to_nat (max_retries cfg)) 0 st)
      as (ok & posts & E & _); [intros H; simpl; lia|].
    exists ok, (retry_trace (w :: events) posts). split; [exact E|].
    intros a. apply retry_trace_elem.
Qed.

Lemma send_batches_run env cfg to_send : forall starts st,
  exists failed seg,
    send_batches env cfg to_send starts st
    = (Done failed, with_trace (trace st ++ seg) st) /\
    forall a, a ∈ seg ->
      (exists i, a = Post (slice i (i + batch_size cfg) to_send)) \/
      (exists s, a = Sleep s).
Proof.
  induction starts as [|i rest IH]; intros st.
  - exists [], []. simpl. unfold ret. rewrite app_nil_r, with_trace_same.
    split; [reflexivity|]. intros a H. inversion H.
  - cbn [send_batches].
    destruct (send_events_run env cfg
                (slice i (i + batch_size cfg) to_send) st)
      as (ok & seg1 & E1 & H1).
    rewrite (bind_done _ _ _ _ _ E1).
    set (pause := if i + batch_size cfg <? Z.of_nat (length to_send)
                  then [Sleep 1] else []).
    assert (E2 : when (i + batch_size cfg <? Z.of_nat (length to_send))
                   (sleep 1) (with_trace (trace st ++ seg1) st)
                 = (Done tt, with_trace (trace st ++ seg1 ++ pause) st)).
    { subst pause. destruct (_ <? _); unfold when, sleep, emit, update, ret;
        cbn [trace with_trace].
      - unfold with_trace. cbn [eventos_processados highest_record_id eventos_buffer trace]. now rewrite <- app_assoc.
      - now rewrite app_nil_r. }
    rewrite (bind_done _ _ _ _ _ E2).
    destruct (IH (with_trace (trace st ++ seg1 ++ pause) st))
      as (failed & seg3 & E3 & H3).
    rewrite (bind_done _ _ _ _ _ E3). unfold ret.
    exists (if ok then failed else i :: failed), (seg1 ++ pause ++ seg3).
    split.
    { cbn [trace with_trace]. unfold with_trace. cbn.
      now rewrite <- !app_assoc. }
    intros a Ha. rewrite !elem_of_app in Ha.
    destruct Ha as [Ha | [Ha | Ha]].
    + destruct (H1 a Ha) as [-> | ->]; eauto.
    + right. subst pause. destruct (_ <? _); [|inversion Ha].
      apply list_elem_of_singleton in Ha. eauto.
    + auto.
Qed.

Lemma salvar_eventos_processados_run env st :
  exists st',
    salvar_eventos_processados env st
    = (Done tt, with_trace (trace st ++ [Save (state_file env st')]) st') /\
    st' = (if 50000 <? Z.of_nat (size (eventos_processados st))
           then with_processados (novos_eventos (eventos_processados st)) st
           else st).
Proof.
  eexists. split; [|reflexivity].
  unfold salvar_eventos_processados, bind, ask, when, update, emit, ret, id.
  destruct (50000 <? _); reflexivity.
Qed.

(** ** Catch-up pass *)

Lemma mark_raw_run cfg e st :
  exists st',
    mark_raw cfg e st = (Done tt, st') /\
    eventos_processados st' = {[raw_id cfg e]} ∪ eventos_processados st /\
    highest_record_id st <= highest_record_id st' /\
    eventos_buffer st' = eventos_buffer st /\ trace st' = trace st.
Proof.
  unfold mark_raw, bind, add_processado, when, raise_highest, update, ret.
  destruct (String.eqb _ _); cbn.
  - destruct (_ <? _) eqn:E; cbn; eexists; split; try reflexivity;
      cbn; repeat split; try reflexivity; lia.
  - eexists; split; [reflexivity|]. cbn. repeat split; lia.
Qed.

Lemma mark_all_run cfg : forall l st,
  exists st',
    for_each l (mark_raw cfg) st = (Done tt, st') /\
    (forall id, id ∈ eventos_processados st' <->
                id ∈ eventos_processados st \/ exists e, e ∈ l /\ id = raw_id cfg e) /\
    highest_record_id st <= highest_record_id st' /\
    eventos_buffer st' = eventos_buffer st /\ trace st' = trace st.
Proof.
  induction l as [|e l IH]; intros st.
  - exists st. simpl. unfold ret. split; [reflexivity|].
    split; [|repeat split; lia].
    intros id. split; [auto|]. intros [H | (e & He & _)]; [exact H|].
    inversion He.
  - destruct (mark_raw_run cfg e st) as (st1 & E1 & S1 & H1 & B1 & T1).
    destruct (IH st1) as (st2 & E2 & S2 & H2 & B2 & T2).
    exists st2. cbn [for_each]. rewrite (bind_done _ _ _ _ _ E1).
    split; [exact E2|]. split; [|repeat split; congruence || lia].
    intros id. rewrite S2, S1. rewrite elem_of_union, elem_of_singleton.
    split.
    + intros [[-> | H] | (e' & He' & ->)]; eauto.
      * right. exists e. split; [left|reflexivity].
      * right. exists e'. split; [now right|reflexivity].
    + intros [H | (e' & He' & ->)]; [auto|].
      apply elem_of_cons in He' as [-> | He']; eauto.
Qed.

Lemma send_events_batch_run env cfg events st starts failed sent :
  events <> [] ->
  py_range (Z.of_nat (length events)) (batch_size cfg) = Done starts ->
  send_batches env cfg (map to_wire events) starts st = (Done failed, sent) ->
  send_events_batch env cfg events st
  = (Done (match failed with [] => true | _ => false end), sent).
Proof.
  intros Hne R E. unfold send_events_batch.
  destruct events; [congruence|]. rewrite R.
  now rewrite (bind_done _ _ _ _ _ E).
Qed.

Lemma processar_todos_eventos_unfold env cfg eventos_raw st :
  extrair_todos env cfg
    (eventos_nao_processados cfg (eventos_processados st) eventos_raw) <> [] ->
  processar_todos_eventos env cfg eventos_raw st
  = bind
      (send_events_batch env cfg
         (extrair_todos env cfg
            (eventos_nao_processados cfg (eventos_processados st)
               eventos_raw)))
      (fun ok =>
         if ok then
           for_each
             (eventos_nao_processados cfg (eventos_processados st)
                eventos_raw)
             (mark_raw cfg) ;;;
           salvar_eventos_processados env
         else ret tt)
      st.
Proof.
  intros Hne. unfold processar_todos_eventos.
  destruct eventos_raw as [|e0 raws]; [exfalso; apply Hne; reflexivity|].
  unfold bind at 1, ask.
  remember (eventos_nao_processados cfg (eventos_processados st) (e0 :: raws))
    as nao eqn:N.
  destruct nao as [|e1 nao]; [exfalso; apply Hne; reflexivity|].
  remember (extrair_todos env cfg (e1 :: nao)) as extraidos eqn:X.
  destruct extraidos; [congruence | reflexivity].
Qed.

Lemma state_file_ids env st id :
  JStr id ∈ processed_ids (state_file env st) <-> id ∈ eventos_processados st.
Proof.
  unfold state_file. cbn [processed_ids].
  rewrite list_elem_of_fmap. split.
  - intros (x & [= ->] & H). now apply elem_of_elements.
  - intros H. exists id. split; [reflexivity | now apply elem_of_elements].
Qed.

(** C3.  In a catch-up pass that has records to deliver: when the list
    of failed batches is not empty, the pass ends with the processed set
    and the high-water mark it started with and with the file on disk
    untouched; when it is empty, every identity of the pass goes into the
    processed set, the state is then saved, the file on disk is the one
    written, and it lists those identities unless the save had to prune
    a set of more than 50000. *)
Theorem processar_todos_eventos_all_or_nothing env cfg eventos_raw st starts :
  pass_records env cfg st eventos_raw <> [] ->
  py_range (Z.of_nat (length (pass_records env cfg st eventos_raw)))
    (batch_size cfg) = Done starts ->
  exists failed sent,
    send_batches env cfg (map to_wire (pass_records env cfg st eventos_raw))
      starts st
    = (Done failed, sent) /\
    (failed <> [] ->
     processar_todos_eventos env cfg eventos_raw st = (Done tt, sent) /\
     eventos_processados sent = eventos_processados st /\
     highest_record_id sent = highest_record_id st /\
     forall initial, disk initial (trace sent) = disk initial (trace st)) /\
    (failed = [] ->
     exists marked final,
       for_each (pass_events cfg st eventos_raw) (mark_raw cfg) sent
       = (Done tt, marked) /\
       (forall e, e ∈ pass_events cfg st eventos_raw ->
                  raw_id cfg e ∈ eventos_processados marked) /\
       salvar_eventos_processados env marked = (Done tt, final) /\
       processar_todos_eventos env cfg eventos_raw st = (Done tt, final) /\
       (forall initial,
          disk initial (trace final) = Some (state_file env final)) /\
       (Z.of_nat (size (eventos_processados marked)) <= 50000 ->
        forall e, e ∈ pass_events cfg st eventos_raw ->
                  JStr (raw_id cfg e) ∈ processed_ids (state_file env final))).
Proof.
  unfold pass_records, pass_events.
  set (nao := eventos_nao_processados cfg (eventos_processados st) eventos_raw).
  set (extraidos := extrair_todos env cfg nao).
  intros Hne R.
  destruct (send_batches_run env cfg (map to_wire extraidos) starts st)
    as (failed & seg & E & Hseg).
  exists failed, (with_trace (trace st ++ seg) st). split; [exact E|].
  pose proof (send_events_batch_run _ _ _ _ _ _ _ Hne R E) as B.
  pose proof (processar_todos_eventos_unfold env cfg eventos_raw st Hne) as U.
  fold nao in U. fold extraidos in U.
  rewrite (bind_done _ _ _ _ _ B) in U.
  split.
  - intros Hf. destruct failed as [|i failed]; [congruence|].
    split; [exact U|]. split; [reflexivity|]. split; [reflexivity|].
    intros initial. cbn [trace with_trace]. rewrite disk_app.
    apply disk_no_save. intros f Hin.
    destruct (Hseg _ Hin) as [[? ?] | [? ?]]; discriminate.
  - intros ->.
    destruct (mark_all_run cfg nao (with_trace (trace st ++ seg) st))
      as (marked & Em & Sm & _ & _ & _).
    destruct (salvar_eventos_processados_run env marked) as (final & Es & Ef).
    rewrite (bind_done _ _ _ _ _ Em) in U.
    exists marked, (with_trace (trace marked ++ [Save (state_file env final)]) final).
    assert (F : forall x, state_file env (with_trace x final) = state_file env final)
      by reflexivity.
    split; [exact Em|]. split.
    { intros e He. apply Sm. right. eauto. }
    split; [exact Es|]. split; [now rewrite U|]. split.
    { intros initial. cbn [trace with_trace]. rewrite disk_app. simpl.
      now rewrite F. }
    intros Hsz e He. rewrite F. apply state_file_ids.
    replace (50000 <? Z.of_nat (size (eventos_processados marked))) with false
      in Ef by (symmetry; apply Z.ltb_ge; lia).
    subst final. apply Sm. right. eauto.
Qed.

Lemma processar_todos_eventos_all_or_nothing_witness :
  pass_records (env_of ConnectionError) cfg_pc1 (init cfg_pc1 None)
    unreadable_history <> [] /\
  py_range
    (Z.of_nat
       (length
          (pass_records (env_of ConnectionError) cfg_pc1 (init cfg_pc1 None)
             unreadable_history)))
    (batch_size cfg_pc1) = Done [0] /\
  exists failed sent,
    send_batches (env_of ConnectionError) cfg_pc1
      (map to_wire
         (pass_records (env_of ConnectionError) cfg_pc1 (init cfg_pc1 None)
            unreadable_history))
      [0] (init cfg_pc1 None)
    = (Done failed, sent).
Proof.
  assert (H1 : pass_records (env_of ConnectionError) cfg_pc1
                 (init cfg_pc1 None) unreadable_history <> [])
    by (vm_compute; discriminate).
  assert (H2 : py_range
                 (Z.of_nat
                    (length
                       (pass_records (env_of ConnectionError) cfg_pc1
                          (init cfg_pc1 None) unreadable_history)))
                 (batch_size cfg_pc1) = Done [0])
    by (vm_compute; reflexivity).
  split; [exact H1|]. split; [exact H2|].
  destruct (processar_todos_eventos_all_or_nothing (env_of ConnectionError)
              cfg_pc1 unreadable_history (init cfg_pc1 None) [0] H1 H2)
    as (failed & sent & E & _).
  exists failed, sent. exact E.
Defined.

Lemma send_events_batch_frame env cfg events st r sent :
  send_events_batch env cfg events st = (r, sent) ->
  exists seg,
    sent = with_trace (trace st ++ seg) st /\
    forall a, a ∈ seg ->
      (exists i, a = Post (slice i (i + batch_size cfg) (map to_wire events)))
      \/ (exists s, a = Sleep s).
Proof.
  unfold send_events_batch. intros E.
  assert (N : exists seg : list action,
             st = with_trace (trace st ++ seg) st /\
             forall a, a ∈ seg ->
               (exists i, a = Post (slice i (i + batch_size cfg)
                                      (map to_wire events)))
               \/ (exists s, a = Sleep s)).
  { exists []. rewrite app_nil_r, with_trace_same. split; [reflexivity|].
    intros a H. inversion H. }
  destruct events as [|d events].
  - unfold ret in E. injection E as _ <-. exact N.
  - destruct (py_range _ _) as [starts|x].
    + destruct (send_batches_run env cfg (map to_wire (d :: events)) starts st)
        as (failed & seg & E' & Hseg).
      rewrite (bind_done _ _ _ _ _ E') in E. unfold ret in E.
      injection E as _ <-. eauto.
    + unfold raise in E. injection E as _ <-. exact N.
Qed.

Lemma slice_elem {A : Type} (i j : Z) (l : list A) x :
  x ∈ slice i j l -> x ∈ l.
Proof.
  unfold slice. intros H.
  eapply elem_of_sublist; [exact H|].
  etransitivity; [apply sublist_take | apply sublist_drop].
Qed.

Lemma eventos_nao_processados_elem cfg ids raws e :
  e ∈ eventos_nao_processados cfg ids raws <-> e ∈ raws /\ raw_id cfg e ∉ ids.
Proof.
  unfold eventos_nao_processados.
  rewrite !list_elem_of_In, filter_In, negb_true_iff, bool_decide_eq_false.
  reflexivity.
Qed.

(** C10.  In a catch-up pass whose delivery succeeds, a raw event whose
    extraction raised is marked with the others: its identity is in the
    set that is saved; unless the save had to prune a set of more than
    50000 it stays in the processed set and is in the file on disk, so
    no later pass and no poll takes the event up again; and every record
    that the pass transmitted was extracted from another event. *)
Theorem processar_todos_eventos_marks_unextracted env cfg eventos_raw st e
    sent :
  e ∈ eventos_raw ->
  raw_id cfg e ∉ eventos_processados st ->
  extrair_dados_evento (clock env) (machine_name cfg) e = None ->
  pass_records env cfg st eventos_raw <> [] ->
  send_events_batch env cfg (pass_records env cfg st eventos_raw) st
  = (Done true, sent) ->
  exists marked final,
    for_each (pass_events cfg st eventos_raw) (mark_raw cfg) sent
    = (Done tt, marked) /\
    salvar_eventos_processados env marked = (Done tt, final) /\
    processar_todos_eventos env cfg eventos_raw st = (Done tt, final) /\
    raw_id cfg e ∈ eventos_processados marked /\
    (Z.of_nat (size (eventos_processados marked)) <= 50000 ->
     raw_id cfg e ∈ eventos_processados final /\
     (forall initial,
        exists file, disk initial (trace final) = Some file /\
                     JStr (raw_id cfg e) ∈ processed_ids file) /\
     (forall later,
        e ∉ eventos_nao_processados cfg (eventos_processados final) later) /\
     accepts cfg final e = false) /\
    exists seg,
      trace final = trace st ++ seg /\
      forall body w, Post body ∈ seg -> w ∈ body ->
        exists e' d,
          e' ∈ pass_events cfg st eventos_raw /\ e' <> e /\
          extrair_dados_evento (clock env) (machine_name cfg) e' = Some d /\
          w = to_wire d.
Proof.
  unfold pass_records, pass_events.
  set (nao := eventos_nao_processados cfg (eventos_processados st) eventos_raw).
  set (extraidos := extrair_todos env cfg nao).
  intros Hin Hnew Hnone Hne B.
  pose proof (processar_todos_eventos_unfold env cfg eventos_raw st Hne) as U.
  fold nao in U. fold extraidos in U.
  rewrite (bind_done _ _ _ _ _ B) in U.
  destruct (send_events_batch_frame _ _ _ _ _ _ B) as (seg & -> & Hseg).
  destruct (mark_all_run cfg nao (with_trace (trace st ++ seg) st))
    as (marked & Em & Sm & _ & _ & Tm).
  destruct (salvar_eventos_processados_run env marked) as (final & Es & Ef).
  rewrite (bind_done _ _ _ _ _ Em) in U.
  assert (Hmarked : raw_id cfg e ∈ eventos_processados marked).
  { apply Sm. right. exists e. split; [|reflexivity].
    apply eventos_nao_processados_elem. auto. }
  exists marked, (with_trace (trace marked ++ [Save (state_file env final)]) final).
  split; [exact Em|]. split; [exact Es|]. split; [now rewrite U|].
  split; [exact Hmarked|]. split.
  - intros Hsz.
    replace (50000 <? Z.of_nat (size (eventos_processados marked))) with false
      in Ef by (symmetry; apply Z.ltb_ge; lia).
    subst final. cbn [eventos_processados with_trace].
    split; [exact Hmarked|]. split; [|split].
    + intros initial. exists (state_file env marked).
      cbn [trace with_trace]. rewrite disk_app. cbn [disk].
      split; [reflexivity | now apply state_file_ids].
    + intros later H. apply eventos_nao_processados_elem in H as [_ H].
      now apply H.
    + unfold accepts. cbn [eventos_processados with_trace].
      now rewrite bool_decide_eq_true_2.
  - exists (seg ++ [Save (state_file env final)]). split.
    { cbn [trace with_trace].
      replace (trace final) with (trace marked)
        by (rewrite Ef; destruct (_ <? _); reflexivity).
      rewrite Tm. cbn [trace with_trace]. now rewrite app_assoc. }
    intros body w Hb Hw. apply elem_of_app in Hb as [Hb | Hb].
    + destruct (Hseg _ Hb) as [[i [= ->]] | [s [=]]].
      apply slice_elem in Hw.
      apply list_elem_of_In, in_map_iff in Hw as (d & <- & Hd).
      apply list_elem_of_In in Hd. unfold extraidos, extrair_todos in Hd.
      apply list_elem_of_omap in Hd as (e' & He' & Hx).
      exists e', d. split; [exact He'|]. split; [congruence|]. auto.
    + apply list_elem_of_singleton in Hb. discriminate.
Qed.

(** C8: the code falls short of the claim.  On [PC1], with nothing
    processed, the log holds event 5 and event 9 whose message is null;
    the collector accepts the one request, which carries event 5 alone;
    the pass then marks both events and the high-water mark becomes 9,
    the number of an event that was never delivered. *)
Theorem highest_record_id_of_unsent_event :
  highest_record_id (init cfg_pc1 None) = 0 /\
  extrair_dados_evento (clock (env_of (Response 200 JsonObject))) "PC1"
    (raw 9 "PC1" MNull) = None /\
  List.filter is_post (trace unreadable_run) = [Post [one_record]] /\
  highest_record_id unreadable_run = 9.
Proof. vm_compute. repeat split. Qed.

(** C1: the code falls short of the claim.  On [PC1], with nothing
    processed and the collector unreachable, one poll finds event 1; the
    delivery fails in the loop and again after the interruption; the
    final save writes the identity [PC1_1] to the file although no
    request was ever accepted. *)
Theorem unconfirmed_identity_saved :
  (forall n, accepted (collector (env_of ConnectionError) n) = false) /\
  processed_ids <$> disk None (trace offline_run) = Some [JStr "PC1_1"].
Proof. split; [intros n; reflexivity | vm_compute; reflexivity]. Qed.

(** ** Polling loop *)

Lemma append_inj_r (s a b : string) : s +:+ a = s +:+ b -> a = b.
Proof. induction s as [|c s IH]; simpl; [auto | intros [= H]; auto]. Qed.

Lemma own_id_eq cfg a b :
  criar_id_unico cfg a None = criar_id_unico cfg b None -> a = b.
Proof.
  unfold criar_id_unico. intros H.
  apply append_inj_r in H. simpl in H. injection H as H.
  now apply str_of_int_inj.
Qed.

Lemma raw_id_own cfg e rid :
  raw_machine cfg e = machine_name cfg -> RecordId e = Some rid ->
  raw_id cfg e = criar_id_unico cfg rid None.
Proof.
  unfold raw_id, raw_record_id, criar_id_unico. intros -> ->. simpl.
  now destruct (machine_name cfg).
Qed.

Lemma accepts_spec cfg st e :
  0 <= highest_record_id st ->
  accepts cfg st e = true ->
  exists rid,
    RecordId e = Some rid /\ (raw_id cfg e ∉ eventos_processados st) /\
    raw_machine cfg e = machine_name cfg /\ highest_record_id st < rid.
Proof.
  unfold accepts. intros Hh H.
  apply andb_true_iff in H as [H Hgt]. apply andb_true_iff in H as [Hid Hm].
  apply negb_true_iff, bool_decide_eq_false in Hid.
  apply String.eqb_eq in Hm. apply Z.ltb_lt in Hgt.
  unfold raw_record_id in Hgt.
  destruct (RecordId e) as [rid|] eqn:R; simpl in Hgt; [|lia].
  exists rid. auto.
Qed.

Lemma accepted_from_weaken env cfg st st1 raws raws' ev :
  accepted_from env cfg st1 raws ev ->
  eventos_processados st ⊆ eventos_processados st1 ->
  highest_record_id st1 = highest_record_id st ->
  (forall e, e ∈ raws -> e ∈ raws') ->
  accepted_from env cfg st raws' ev.
Proof.
  intros (e & rid & He & Hx & Hr & Hd & Hid & Hm & Hh) Hsub Hhigh Hin.
  exists e, rid. split; [auto|]. split; [exact Hx|]. split; [exact Hr|].
  split; [exact Hd|]. split; [intros H; apply Hid, Hsub, H|].
  split; [exact Hm | lia].
Qed.

Lemma buffered_ok_mono cfg st st' ev :
  buffered_ok cfg st ev ->
  eventos_processados st ⊆ eventos_processados st' ->
  buffered_ok cfg st' ev.
Proof. intros (rid & H1 & H2) Hsub. exists rid. split; auto. Qed.

Lemma collect_run env cfg : forall raws novos st,
  0 <= highest_record_id st ->
  exists added st',
    collect env cfg raws novos st = (Done (novos ++ added), st') /\
    highest_record_id st' = highest_record_id st /\
    eventos_buffer st' = eventos_buffer st /\
    trace st' = trace st /\
    eventos_processados st ⊆ eventos_processados st' /\
    Forall (accepted_from env cfg st raws) added /\
    Forall (buffered_ok cfg st') added /\
    NoDup (record_id <$> added).
Proof.
  induction raws as [|e rest IH]; intros novos st Hh.
  - exists [], st. simpl. unfold ret. rewrite app_nil_r.
    repeat split; auto; constructor.
  - cbn [collect]. unfold bind at 1, ask, id.
    assert (Hrest : forall x, x ∈ rest -> x ∈ e :: rest) by (intros; now right).
    destruct (accepts cfg st e) eqn:A.
    + destruct (accepts_spec cfg st e Hh A) as (rid & Hr & Hid & Hm & Hgt).
      destruct (extrair_dados_evento _ _ e) as [ev|] eqn:X.
      * unfold bind at 1, add_processado, update.
        set (st1 := with_processados _ st).
        destruct (IH (novos ++ [ev]) st1 Hh)
          as (added & st' & E & H1 & H2 & H3 & H4 & H5 & H6 & H7).
        assert (Hsub : eventos_processados st ⊆ eventos_processados st1).
        { subst st1. cbn. set_solver. }
        assert (Hrec : record_id ev = Some rid).
        { apply extrair_dados_evento_inv in X as (_ & _ & _ & -> & _).
          exact Hr. }
        assert (Hown : criar_id_unico cfg rid None ∈ eventos_processados st1).
        { rewrite <- (raw_id_own cfg e rid Hm Hr). subst st1. cbn. set_solver. }
        exists (ev :: added), st'. rewrite E, <- app_assoc.
        split; [reflexivity|]. split; [exact H1|]. split; [exact H2|].
        split; [exact H3|]. split; [intros x Hx; apply H4, Hsub, Hx|].
        split; [|split].
        -- constructor.
           ++ exists e, rid. repeat split; auto. now left.
           ++ eapply Forall_impl; [exact H5|]. intros ev' Hev'.
              eapply accepted_from_weaken; eauto.
        -- constructor; [|exact H6]. exists rid. split; [exact Hrec|].
           now apply H4.
        -- rewrite fmap_cons. constructor; [|exact H7].
           intros Hin. apply list_elem_of_fmap in Hin as (ev' & Heq & Hev').
           rewrite Forall_forall in H5.
           destruct (H5 ev' Hev')
             as (e' & rid' & _ & _ & Hr' & Hd' & Hid' & Hm' & _).
           rewrite Hrec, Hd' in Heq. injection Heq as ->.
           apply Hid'. now rewrite (raw_id_own cfg e' rid' Hm' Hr').
      * destruct (IH novos st Hh)
          as (added & st' & E & H1 & H2 & H3 & H4 & H5 & H6 & H7).
        exists added, st'. repeat split; auto.
        eapply Forall_impl; [exact H5|]. intros ev' Hev'.
        eapply accepted_from_weaken; eauto.
    + destruct (IH novos st Hh)
        as (added & st' & E & H1 & H2 & H3 & H4 & H5 & H6 & H7).
      exists added, st'. repeat split; auto.
      eapply Forall_impl; [exact H5|]. intros ev' Hev'.
      eapply accepted_from_weaken; eauto.
Qed.

Lemma confirm_all_run cfg : forall l st,
  Forall (fun ev => is_Some (record_id ev)) l ->
  exists st',
    for_each l (confirm_buffered cfg) st = (Done tt, st') /\
    eventos_buffer st' = eventos_buffer st /\
    trace st' = trace st /\
    highest_record_id st <= highest_record_id st' /\
    forall ev rid, ev ∈ l -> record_id ev = Some rid ->
                   rid <= highest_record_id st'.
Proof.
  induction l as [|ev l IH]; intros st Hl.
  - exists st. simpl. unfold ret. repeat split; try lia.
    intros ev rid H. inversion H.
  - apply Forall_cons in Hl as [[rid Hr] Hl].
    cbn [for_each]. unfold bind at 1, confirm_buffered.
    unfold bind at 1, add_processado, update. rewrite Hr.
    unfold raise_highest, update.
    set (st1 := if _ <? rid then _ else _).
    assert (H1 : eventos_buffer st1 = eventos_buffer st
                 /\ trace st1 = trace st
                 /\ highest_record_id st <= highest_record_id st1
                 /\ rid <= highest_record_id st1).
    { subst st1. destruct (_ <? rid) eqn:C; cbn in *; repeat split; lia. }
    destruct H1 as (B1 & T1 & M1 & R1).
    destruct (IH st1 Hl) as (st' & E & B & T & M & R).
    exists st'. split; [exact E|]. split; [congruence|]. split; [congruence|].
    split; [lia|]. intros ev' rid' Hin Hr'.
    apply elem_of_cons in Hin as [-> | Hin]; [|eauto].
    rewrite Hr in Hr'. injection Hr' as <-. lia.
Qed.

Lemma steady_frame cfg st st' :
  steady cfg st ->
  eventos_processados st ⊆ eventos_processados st' ->
  0 <= highest_record_id st' ->
  eventos_buffer st' = eventos_buffer st ->
  steady cfg st'.
Proof.
  intros (_ & F & N) Hsub Hh Hb. unfold steady. rewrite Hb.
  split; [exact Hh|]. split; [|exact N].
  eapply Forall_impl; [exact F|]. intros ev Hev.
  eapply buffered_ok_mono; eauto.
Qed.

Lemma steady_empty cfg st :
  0 <= highest_record_id st -> eventos_buffer st = [] -> steady cfg st.
Proof.
  intros Hh Hb. unfold steady. rewrite Hb. split; [exact Hh|].
  split; constructor.
Qed.

Lemma deliver_buffer_run env cfg st :
  steady cfg st ->
  exists st' seg,
    deliver_buffer env cfg st = (Done tt, st') /\
    trace st' = trace st ++ seg /\
    (forall body, Post body ∈ seg -> body = map to_wire (eventos_buffer st)) /\
    steady cfg st' /\
    (forall ev, ev ∈ eventos_buffer st ->
                exists rid, record_id ev = Some rid /\ settled cfg st' rid).
Proof.
  intros Hst. pose proof Hst as (Hh & F & N).
  unfold deliver_buffer, bind at 1, ask.
  destruct (eventos_buffer st) as [|ev0 buffer] eqn:Hb.
  - exists st, []. unfold ret. rewrite app_nil_r.
    split; [reflexivity|]. split; [reflexivity|].
    split; [intros body H; inversion H|]. split; [exact Hst|].
    intros ev H. inversion H.
  - set (buf := ev0 :: buffer) in *.
    destruct (send_events_run env cfg (map to_wire buf) st)
      as (ok & seg1 & E1 & H1).
    rewrite (bind_done _ _ _ _ _ E1).
    set (s1 := with_trace (trace st ++ seg1) st).
    assert (Hposts : forall body, Post body ∈ seg1 -> body = map to_wire buf).
    { intros body Hin. destruct (H1 _ Hin) as [[= ->] | [=]]. reflexivity. }
    destruct ok.
    + assert (Hsome : Forall (fun ev => is_Some (record_id ev)) buf).
      { eapply Forall_impl; [exact F|]. intros ev (rid & -> & _). eauto. }
      destruct (confirm_all_run cfg buf s1 Hsome) as (s2 & E2 & B2 & T2 & M2 & R2).
      rewrite (bind_done _ _ _ _ _ E2).
      unfold bind at 1, update.
      destruct (salvar_eventos_processados_run env (with_buffer [] s2))
        as (s3 & E3 & Hs3).
      rewrite E3.
      assert (P3 : highest_record_id s3 = highest_record_id s2
                   /\ eventos_buffer s3 = [] /\ trace s3 = trace s2).
      { rewrite Hs3. destruct (_ <? _); repeat split; reflexivity. }
      destruct P3 as (Hh3 & Hb3 & Ht3).
      eexists _, (seg1 ++ [Save (state_file env s3)]).
      split; [reflexivity|]. cbn [trace with_trace with_buffer].
      split; [rewrite T2; subst s1; cbn [trace with_trace];
              now rewrite app_assoc|].
      split.
      { intros body Hin. apply elem_of_app in Hin as [Hin | Hin]; [auto|].
        apply list_elem_of_singleton in Hin. discriminate. }
      split.
      { apply steady_empty; cbn; [|exact Hb3].
        rewrite Hh3. subst s1. cbn in M2. lia. }
      intros ev Hin. rewrite Forall_forall in F.
      destruct (F ev Hin) as (rid & Hr & _). exists rid. split; [exact Hr|].
      right. cbn. rewrite Hh3. eauto.
    + exists (if 1000 <? Z.of_nat (length buf)
              then with_buffer (last_n 500 buf) s1 else s1), seg1.
      split; [destruct (_ <? _); reflexivity|].
      split; [destruct (_ <? _); reflexivity|].
      split; [exact Hposts|]. split.
      * destruct (_ <? _); [|eapply steady_frame; eauto; subst s1; cbn; lia].
        unfold steady. cbn. split; [exact Hh|]. unfold last_n. split.
        -- apply Forall_drop. exact F.
        -- rewrite fmap_drop.
           exact (sublist_NoDup _ _ N (sublist_drop _ _)).
      * intros ev Hin. rewrite Forall_forall in F.
        destruct (F ev Hin) as (rid & Hr & Hid). exists rid.
        split; [exact Hr|]. left. destruct (_ <? _); exact Hid.
Qed.

Lemma steady_trace cfg st t : steady cfg st -> steady cfg (with_trace t st).
Proof. intros H. exact H. Qed.

Lemma iteration_run env cfg raws st :
  steady cfg st ->
  exists novos collected st1 seg,
    collect env cfg raws [] st = (Done novos, collected) /\
    Forall (accepted_from env cfg st raws) novos /\
    NoDup (record_id <$> (eventos_buffer st ++ novos)) /\
    iteration env cfg raws st = (Done tt, st1) /\
    trace st1 = trace st ++ seg /\
    (forall body, Post body ∈ seg ->
                  body = map to_wire (eventos_buffer st ++ novos)) /\
    steady cfg st1 /\
    (forall ev, ev ∈ eventos_buffer st ++ novos ->
                exists rid, record_id ev = Some rid /\ settled cfg st1 rid).
Proof.
  intros Hst. pose proof Hst as (Hh & F & N).
  destruct (collect_run env cfg raws [] st Hh)
    as (novos & stc & E & H1 & H2 & H3 & H4 & H5 & H6 & H7).
  cbn [app] in E.
  set (stb := with_buffer (eventos_buffer st ++ novos) stc).
  assert (Eb : when (match novos with [] => false | _ => true end)
                 (update (fun s => with_buffer (eventos_buffer s ++ novos) s))
                 stc = (Done tt, stb)).
  { subst stb. destruct novos; unfold when, update, ret.
    - rewrite app_nil_r, <- H2. now destruct stc.
    - now rewrite H2. }
  assert (Hnd : NoDup (record_id <$> (eventos_buffer st ++ novos))).
  { rewrite fmap_app. apply NoDup_app. split; [exact N|]. split; [|exact H7].
    intros x Hx Hx'.
    apply list_elem_of_fmap in Hx as (ev & -> & Hev).
    apply list_elem_of_fmap in Hx' as (ev' & Heq & Hev').
    rewrite Forall_forall in F. destruct (F ev Hev) as (rid & Hr & Hid).
    rewrite Forall_forall in H5.
    destruct (H5 ev' Hev') as (e' & rid' & _ & _ & Hr' & Hd' & Hid' & Hm' & _).
    rewrite Hr, Hd' in Heq. injection Heq as ->.
    apply Hid'. now rewrite (raw_id_own cfg e' rid' Hm' Hr'). }
  assert (Hstb : steady cfg stb).
  { subst stb. unfold steady. cbn. split; [lia|]. split; [|exact Hnd].
    apply Forall_app. split; [|exact H6].
    eapply Forall_impl; [exact F|]. intros ev Hev.
    eapply buffered_ok_mono; eauto. }
  destruct (deliver_buffer_run env cfg stb Hstb)
    as (std & seg & Ed & Td & Pd & Sd & Hset).
  destruct (limpar_cache_same std) as [r El].
  set (pause := match r with
                | Done _ => check_interval cfg
                | Raised _ => retry_interval cfg
                end).
  exists novos, stc, (with_trace (trace std ++ [Sleep pause]) std),
    (seg ++ [Sleep pause]).
  split; [exact E|]. split; [exact H5|]. split; [exact Hnd|]. split.
  { unfold iteration, tick.
    rewrite (bind_done _ _ _ _ _ E), (bind_done _ _ _ _ _ Eb),
      (bind_done _ _ _ _ _ Ed).
    subst pause. destruct r as [[]|x].
    - now rewrite (bind_done _ _ _ _ _ El).
    - now rewrite (bind_raised _ _ _ _ _ El). }
  split.
  { cbn [trace with_trace]. rewrite Td. subst stb. cbn [trace with_buffer].
    now rewrite H3, app_assoc. }
  split.
  { intros body Hin. apply elem_of_app in Hin as [Hin | Hin].
    - apply Pd in Hin. exact Hin.
    - apply list_elem_of_singleton in Hin. discriminate. }
  split; [exact Sd|]. exact Hset.
Qed.

(** C4.  In an iteration of the loop that starts in a state the loop
    maintains: every record that the iteration adds to the buffer was
    extracted from a raw event whose identity was not in the processed
    set, that is of this machine and whose record number is above the
    high-water mark; the buffer then holds no record number twice, and
    every request of the iteration carries that buffer; the iteration
    ends, whether the delivery failed or not, in a state the loop
    maintains, in which no raw event with a record number that was in the
    buffer passes the three tests, so the next iteration does not buffer
    it again. *)
Theorem monitor_events_buffers_once env cfg raws st :
  steady cfg st ->
  exists novos collected st1 seg,
    collect env cfg raws [] st = (Done novos, collected) /\
    Forall (accepted_from env cfg st raws) novos /\
    NoDup (record_id <$> (eventos_buffer st ++ novos)) /\
    iteration env cfg raws st = (Done tt, st1) /\
    trace st1 = trace st ++ seg /\
    (forall body, Post body ∈ seg ->
                  body = map to_wire (eventos_buffer st ++ novos)) /\
    steady cfg st1 /\
    (forall next ev', accepted_from env cfg st1 next ev' ->
                      record_id ev' ∉ record_id <$> (eventos_buffer st ++ novos)).
Proof.
  intros Hst.
  destruct (iteration_run env cfg raws st Hst)
    as (novos & stc & st1 & seg & E & A & N & I & T & P & S & Hset).
  exists novos, stc, st1, seg. repeat (split; [assumption|]).
  intros next ev' (e' & rid' & _ & _ & Hr' & Hd' & Hid' & Hm' & Hgt') Hin.
  apply list_elem_of_fmap in Hin as (ev & Heq & Hev).
  destruct (Hset ev Hev) as (rid & Hr & [Hs | Hs]).
  - rewrite Hd', Hr in Heq. injection Heq as ->.
    apply Hid'. now rewrite (raw_id_own cfg e' rid Hm' Hr').
  - rewrite Hd', Hr in Heq. injection Heq as ->. lia.
Qed.

Lemma monitor_events_buffers_once_witness :
  steady cfg_pc1 (init cfg_pc1 None) /\
  exists novos collected st1 seg,
    collect (env_of ConnectionError) cfg_pc1 [raw 1 "PC1" (MStr report_msg)]
      [] (init cfg_pc1 None) = (Done novos, collected) /\
    Forall (accepted_from (env_of ConnectionError) cfg_pc1 (init cfg_pc1 None)
              [raw 1 "PC1" (MStr report_msg)]) novos /\
    NoDup (record_id <$> (eventos_buffer (init cfg_pc1 None) ++ novos)) /\
    iteration (env_of ConnectionError) cfg_pc1
      [raw 1 "PC1" (MStr report_msg)] (init cfg_pc1 None) = (Done tt, st1) /\
    trace st1 = trace (init cfg_pc1 None) ++ seg /\
    (forall body, Post body ∈ seg ->
       body = map to_wire (eventos_buffer (init cfg_pc1 None) ++ novos)) /\
    steady cfg_pc1 st1 /\
    (forall next ev',
       accepted_from (env_of ConnectionError) cfg_pc1 st1 next ev' ->
       record_id ev' ∉
         record_id <$> (eventos_buffer (init cfg_pc1 None) ++ novos)).
Proof.
  assert (H : steady cfg_pc1 (init cfg_pc1 None)).
  { split; [vm_compute; discriminate | split; constructor]. }
  split; [exact H|].
  exact (monitor_events_buffers_once (env_of ConnectionError) cfg_pc1
           [raw 1 "PC1" (MStr report_msg)] (init cfg_pc1 None) H).
Defined.

(** ** The states of the loop are steady *)

Lemma init_highest_nonneg cfg file : 0 <= highest_record_id (init cfg file).
Proof.
  unfold init. cbn [highest_record_id].
  induction (elements (carregar_eventos_processados cfg file)) as [|id l IH];
    simpl; [lia|].
  destruct (own_record_id cfg id); lia.
Qed.

Lemma processar_todos_eventos_nothing env cfg eventos_raw st :
  pass_records env cfg st eventos_raw = [] ->
  processar_todos_eventos env cfg eventos_raw st = (Done tt, st).
Proof.
  unfold pass_records, pass_events, processar_todos_eventos. intros H.
  destruct eventos_raw as [|e0 raws]; [reflexivity|].
  unfold bind at 1, ask.
  remember (eventos_nao_processados cfg (eventos_processados st) (e0 :: raws))
    as nao eqn:N.
  destruct nao as [|e1 nao]; [reflexivity|]. now rewrite H.
Qed.

Lemma processar_todos_eventos_highest env cfg eventos_raw st r st' :
  processar_todos_eventos env cfg eventos_raw st = (r, st') ->
  highest_record_id st <= highest_record_id st'.
Proof.
  destruct (pass_records env cfg st eventos_raw) as [|d ds] eqn:X.
  - rewrite (processar_todos_eventos_nothing _ _ _ _ X).
    intros [= _ <-]. lia.
  - assert (Hne : pass_records env cfg st eventos_raw <> []) by congruence.
    rewrite (processar_todos_eventos_unfold env cfg eventos_raw st Hne).
    destruct (send_events_batch env cfg
                (extrair_todos env cfg
                   (eventos_nao_processados cfg (eventos_processados st)
                      eventos_raw)) st) as [[ok|x] sent] eqn:B.
    + destruct (send_events_batch_frame _ _ _ _ _ _ B) as (seg & -> & _).
      rewrite (bind_done _ _ _ _ _ B). destruct ok.
      * destruct (mark_all_run cfg
                    (eventos_nao_processados cfg (eventos_processados st)
                       eventos_raw)
                    (with_trace (trace st ++ seg) st))
          as (marked & Em & _ & Hm & _ & _).
        destruct (salvar_eventos_processados_run env marked)
          as (final & Es & Ef).
        rewrite (bind_done _ _ _ _ _ Em), Es. intros [= _ <-].
        cbn [highest_record_id with_trace] in *.
        rewrite Ef. destruct (_ <? _); cbn; lia.
      * unfold ret. intros [= _ <-]. cbn. lia.
    + destruct (send_events_batch_frame _ _ _ _ _ _ B) as (seg & -> & _).
      rewrite (bind_raised _ _ _ _ _ B). intros [= _ <-]. cbn. lia.
Qed.

Lemma startup_steady env cfg history st st' :
  0 <= highest_record_id st ->
  startup env cfg history st = (Done tt, st') -> steady cfg st'.
Proof.
  unfold startup, when. intros Hh.
  destruct (process_all_on_start cfg).
  - destruct (processar_todos_eventos env cfg history st) as [[[]|x] st1] eqn:P.
    + rewrite (bind_done _ _ _ _ _ P). unfold update. intros [= <-].
      apply steady_empty; [|reflexivity]. cbn.
      apply processar_todos_eventos_highest in P. lia.
    + rewrite (bind_raised _ _ _ _ _ P). discriminate.
  - unfold bind, ret, update. intros [= <-].
    apply steady_empty; [exact Hh | reflexivity].
Qed.

Lemma polling_steady env cfg : forall polls st,
  steady cfg st ->
  exists st',
    for_each polls (iteration env cfg) st = (Done tt, st') /\ steady cfg st'.
Proof.
  induction polls as [|raws polls IH]; intros st Hst.
  - exists st. split; [reflexivity | exact Hst].
  - destruct (iteration_run env cfg raws st Hst)
      as (_ & _ & st1 & _ & _ & _ & _ & I & _ & _ & S1 & _).
    destruct (IH st1 S1) as (st' & E & S').
    exists st'. cbn [for_each]. rewrite (bind_done _ _ _ _ _ I). auto.
Qed.

(** Every iteration of the loop of [monitor_events] starts in a steady
    state, whatever the state file, the history and the polls. *)
Lemma monitor_events_steady env cfg file history polls st1 :
  startup env cfg history (init cfg file) = (Done tt, st1) ->
  exists st2,
    for_each polls (iteration env cfg) st1 = (Done tt, st2) /\
    steady cfg st2.
Proof.
  intros H. apply polling_steady.
  eapply startup_steady; [apply init_highest_nonneg | exact H].
Qed.

Lemma processar_todos_eventos_marks_unextracted_witness :
  raw 9 "PC1" MNull ∈ unreadable_history /\
  (raw_id cfg_pc1 (raw 9 "PC1" MNull)
     ∉ eventos_processados (init cfg_pc1 None)) /\
  extrair_dados_evento (clock (env_of (Response 200 JsonObject)))
    (machine_name cfg_pc1) (raw 9 "PC1" MNull) = None /\
  exists marked final,
    processar_todos_eventos (env_of (Response 200 JsonObject)) cfg_pc1
      unreadable_history (init cfg_pc1 None) = (Done tt, final) /\
    raw_id cfg_pc1 (raw 9 "PC1" MNull) ∈ eventos_processados marked.
Proof.
  assert (H1 : raw 9 "PC1" MNull ∈ unreadable_history)
    by (right; left).
  assert (H2 : raw_id cfg_pc1 (raw 9 "PC1" MNull)
               ∉ eventos_processados (init cfg_pc1 None))
    by (simpl; apply not_elem_of_empty).
  assert (H3 : extrair_dados_evento (clock (env_of (Response 200 JsonObject)))
                 (machine_name cfg_pc1) (raw 9 "PC1" MNull) = None)
    by reflexivity.
  assert (H4 : pass_records (env_of (Response 200 JsonObject)) cfg_pc1
                 (init cfg_pc1 None) unreadable_history <> [])
    by (vm_compute; discriminate).
  assert (H5 : send_events_batch (env_of (Response 200 JsonObject)) cfg_pc1
                 (pass_records (env_of (Response 200 JsonObject)) cfg_pc1
                    (init cfg_pc1 None) unreadable_history)
                 (init cfg_pc1 None)
               = (Done true,
                  with_trace [Post [one_record]] (init cfg_pc1 None)))
    by (vm_compute; reflexivity).
  split; [exact H1|]. split; [exact H2|]. split; [exact H3|].
  destruct (processar_todos_eventos_marks_unextracted _ _ _ _ _ _
              H1 H2 H3 H4 H5)
    as (marked & final & _ & _ & P & Hm & _).
  exists marked, final. split; [exact P | exact Hm].
Defined.

(** ** The model on examples *)

Example search_word_boundary :
  group1 en_pages_3 "12 pagesx 4 page" = Some "4" /\
  group1 en_pages_3 "12 page_ 4 PAGES." = Some "4" /\
  group1 en_pages_3 "12pages" = None.
Proof. vm_compute. repeat split. Qed.

Example search_printer :
  group1 en_printer "was printed on HP  via USB" = Some "HP" /\
  group1 en_printer ("was printed on HP" +:+ newline) = Some "HP" /\
  group1 en_printer ("was printed on HP" +:+ newline +:+ "x") = None /\
  group1 en_printer "was printed on " = None.
Proof. vm_compute. repeat split. Qed.

Example search_size_and_count :
  group1 en_pages_4 "Size in bytes: 100. 12" = Some "12" /\
  group1 en_pages_4 ("Tamanho em bytes:5." +:+ Paginas_impressas +:+ "  33")
  = Some "33".
Proof. vm_compute. repeat split. Qed.

Example search_lazy_groups :
  (m ← re_search en_doc_user
         "Document 3,  a, b  owned by  x owned by y on z on";
   Some (Re.group 1 m, Re.group 2 m))
  = Some (Some (PyStr.chars " a, b "), Some (PyStr.chars " x owned by y")).
Proof. vm_compute. reflexivity. Qed.

Example int_of_str_examples :
  PyStr.int_of_str (PyStr.chars " -1_000 ") = Some (-1000) /\
  PyStr.int_of_str (PyStr.chars "007") = Some 7 /\
  PyStr.int_of_str (PyStr.chars "1__0") = None /\
  PyStr.int_of_str (PyStr.chars "PC_5") = None /\
  PyStr.int_of_str (PyStr.chars "") = None.
Proof. vm_compute. repeat split. Qed.

(** [int] skips [\xa0] and [\x85] around a number and refuses the
    separator [\x1f], which [str.strip] removes. *)
Example int_of_str_white_space :
  PyStr.int_of_str ["160"%char; "9"%char; "133"%char] = Some 9 /\
  PyStr.int_of_str ["031"%char; "9"%char] = None /\
  PyStr.strip ["031"%char; "9"%char] = ["9"%char].
Proof. vm_compute. repeat split. Qed.

(** The example of the specification, and a Portuguese message. *)
Example extrair_dados_evento_report :
  extrair_dados_evento "now" "PC1" report_event = Some report_record.
Proof. vm_compute. reflexivity. Qed.

Example extrair_dados_evento_relatorio :
  extrair_dados_evento "now" "PC1" (raw 12 "PC2" (MStr relatorio_msg))
  = Some {| record_id := Some 12; date := "2024-05-02 10:00:00";
            user := "maria"; machine := "PC2"; pages := 4;
            document := "Relat.pdf"; printer := "Ricoh" |}.
Proof. vm_compute. reflexivity. Qed.

(** A count of 1 from the language patterns sends the message through
    the generic scan as well, which may replace it. *)
Example extract_pages_one_then_generic :
  extract_pages "Pages printed: 1. Total: 7" = Some 7.
Proof. vm_compute. reflexivity. Qed.

(** A count out of range in the generic scan is passed over. *)
Example extract_pages_generic_passes_over :
  extract_pages "pages: 20000 total: 7" = Some 7.
Proof. vm_compute. reflexivity. Qed.

(** The high-water mark that the constructor computes from the file: the
    old format counts, other machines and malformed identities do not. *)
Example init_highest_record_id :
  highest_record_id
    (init cfg_pc1
       (Some {| processed_ids := [JInt 4; JStr "PC1_17"; JStr "PC2_99";
                                  JStr "PC1_x"];
                last_update := ""; highest_id_this_machine := 0;
                total_processed := 0; stats_by_machine := ∅ |}))
  = 17.
Proof. vm_compute. reflexivity. Qed.

(** * Further properties *)

(** ** [int(str(n))] *)

Lemma of_uint_acc_value d : forall acc,
  Z.pos (Pos.of_uint_acc d acc) = uint_value d (Z.pos acc).
Proof.
  induction d; intros acc; simpl; try reflexivity; rewrite IHd; f_equal; lia.
Qed.

Lemma of_uint_value d : Z.of_uint d = uint_value d 0.
Proof.
  unfold Z.of_uint.
  induction d; simpl; try reflexivity; try exact IHd;
    rewrite of_uint_acc_value; reflexivity.
Qed.

Lemma digits_body_uint d : forall b acc,
  d <> Decimal.Nil ->
  PyStr.digits_body b (PyStr.chars (NilEmpty.string_of_uint d)) acc
  = Some (uint_value d acc).
Proof.
  induction d; intros b acc Hd; try congruence;
    (destruct (Decimal.uint_eq_dec d Decimal.Nil) as [-> | Hn];
     [reflexivity | cbn; rewrite (IHd true _ Hn); reflexivity]).
Qed.

Lemma lstrip_no_space s :
  Forall (fun c => PyStr.is_int_space c = false) s -> PyStr.lstrip_int s = s.
Proof. destruct 1 as [|c s H _]; simpl; [reflexivity | now rewrite H]. Qed.

Lemma strip_no_space s :
  Forall (fun c => PyStr.is_int_space c = false) s -> PyStr.strip_int s = s.
Proof.
  intros H. unfold PyStr.strip_int. rewrite (lstrip_no_space s H).
  rewrite lstrip_no_space; [apply rev_involutive|].
  apply Forall_forall. intros c Hc. rewrite Forall_forall in H.
  apply H. apply list_elem_of_In. apply list_elem_of_In, in_rev in Hc.
  exact Hc.
Qed.

Lemma occurs_chars c s : c ∈ PyStr.chars s <-> occurs c s.
Proof.
  induction s as [|d s IH]; simpl.
  - split; [intros H; inversion H | tauto].
  - rewrite elem_of_cons, IH. reflexivity.
Qed.

Lemma str_of_int_no_space n :
  Forall (fun c => PyStr.is_int_space c = false) (PyStr.chars (PyStr.str_of_int n)).
Proof.
  apply Forall_forall. intros c Hc. apply occurs_chars in Hc.
  apply str_of_int_chars in Hc as [-> | Hc]; [reflexivity|].
  unfold PyStr.is_digit, PyStr.is_int_space, PyStr.between in *.
  apply andb_true_iff in Hc as [H1 H2].
  apply N.leb_le in H1. apply N.leb_le in H2.
  repeat (apply orb_false_iff; split);
    try (apply andb_false_iff; right; apply N.leb_gt; lia);
    apply N.eqb_neq; lia.
Qed.

Lemma uint_first_char d :
  d <> Decimal.Nil ->
  exists c s, PyStr.chars (NilEmpty.string_of_uint d) = c :: s /\
              PyStr.is_digit c = true.
Proof. destruct d; intros H; try congruence; simpl; eauto. Qed.

(** [int(str(n)) = n]. *)
Lemma int_of_str_of_int n :
  PyStr.int_of_str (PyStr.chars (PyStr.str_of_int n)) = Some n.
Proof.
  unfold PyStr.int_of_str. rewrite strip_no_space by apply str_of_int_no_space.
  unfold PyStr.str_of_int.
  pose proof (DecimalZ.of_to n) as E.
  destruct (Z.to_int n) as [d | d] eqn:T.
  - assert (Hd : d <> Decimal.Nil).
    { destruct n; simpl in T; try discriminate; injection T as <-;
        try discriminate; apply DecimalPos.Unsigned.to_uint_nonnil. }
    simpl NilEmpty.string_of_int.
    destruct (uint_first_char d Hd) as (c & s & Hs & Hc).
    pose proof (digits_body_uint d false 0 Hd) as B. rewrite Hs in *.
    assert (V : uint_value d 0 = n).
    { rewrite <- E. simpl. apply eq_sym, of_uint_value. }
    destruct c as [[] [] [] [] [] [] [] []]; try discriminate Hc;
      cbv beta iota; rewrite B, V; reflexivity.
  - assert (Hd : d <> Decimal.Nil).
    { destruct n; simpl in T; try discriminate. injection T as <-.
      apply DecimalPos.Unsigned.to_uint_nonnil. }
    simpl NilEmpty.string_of_int. cbn [PyStr.chars list_ascii_of_string].
    change (list_ascii_of_string (NilEmpty.string_of_uint d))
      with (PyStr.chars (NilEmpty.string_of_uint d)).
    rewrite (digits_body_uint d false 0 Hd). simpl. f_equal.
    rewrite <- E. simpl. now rewrite of_uint_value.
Qed.

(** ** Identities read back *)

Lemma chars_append a b : PyStr.chars (a +:+ b) = PyStr.chars a ++ PyStr.chars b.
Proof.
  induction a as [|c a IH]; simpl; [reflexivity|].
  unfold PyStr.chars in *. simpl. now rewrite IH.
Qed.

Lemma of_chars_chars s : PyStr.of_chars (PyStr.chars s) = s.
Proof. apply string_of_list_ascii_of_string. Qed.

Lemma starts_with_app p s : PyStr.starts_with p (p ++ s) = true.
Proof.
  induction p as [|c p IH]; simpl; [reflexivity|].
  now rewrite Ascii.eqb_refl, IH.
Qed.

Lemma split_first_app (h : string) t :
  ~ occurs "_"%char h ->
  PyStr.split_first "_" (PyStr.chars h ++ "_"%char :: t)
  = Some (PyStr.chars h, t).
Proof.
  induction h as [|c h IH]; intros Hn; [reflexivity|].
  cbn. destruct (Ascii.eqb_spec c "_") as [-> | Hc].
  - exfalso. apply Hn. now left.
  - change (list_ascii_of_string h) with (PyStr.chars h).
    rewrite IH; [reflexivity|]. intros H. apply Hn. now right.
Qed.

Lemma split_id_named (h t : string) :
  ~ occurs "_"%char h ->
  split_id (h +:+ "_" +:+ t) = Some (h, PyStr.chars t).
Proof.
  intros Hn. unfold split_id. rewrite chars_append.
  change (PyStr.chars ("_" +:+ t)) with ("_"%char :: PyStr.chars t).
  rewrite (split_first_app h _ Hn). simpl. now rewrite of_chars_chars.
Qed.

Lemma starts_with_other_chars (m h : string) t :
  ~ occurs "_"%char m -> ~ occurs "_"%char h ->
  PyStr.starts_with (PyStr.chars m ++ ["_"%char])
    (PyStr.chars h ++ "_"%char :: t) = true ->
  m = h.
Proof.
  unfold PyStr.chars.
  revert h. induction m as [|c m IH]; intros [|d h] Hm Hh; cbn -[Ascii.eqb].
  - reflexivity.
  - destruct (Ascii.eqb_spec "_" d) as [<- | _]; cbn; [|discriminate].
    exfalso. apply Hh. now left.
  - destruct (Ascii.eqb_spec c "_") as [-> | _]; cbn; [|discriminate].
    exfalso. apply Hm. now left.
  - destruct (Ascii.eqb_spec c d) as [-> | _]; cbn; [|discriminate].
    intros H. f_equal. apply IH; [| |exact H].
    + intros X. apply Hm. now right.
    + intros X. apply Hh. now right.
Qed.

Lemma starts_with_other (m h t : string) :
  ~ occurs "_"%char m -> ~ occurs "_"%char h ->
  PyStr.starts_with (PyStr.chars (m +:+ "_"))
    (PyStr.chars (h +:+ "_" +:+ t)) = true ->
  m = h.
Proof.
  intros Hm Hh. rewrite !chars_append.
  apply starts_with_other_chars; assumption.
Qed.

Lemma criar_id_unico_own cfg n :
  criar_id_unico cfg n None = machine_name cfg +:+ "_" +:+ PyStr.str_of_int n.
Proof. reflexivity. Qed.

Lemma own_record_id_criar_id_unico_aux cfg n :
  ~ occurs "_"%char (machine_name cfg) ->
  own_record_id cfg (criar_id_unico cfg n None) = Some n.
Proof.
  intros Hm. rewrite criar_id_unico_own.
  assert (S : PyStr.starts_with (PyStr.chars (machine_name cfg +:+ "_"))
                (PyStr.chars (machine_name cfg +:+ "_" +:+ PyStr.str_of_int n))
              = true).
  { rewrite (chars_append (machine_name cfg) ("_" +:+ _)),
      (chars_append "_" _), (chars_append (machine_name cfg) "_"), app_assoc.
    apply starts_with_app. }
  unfold own_record_id. rewrite S, (split_id_named _ _ Hm). simpl.
  apply int_of_str_of_int.
Qed.

(** X1.  On a machine whose name has no underscore, the constructor
    reads back from an identity of this machine the record number it was
    made from, and reads nothing from the identity of another machine
    whose name has no underscore either. *)
Theorem own_record_id_criar_id_unico cfg n :
  ~ occurs "_"%char (machine_name cfg) ->
  own_record_id cfg (criar_id_unico cfg n None) = Some n /\
  (forall h, h <> "" -> ~ occurs "_"%char h -> h <> machine_name cfg ->
             own_record_id cfg (criar_id_unico cfg n (Some h)) = None).
Proof.
  intros Hm. split; [now apply own_record_id_criar_id_unico_aux|].
  intros h Hne Hh Hdiff. rewrite (criar_id_unico_named cfg n h Hne).
  unfold own_record_id.
  destruct (PyStr.starts_with _ _) eqn:S; [|reflexivity].
  apply starts_with_other in S; [congruence | assumption | assumption].
Qed.

Lemma own_record_id_criar_id_unico_witness :
  ~ occurs "_"%char (machine_name cfg_pc1) /\
  own_record_id cfg_pc1 (criar_id_unico cfg_pc1 42 None) = Some 42.
Proof.
  assert (H : ~ occurs "_"%char (machine_name cfg_pc1)).
  { simpl. intros [H | [H | [H | []]]]; discriminate. }
  split; [exact H|].
  exact (proj1 (own_record_id_criar_id_unico cfg_pc1 42 H)).
Defined.

(** ** The state file *)

Lemma carregar_state_file env cfg st :
  carregar_eventos_processados cfg (Some (state_file env st))
  = eventos_processados st.
Proof.
  unfold carregar_eventos_processados, state_file. cbn [processed_ids].
  replace (map _ (JStr <$> elements (eventos_processados st)))
    with (elements (eventos_processados st)).
  - apply list_to_set_elements_L.
  - induction (elements (eventos_processados st)) as [|x l IH];
      [reflexivity|]. cbn. now rewrite <- IH.
Qed.

(** X2.  What a save writes, a restart reads back: the processed set of
    an agent constructed from the file on disk after
    [salvar_eventos_processados] is the processed set the save left in
    memory. *)
Theorem init_after_salvar env cfg st initial :
  exists st',
    salvar_eventos_processados env st = (Done tt, st') /\
    eventos_processados (init cfg (disk initial (trace st')))
    = eventos_processados st'.
Proof.
  destruct (salvar_eventos_processados_run env st) as (st' & E & _).
  eexists. split; [exact E|].
  cbn [trace with_trace]. rewrite disk_app. cbn [disk].
  unfold init. cbn [eventos_processados with_trace].
  apply carregar_state_file.
Qed.

Lemma max_fold_bounds {A : Type} (f : A -> option Z) (l : list A) :
  let h := foldr (fun x h => match f x with
                             | Some n => Z.max h n
                             | None => h
                             end) 0 l in
  0 <= h /\
  (forall x n, x ∈ l -> f x = Some n -> n <= h) /\
  (h = 0 \/ exists x, x ∈ l /\ f x = Some h).
Proof.
  induction l as [|x l (IH0 & IH1 & IH2)]; simpl.
  - split; [lia|]. split; [|now left]. intros x n H. inversion H.
  - set (h := foldr _ 0 l) in *.
    destruct (f x) as [k|] eqn:F.
    + split; [lia|]. split.
      * intros y n Hy Fy. apply elem_of_cons in Hy as [-> | Hy].
        -- rewrite F in Fy. injection Fy as <-. lia.
        -- specialize (IH1 y n Hy Fy). lia.
      * destruct (Z.max_spec h k) as [[_ ->] | [_ ->]].
        -- right. exists x. split; [now left | exact F].
        -- destruct IH2 as [-> | (y & Hy & Fy)]; [now left|].
           right. exists y. split; [now right | exact Fy].
    + split; [exact IH0|]. split.
      * intros y n Hy Fy. apply elem_of_cons in Hy as [-> | Hy];
          [congruence | eauto].
      * destruct IH2 as [-> | (y & Hy & Fy)]; [now left|].
        right. exists y. split; [now right | exact Fy].
Qed.

(** X3.  The high-water mark that the constructor computes is never
    negative; it is at least every record number that it reads from a
    loaded identity of this machine; and it is 0 or the record number of
    one of them. *)
Theorem init_highest_record_id_max cfg file :
  0 <= highest_record_id (init cfg file) /\
  (forall id n, id ∈ eventos_processados (init cfg file) ->
                own_record_id cfg id = Some n ->
                n <= highest_record_id (init cfg file)) /\
  (highest_record_id (init cfg file) = 0 \/
   exists id, id ∈ eventos_processados (init cfg file) /\
              own_record_id cfg id = Some (highest_record_id (init cfg file))).
Proof.
  unfold init. cbn [highest_record_id eventos_processados].
  destruct (max_fold_bounds (own_record_id cfg)
              (elements (carregar_eventos_processados cfg file)))
    as (H0 & H1 & H2).
  split; [exact H0|]. split.
  - intros id n Hid. apply H1. now apply elem_of_elements.
  - destruct H2 as [H2 | (id & Hid & H2)]; [now left|].
    right. exists id. split; [now apply elem_of_elements | exact H2].
Qed.

(** X4.  On a machine whose name has no underscore, an entry of the
    state file for this machine, a bare integer [n] of the old format or
    the identity of [n] in the new one, is loaded as the identity of [n]
    on this machine, and the high-water mark of the constructor is at
    least [n]. *)
Theorem init_legacy_entry cfg f n :
  ~ occurs "_"%char (machine_name cfg) ->
  JInt n ∈ processed_ids f \/ JStr (criar_id_unico cfg n None) ∈ processed_ids f ->
  criar_id_unico cfg n None ∈ eventos_processados (init cfg (Some f)) /\
  n <= highest_record_id (init cfg (Some f)).
Proof.
  intros Hm Hin.
  assert (Hid : criar_id_unico cfg n None
                ∈ eventos_processados (init cfg (Some f))).
  { unfold init. cbn [eventos_processados carregar_eventos_processados].
    apply elem_of_list_to_set, list_elem_of_In, in_map_iff.
    destruct Hin as [Hin | Hin]; eexists; (split; [|apply list_elem_of_In, Hin]).
    - unfold criar_id_unico. reflexivity.
    - reflexivity. }
  split; [exact Hid|].
  destruct (max_fold_bounds (own_record_id cfg)
              (elements (carregar_eventos_processados cfg (Some f))))
    as (_ & H1 & _).
  apply (H1 (criar_id_unico cfg n None)).
  - apply elem_of_elements. exact Hid.
  - apply own_record_id_criar_id_unico_aux. exact Hm.
Qed.

Lemma init_legacy_entry_witness :
  ~ occurs "_"%char (machine_name cfg_pc1) /\
  (JInt 4 ∈ [JInt 4; JStr "PC2_99"] \/
   JStr (criar_id_unico cfg_pc1 4 None) ∈ [JInt 4; JStr "PC2_99"]) /\
  criar_id_unico cfg_pc1 4 None
    ∈ eventos_processados
        (init cfg_pc1
           (Some {| processed_ids := [JInt 4; JStr "PC2_99"];
                    last_update := ""; highest_id_this_machine := 0;
                    total_processed := 2; stats_by_machine := ∅ |})) /\
  4 <= highest_record_id
         (init cfg_pc1
            (Some {| processed_ids := [JInt 4; JStr "PC2_99"];
                     last_update := ""; highest_id_this_machine := 0;
                     total_processed := 2; stats_by_machine := ∅ |})).
Proof.
  assert (H : ~ occurs "_"%char (machine_name cfg_pc1)).
  { simpl. intros [H | [H | [H | []]]]; discriminate. }
  assert (H' : JInt 4 ∈ [JInt 4; JStr "PC2_99"] \/
               JStr (criar_id_unico cfg_pc1 4 None) ∈ [JInt 4; JStr "PC2_99"])
    by (left; left).
  split; [exact H|]. split; [exact H'|].
  exact (init_legacy_entry cfg_pc1
           {| processed_ids := [JInt 4; JStr "PC2_99"];
              last_update := ""; highest_id_this_machine := 0;
              total_processed := 2; stats_by_machine := ∅ |} 4 H H').
Defined.

(** ** Saving *)

Lemma parsed_entry_inv id m n id' :
  parsed_entry id = Some (m, (n, id')) ->
  id' = id /\ machine_of id = Some m /\
  exists r, split_id id = Some (m, r) /\ PyStr.int_of_str r = Some n.
Proof.
  unfold parsed_entry, machine_of.
  destruct (split_id id) as [[m' r]|]; simpl; [|discriminate].
  destruct (PyStr.int_of_str r) as [k|] eqn:I; simpl; [|discriminate].
  intros [= <- <- <-]. eauto.
Qed.

Lemma entries_of_elem ids m n id :
  (n, id) ∈ entries_of ids m <-> id ∈ ids /\ parsed_entry id = Some (m, (n, id)).
Proof.
  unfold entries_of, of_machine.
  rewrite list_elem_of_In, in_map_iff. split.
  - intros ([m' [n' id']] & [= -> ->] & H).
    apply filter_In in H as [H Hm]. simpl in Hm. apply String.eqb_eq in Hm.
    subst m'. apply list_elem_of_In, list_elem_of_omap in H as (x & Hx & P).
    destruct (parsed_entry_inv _ _ _ _ P) as (-> & _).
    split; [now apply elem_of_elements | exact P].
  - intros [Hid P]. exists (m, (n, id)). split; [reflexivity|].
    apply filter_In. split; [|simpl; apply String.eqb_refl].
    apply list_elem_of_In, list_elem_of_omap. exists id.
    split; [now apply elem_of_elements | exact P].
Qed.

Lemma insert_by_key_perm x l : insert_by_key x l ≡ₚ x :: l.
Proof.
  induction l as [|y l IH]; simpl; [reflexivity|].
  destruct (x.1 <? y.1); [reflexivity|].
  rewrite IH. apply Permutation_swap.
Qed.

Lemma fold_insert_perm l : forall acc,
  fold_left (fun acc x => insert_by_key x acc) l acc ≡ₚ l ++ acc.
Proof.
  induction l as [|x l IH]; intros acc; simpl; [reflexivity|].
  rewrite IH, insert_by_key_perm. symmetry. apply Permutation_middle.
Qed.

Lemma sort_by_key_perm l : sort_by_key l ≡ₚ l.
Proof. unfold sort_by_key. rewrite fold_insert_perm. now rewrite app_nil_r. Qed.

Lemma insert_by_key_sorted x l :
  StronglySorted by_key l -> StronglySorted by_key (insert_by_key x l).
Proof.
  induction 1 as [|y l Hs IH Hy]; simpl.
  - repeat constructor.
  - destruct (Z.ltb_spec x.1 y.1) as [Hlt | Hge].
    + constructor; [constructor; assumption|].
      constructor; [unfold by_key; lia|].
      eapply Forall_impl; [exact Hy|]. unfold by_key. intros z Hz. lia.
    + constructor; [exact IH|].
      rewrite insert_by_key_perm. constructor; [exact Hge | exact Hy].
Qed.

Lemma fold_insert_sorted l : forall acc,
  StronglySorted by_key acc ->
  StronglySorted by_key (fold_left (fun acc x => insert_by_key x acc) l acc).
Proof.
  induction l as [|x l IH]; intros acc H; simpl; [exact H|].
  apply IH, insert_by_key_sorted, H.
Qed.

Lemma sort_by_key_sorted l : StronglySorted by_key (sort_by_key l).
Proof. apply fold_insert_sorted. constructor. Qed.

Lemma novos_eventos_elem ids id :
  id ∈ novos_eventos ids <->
  exists m n, (n, id) ∈ last_n 10000 (sort_by_key (entries_of ids m)).
Proof.
  unfold novos_eventos. rewrite elem_of_list_to_set, list_elem_of_In, in_concat.
  split.
  - intros (l & Hl & Hid). apply in_map_iff in Hl as (m & <- & Hm).
    apply in_map_iff in Hid as ([n id'] & Heq & Hx). simpl in Heq. subst id'.
    exists m, n. apply list_elem_of_In. exact Hx.
  - intros (m & n & Hx).
    exists (map snd (last_n 10000 (sort_by_key (entries_of ids m)))).
    split.
    + apply in_map_iff. exists m. split; [reflexivity|].
      apply list_elem_of_In, elem_of_remove_dups, list_elem_of_In, in_map_iff.
      assert (Hin : (n, id) ∈ entries_of ids m).
      { unfold last_n in Hx. eapply elem_of_sublist in Hx;
          [|apply sublist_drop].
        assert (P : sort_by_key (entries_of ids m) ≡ₚ entries_of ids m)
          by apply sort_by_key_perm.
        now rewrite P in Hx. }
      apply entries_of_elem in Hin as [Hid P].
      exists (m, (n, id)). split; [reflexivity|].
      apply list_elem_of_In, list_elem_of_omap. exists id.
      split; [now apply elem_of_elements | exact P].
    + apply in_map_iff. exists (n, id). split; [reflexivity|].
      apply list_elem_of_In. exact Hx.
Qed.

Lemma novos_eventos_subseteq ids : novos_eventos ids ⊆ ids.
Proof.
  intros id H. apply novos_eventos_elem in H as (m & n & H).
  unfold last_n in H. eapply elem_of_sublist in H; [|apply sublist_drop].
  rewrite sort_by_key_perm in H. now apply entries_of_elem in H as [H _].
Qed.

(** X5.  The identities that the pruning of a save keeps were all in
    the set, and each has the form that the pruning can read: an
    underscore, and after it an integer. *)
Theorem novos_eventos_kept ids id :
  id ∈ novos_eventos ids ->
  id ∈ ids /\
  exists m r n, split_id id = Some (m, r) /\ PyStr.int_of_str r = Some n.
Proof.
  intros H. split; [now apply novos_eventos_subseteq|].
  apply novos_eventos_elem in H as (m & n & H).
  unfold last_n in H. eapply elem_of_sublist in H; [|apply sublist_drop].
  rewrite sort_by_key_perm in H. apply entries_of_elem in H as [_ P].
  apply parsed_entry_inv in P as (_ & _ & r & S & I). eauto.
Qed.

Lemma novos_eventos_kept_witness :
  "PC1_7" ∈ novos_eventos {["PC1_7"]} /\
  "PC1_7" ∈ ({["PC1_7"]} : gset string) /\
  exists m r n, split_id "PC1_7" = Some (m, r) /\ PyStr.int_of_str r = Some n.
Proof.
  assert (H : "PC1_7" ∈ novos_eventos {["PC1_7"]}).
  { apply (bool_decide_unpack _). vm_compute. exact I. }
  split; [exact H|]. exact (novos_eventos_kept {["PC1_7"]} "PC1_7" H).
Defined.

Lemma size_list_to_set_le (l : list string) :
  (size (list_to_set l : gset string) <= length l)%nat.
Proof.
  induction l as [|x l IH].
  - change (size (∅ : gset string) <= 0)%nat. now rewrite size_empty.
  - change (size ({[x]} ∪ list_to_set l : gset string) <= S (length l))%nat.
    rewrite size_union_alt, size_singleton.
    assert ((size (list_to_set l ∖ {[x]} : gset string)
             <= size (list_to_set l : gset string))%nat)
      by (apply subseteq_size; intros y Hy;
          apply elem_of_difference in Hy as [Hy _]; exact Hy).
    lia.
Qed.

Lemma length_last_n {A : Type} (n : Z) (l : list A) :
  0 <= n -> Z.of_nat (length (last_n n l)) <= n.
Proof. intros H. unfold last_n. rewrite length_drop. lia. Qed.

(** X6.  After the pruning of a save no machine is left with more than
    10000 identities. *)
Theorem novos_eventos_per_machine ids m :
  Z.of_nat (size (filter (fun id => machine_of id = Some m)
                    (novos_eventos ids))) <= 10000.
Proof.
  set (kept := last_n 10000 (sort_by_key (entries_of ids m))).
  assert (Hsub : filter (fun id => machine_of id = Some m) (novos_eventos ids)
                 ⊆ list_to_set (map snd kept)).
  { intros id H. apply elem_of_filter in H as [Hm H].
    apply novos_eventos_elem in H as (m' & n & H).
    assert (m' = m) as ->.
    { pose proof H as H'. unfold last_n in H'.
      eapply elem_of_sublist in H'; [|apply sublist_drop].
      rewrite sort_by_key_perm in H'. apply entries_of_elem in H' as [_ P].
      apply parsed_entry_inv in P as (_ & P & _). congruence. }
    apply elem_of_list_to_set, list_elem_of_In, in_map_iff.
    exists (n, id). split; [reflexivity | now apply list_elem_of_In]. }
  apply subseteq_size in Hsub.
  pose proof (size_list_to_set_le (map snd kept)) as Hlen.
  rewrite length_map in Hlen.
  pose proof (length_last_n 10000 (sort_by_key (entries_of ids m))) as Hk.
  fold kept in Hk. lia.
Qed.

(** X7.  The pruning of a save loses nothing of a machine that has at
    most 10000 identities it can read. *)
Theorem novos_eventos_small_machine ids id m n :
  id ∈ ids -> parsed_entry id = Some (m, (n, id)) ->
  Z.of_nat (length (entries_of ids m)) <= 10000 ->
  id ∈ novos_eventos ids.
Proof.
  intros Hid P Hlen. apply novos_eventos_elem. exists m, n.
  unfold last_n.
  assert (L : length (sort_by_key (entries_of ids m))
              = length (entries_of ids m))
    by (apply Permutation_length, sort_by_key_perm).
  replace (length (sort_by_key (entries_of ids m)) - Z.to_nat 10000)%nat
    with 0%nat by lia.
  rewrite drop_0, sort_by_key_perm. apply entries_of_elem. auto.
Qed.

Lemma novos_eventos_small_machine_witness :
  "PC1_7" ∈ ({["PC1_7"]} : gset string) /\
  parsed_entry "PC1_7" = Some ("PC1", (7, "PC1_7")) /\
  Z.of_nat (length (entries_of {["PC1_7"]} "PC1")) <= 10000 /\
  "PC1_7" ∈ novos_eventos {["PC1_7"]}.
Proof.
  assert (H1 : "PC1_7" ∈ ({["PC1_7"]} : gset string))
    by (apply elem_of_singleton; reflexivity).
  assert (H2 : parsed_entry "PC1_7" = Some ("PC1", (7, "PC1_7")))
    by (vm_compute; reflexivity).
  assert (H3 : Z.of_nat (length (entries_of {["PC1_7"]} "PC1")) <= 10000)
    by (vm_compute; discriminate).
  split; [exact H1|]. split; [exact H2|]. split; [exact H3|].
  exact (novos_eventos_small_machine {["PC1_7"]} "PC1_7" "PC1" 7 H1 H2 H3).
Defined.

Lemma novos_eventos_order ids m kept n_kept dropped n_dropped :
  kept ∈ novos_eventos ids ->
  parsed_entry kept = Some (m, (n_kept, kept)) ->
  dropped ∈ ids -> dropped ∉ novos_eventos ids ->
  parsed_entry dropped = Some (m, (n_dropped, dropped)) ->
  n_dropped <= n_kept.
Proof.
  intros Hk Pk Hd Hn Pd.
  set (s := sort_by_key (entries_of ids m)).
  set (k := (length s - Z.to_nat 10000)%nat).
  assert (Hk' : (n_kept, kept) ∈ drop k s).
  { apply novos_eventos_elem in Hk as (m' & n' & H).
    pose proof H as H'. unfold last_n in H'.
    eapply elem_of_sublist in H'; [|apply sublist_drop].
    rewrite sort_by_key_perm in H'. apply entries_of_elem in H' as [_ P].
    rewrite Pk in P. injection P as <- <-. exact H. }
  assert (Hd' : (n_dropped, dropped) ∈ take k s).
  { assert (H : (n_dropped, dropped) ∈ s).
    { subst s. rewrite sort_by_key_perm. apply entries_of_elem. auto. }
    rewrite <- (take_drop k s) in H. apply elem_of_app in H as [H | H];
      [exact H|].
    exfalso. apply Hn, novos_eventos_elem. exists m, n_dropped. exact H. }
  pose proof (sort_by_key_sorted (entries_of ids m)) as S. fold s in S.
  rewrite <- (take_drop k s) in S.
  exact (StronglySorted_app_1_elem_of _ _ _ _ _ S Hd' Hk').
Qed.

(** X8.  The pruning of a save keeps the most recent identities of each
    machine: when it keeps an identity, it keeps every identity of the
    set that is of the same machine and has a larger record number. *)
Theorem novos_eventos_most_recent ids m kept n_kept newer n_newer :
  kept ∈ novos_eventos ids ->
  parsed_entry kept = Some (m, (n_kept, kept)) ->
  newer ∈ ids ->
  parsed_entry newer = Some (m, (n_newer, newer)) ->
  n_kept < n_newer ->
  newer ∈ novos_eventos ids.
Proof.
  intros Hk Pk Hin Pn Hlt.
  destruct (decide (newer ∈ novos_eventos ids)) as [H | H]; [exact H|].
  pose proof (novos_eventos_order ids m kept n_kept newer n_newer
                Hk Pk Hin H Pn).
  lia.
Qed.

Lemma novos_eventos_most_recent_witness :
  "PC1_7" ∈ novos_eventos {["PC1_7"; "PC1_9"]} /\
  parsed_entry "PC1_7" = Some ("PC1", (7, "PC1_7")) /\
  "PC1_9" ∈ ({["PC1_7"; "PC1_9"]} : gset string) /\
  parsed_entry "PC1_9" = Some ("PC1", (9, "PC1_9")) /\
  7 < 9 /\
  "PC1_9" ∈ novos_eventos {["PC1_7"; "PC1_9"]}.
Proof.
  assert (H1 : "PC1_7" ∈ novos_eventos {["PC1_7"; "PC1_9"]})
    by (apply (bool_decide_unpack _); vm_compute; exact I).
  assert (H2 : parsed_entry "PC1_7" = Some ("PC1", (7, "PC1_7")))
    by (vm_compute; reflexivity).
  assert (H3 : "PC1_9" ∈ ({["PC1_7"; "PC1_9"]} : gset string))
    by (apply (bool_decide_unpack _); vm_compute; exact I).
  assert (H4 : parsed_entry "PC1_9" = Some ("PC1", (9, "PC1_9")))
    by (vm_compute; reflexivity).
  assert (H5 : 7 < 9) by lia.
  repeat (split; [assumption|]).
  exact (novos_eventos_most_recent _ _ _ _ _ _ H1 H2 H3 H4 H5).
Defined.

(** ** The file that a save writes *)

Lemma stats_lookup (l : list string) (m : string) :
  foldr
    (fun id acc =>
       match split_id id with
       | Some (m, _) => <[m := default 0 (acc !! m) + 1]> acc
       | None => acc
       end)
    (∅ : gmap string Z) l !! m
  = match length (filter (fun id => machine_of id = Some m) l) with
    | O => None
    | S k => Some (Z.of_nat (S k))
    end.
Proof.
  induction l as [|id l IH]; [reflexivity|].
  cbn [foldr]. unfold machine_of in *.
  destruct (split_id id) as [[m' r]|] eqn:S.
  - destruct (decide (m' = m)) as [-> | Hne].
    + rewrite lookup_insert_eq, IH.
      rewrite filter_cons_True by (rewrite S; reflexivity).
      cbn [length]. destruct (length _); simpl; f_equal; lia.
    + rewrite lookup_insert_ne by exact Hne.
      rewrite filter_cons_False; [exact IH|].
      rewrite S. simpl. congruence.
  - rewrite filter_cons_False; [exact IH|]. rewrite S. discriminate.
Qed.

(** X9.  The statistics of the file that a save writes give, for every
    machine, the number of identities of the processed set filed under
    it, and have no entry for a machine with none. *)
Theorem stats_por_maquina_count ids m :
  stats_por_maquina ids !! m
  = match size (filter (fun id => machine_of id = Some m) ids) with
    | O => None
    | S k => Some (Z.of_nat (S k))
    end.
Proof.
  unfold stats_por_maquina. rewrite stats_lookup.
  replace (length (filter (fun id => machine_of id = Some m) (elements ids)))
    with (size (filter (fun id => machine_of id = Some m) ids));
    [reflexivity|].
  unfold size at 1, set_size. cbn.
  apply Permutation_length, NoDup_Permutation.
  - apply NoDup_elements.
  - apply NoDup_filter, NoDup_elements.
  - intros x. rewrite elem_of_elements, elem_of_filter, list_elem_of_filter,
      elem_of_elements. reflexivity.
Qed.

(** X10.  Every save writes one file, whatever the size of the set; the
    file lists each identity of the processed set it leaves in memory
    exactly once, its count is the length of that list, and it records
    the high-water mark; the save adds no identity to the set and leaves
    the high-water mark and the buffer alone, and with at most 50000
    identities it leaves the set alone as well. *)
Theorem salvar_eventos_processados_file env st :
  exists st' f,
    salvar_eventos_processados env st = (Done tt, st') /\
    trace st' = trace st ++ [Save f] /\
    (forall id, JStr id ∈ processed_ids f <-> id ∈ eventos_processados st') /\
    NoDup (processed_ids f) /\
    total_processed f = Z.of_nat (length (processed_ids f)) /\
    highest_id_this_machine f = highest_record_id st /\
    eventos_processados st' ⊆ eventos_processados st /\
    (Z.of_nat (size (eventos_processados st)) <= 50000 ->
     eventos_processados st' = eventos_processados st) /\
    highest_record_id st' = highest_record_id st /\
    eventos_buffer st' = eventos_buffer st.
Proof.
  destruct (salvar_eventos_processados_run env st) as (st1 & E & H1).
  exists (with_trace (trace st ++ [Save (state_file env st1)]) st1),
    (state_file env st1).
  assert (T : trace st1 = trace st /\ highest_record_id st1 = highest_record_id st
              /\ eventos_buffer st1 = eventos_buffer st
              /\ eventos_processados st1 ⊆ eventos_processados st).
  { rewrite H1. destruct (_ <? _); cbn; repeat split; auto.
    apply novos_eventos_subseteq. }
  destruct T as (T1 & T2 & T3 & T4).
  split; [exact E|]. cbn [trace with_trace eventos_processados
                          highest_record_id eventos_buffer].
  split; [reflexivity|]. split; [intros id; apply state_file_ids|].
  split.
  { unfold state_file. cbn [processed_ids].
    apply NoDup_fmap_2; [intros a b [= ->]; reflexivity | apply NoDup_elements]. }
  split.
  { unfold state_file. cbn [processed_ids total_processed].
    now rewrite length_fmap. }
  split; [exact T2|]. split; [exact T4|]. split; [|split; assumption].
  intros Hsz. rewrite H1.
  replace (50000 <? Z.of_nat (size (eventos_processados st))) with false
    by (symmetry; apply Z.ltb_ge; lia).
  reflexivity.
Qed.

(** ** Batches *)

Lemma concat_chunks {A : Type} (b : nat) : forall (q : nat) (l : list A),
  (length l <= q * b)%nat ->
  concat (map (fun k => take b (drop (k * b) l)) (seq 0 q)) = l.
Proof.
  induction q as [|q IH]; intros l Hl.
  - destruct l; [reflexivity | simpl in Hl; lia].
  - rewrite <- cons_seq, <- fmap_S_seq. cbn [map concat].
    rewrite Nat.mul_0_l, drop_0.
    replace (map (fun k => take b (drop (k * b) l)) (S <$> seq 0 q))
      with (map (fun k => take b (drop (k * b) (drop b l))) (seq 0 q)).
    + rewrite IH; [apply take_drop|]. rewrite length_drop. lia.
    + clear. induction (seq 0 q) as [|k s IHs]; [reflexivity|].
      cbn. rewrite IHs. do 2 f_equal. rewrite drop_drop. f_equal; lia.
Qed.

Lemma py_range_starts stop step starts :
  0 < step -> 0 <= stop ->
  py_range stop step = Done starts ->
  starts = map (fun k => Z.of_nat k * step)
             (seq 0 (Z.to_nat ((stop + step - 1) / step))) /\
  stop <= ((stop + step - 1) / step) * step /\
  ((stop + step - 1) / step - 1) * step < stop.
Proof.
  intros Hs Hn. unfold py_range.
  destruct (Z.eqb_spec step 0); [lia|]. destruct (Z.ltb_spec step 0); [lia|].
  intros [= <-]. split; [reflexivity|].
  pose proof (Z.div_mod (stop + step - 1) step ltac:(lia)) as D.
  pose proof (Z.mod_pos_bound (stop + step - 1) step Hs) as B.
  nia.
Qed.

Lemma batches_chunks cfg (events_to_send : list WireEvent) starts :
  0 < batch_size cfg ->
  py_range (Z.of_nat (length events_to_send)) (batch_size cfg) = Done starts ->
  concat (batches cfg events_to_send starts) = events_to_send /\
  Forall (fun batch => batch <> [] /\
                       Z.of_nat (length batch) <= batch_size cfg)
    (batches cfg events_to_send starts).
Proof.
  intros Hb R.
  destruct (py_range_starts _ _ _ Hb (Nat2Z.is_nonneg _) R) as (-> & Hq & Hq').
  set (n := Z.of_nat (length events_to_send)) in *.
  set (q := Z.to_nat ((n + batch_size cfg - 1) / batch_size cfg)).
  set (b := Z.to_nat (batch_size cfg)).
  assert (Hq0 : 0 <= (n + batch_size cfg - 1) / batch_size cfg)
    by (apply Z.div_pos; lia).
  assert (E : batches cfg events_to_send
                (map (fun k => Z.of_nat k * batch_size cfg) (seq 0 q))
              = map (fun k => take b (drop (k * b) events_to_send)) (seq 0 q)).
  { unfold batches. rewrite map_map. apply map_ext_in. intros k _.
    unfold slice. subst b.
    replace (Z.of_nat k * batch_size cfg + batch_size cfg
             - Z.of_nat k * batch_size cfg) with (batch_size cfg) by lia.
    replace (Z.to_nat (Z.of_nat k * batch_size cfg))
      with (k * Z.to_nat (batch_size cfg))%nat by nia.
    reflexivity. }
  rewrite E. split.
  - apply concat_chunks. subst q b n. nia.
  - apply Forall_forall. intros batch Hin.
    apply list_elem_of_In, in_map_iff in Hin as (k & <- & Hk).
    apply in_seq in Hk. split.
    + assert (Hlt : (k * b < length events_to_send)%nat) by (subst q b n; nia).
      intros Hnil. apply (f_equal length) in Hnil.
      rewrite length_take, length_drop in Hnil. simpl in Hnil. subst b. lia.
    + rewrite length_take. subst b. lia.
Qed.

(** X11.  With a positive batch size the batches are the list cut in
    order: put end to end they give the list back, none is empty and
    none is longer than the batch size. *)
Theorem batches_partition cfg (events_to_send : list WireEvent) starts :
  0 < batch_size cfg ->
  py_range (Z.of_nat (length events_to_send)) (batch_size cfg) = Done starts ->
  concat (batches cfg events_to_send starts) = events_to_send /\
  Forall (fun batch => batch <> [] /\
                       Z.of_nat (length batch) <= batch_size cfg)
    (batches cfg events_to_send starts).
Proof. exact (batches_chunks cfg events_to_send starts). Qed.

Lemma batches_partition_witness :
  0 < batch_size cfg_pc1 /\
  py_range (Z.of_nat (length [one_record; one_record]))
    (batch_size cfg_pc1) = Done [0] /\
  concat (batches cfg_pc1 [one_record; one_record] [0])
  = [one_record; one_record] /\
  Forall (fun batch => batch <> [] /\
                       Z.of_nat (length batch) <= batch_size cfg_pc1)
    (batches cfg_pc1 [one_record; one_record] [0]).
Proof.
  assert (H1 : 0 < batch_size cfg_pc1) by (simpl; lia).
  assert (H2 : py_range (Z.of_nat (length [one_record; one_record]))
                 (batch_size cfg_pc1) = Done [0])
    by (vm_compute; reflexivity).
  split; [exact H1|]. split; [exact H2|].
  exact (batches_partition cfg_pc1 [one_record; one_record] [0] H1 H2).
Defined.

Lemma retry_trace_last events posts :
  (0 < posts)%nat -> Post events ∈ retry_trace events posts.
Proof.
  destruct posts as [|k]; [lia|]. intros _. unfold retry_trace.
  apply elem_of_app. right. now left.
Qed.

Lemma send_events_true_posts env cfg events st st' :
  events <> [] ->
  send_events env cfg events st = (Done true, st') ->
  exists seg, st' = with_trace (trace st ++ seg) st /\ Post events ∈ seg.
Proof.
  intros Hne E.
  destruct (send_attempts_run env cfg events (Z.to_nat (max_retries cfg)) 0 st)
    as (ok & posts & E' & _ & _ & Hok & _); [intros H; simpl; lia|].
  assert (E'' : send_events env cfg events st
                = (Done ok, with_trace (trace st ++ retry_trace events posts) st))
    by (destruct events; [congruence | exact E']).
  rewrite E'' in E. injection E as -> <-.
  exists (retry_trace events posts). split; [reflexivity|].
  apply retry_trace_last. now apply Hok.
Qed.

Lemma send_batches_posts env cfg to_send : forall starts st failed st',
  send_batches env cfg to_send starts st = (Done failed, st') ->
  exists seg,
    st' = with_trace (trace st ++ seg) st /\
    (forall i, i ∈ failed -> i ∈ starts) /\
    (forall i, i ∈ starts -> i ∉ failed ->
               slice i (i + batch_size cfg) to_send <> [] ->
               Post (slice i (i + batch_size cfg) to_send) ∈ seg).
Proof.
  induction starts as [|i rest IH]; intros st failed st'.
  - simpl. unfold ret. intros [= <- <-]. exists [].
    rewrite app_nil_r, with_trace_same. split; [reflexivity|].
    split; intros i H; inversion H.
  - cbn [send_batches].
    destruct (send_events_run env cfg
                (slice i (i + batch_size cfg) to_send) st)
      as (ok & seg1 & E1 & _).
    rewrite (bind_done _ _ _ _ _ E1).
    set (pause := if i + batch_size cfg <? Z.of_nat (length to_send)
                  then [Sleep 1] else []).
    assert (E2 : when (i + batch_size cfg <? Z.of_nat (length to_send))
                   (sleep 1) (with_trace (trace st ++ seg1) st)
                 = (Done tt, with_trace (trace st ++ seg1 ++ pause) st)).
    { subst pause. destruct (_ <? _); unfold when, sleep, emit, update, ret;
        cbn [trace with_trace].
      - unfold with_trace.
        cbn [eventos_processados highest_record_id eventos_buffer trace].
        now rewrite <- app_assoc.
      - now rewrite app_nil_r. }
    rewrite (bind_done _ _ _ _ _ E2).
    destruct (send_batches env cfg to_send rest
                (with_trace (trace st ++ seg1 ++ pause) st))
      as [[failed'|x] st2] eqn:E3.
    2:{ destruct (send_batches_run env cfg to_send rest
                    (with_trace (trace st ++ seg1 ++ pause) st))
          as (? & ? & E & _). congruence. }
    destruct (IH _ _ _ E3) as (seg3 & -> & Hf & Hp).
    rewrite (bind_done _ _ _ _ _ E3). unfold ret. intros [= <- <-].
    exists (seg1 ++ pause ++ seg3). split.
    { unfold with_trace. cbn. now rewrite <- !app_assoc. }
    split.
    + intros j Hj. destruct ok.
      * right. now apply Hf.
      * apply elem_of_cons in Hj as [-> | Hj]; [now left | right; now apply Hf].
    + intros j Hj Hnf Hne. apply elem_of_cons in Hj as [-> | Hj].
      * destruct ok.
        -- destruct (send_events_true_posts _ _ _ _ _ Hne E1)
             as (seg & Hseg & Hin).
           assert (seg = seg1) as ->.
           { apply (f_equal trace) in Hseg. cbn in Hseg.
             now apply app_inv_head in Hseg. }
           apply elem_of_app. now left.
        -- exfalso. apply Hnf. now left.
      * rewrite !elem_of_app. right. right. apply Hp; [exact Hj| |exact Hne].
        intros H. apply Hnf. destruct ok; [exact H | now right].
Qed.

(** X12.  With a positive batch size, when [send_events_batch] returns
    [True] every record of the list is in one of the requests it made,
    and every request it made carries records of the list only. *)
Theorem send_events_batch_delivers env cfg events st sent :
  0 < batch_size cfg ->
  send_events_batch env cfg events st = (Done true, sent) ->
  exists seg,
    sent = with_trace (trace st ++ seg) st /\
    (forall e, e ∈ events ->
               exists batch, Post batch ∈ seg /\ to_wire e ∈ batch) /\
    (forall body w, Post body ∈ seg -> w ∈ body -> w ∈ map to_wire events).
Proof.
  intros Hb E.
  destruct (send_events_batch_frame _ _ _ _ _ _ E) as (seg & -> & Hseg).
  exists seg. split; [reflexivity|]. split.
  - intros e He. destruct events as [|d events]; [inversion He|].
    unfold send_events_batch in E.
    destruct (py_range _ _) as [starts|x] eqn:R; [|discriminate].
    destruct (send_batches env cfg (map to_wire (d :: events)) starts st)
      as [[failed|x] st2] eqn:B.
    2:{ rewrite (bind_raised _ _ _ _ _ B) in E. discriminate. }
    rewrite (bind_done _ _ _ _ _ B) in E. unfold ret in E.
    destruct failed; [|discriminate]. injection E as ->.
    destruct (send_batches_posts _ _ _ _ _ _ _ B) as (seg' & Hst & _ & Hp).
    assert (seg' = seg) as ->.
    { apply (f_equal trace) in Hst. cbn in Hst.
      now apply app_inv_head in Hst. }
    rewrite <- length_map with (f := to_wire) in R.
    destruct (batches_chunks cfg (map to_wire (d :: events)) starts Hb R)
      as [Hc Hne].
    assert (Hw : to_wire e ∈ concat (batches cfg (map to_wire (d :: events)) starts)).
    { rewrite Hc. apply list_elem_of_In, in_map, list_elem_of_In, He. }
    apply list_elem_of_In, in_concat in Hw as (batch & Hbatch & Hw).
    unfold batches in Hbatch. apply in_map_iff in Hbatch as (i & <- & Hi).
    exists (slice i (i + batch_size cfg) (map to_wire (d :: events))).
    split; [|now apply list_elem_of_In].
    apply Hp; [now apply list_elem_of_In | intros H; inversion H|].
    rewrite Forall_forall in Hne.
    apply (Hne (slice i (i + batch_size cfg) (map to_wire (d :: events)))).
    unfold batches. apply list_elem_of_In, in_map_iff. eauto.
  - intros body w Hbody Hw.
    destruct (Hseg _ Hbody) as [[i [= ->]] | [s [=]]].
    eapply slice_elem, Hw.
Qed.

Lemma send_events_batch_delivers_witness :
  0 < batch_size cfg_pc1 /\
  exists seg,
    with_trace [Post [one_record]] (init cfg_pc1 None)
    = with_trace (trace (init cfg_pc1 None) ++ seg) (init cfg_pc1 None) /\
    (forall e, e ∈ [report_record] ->
               exists batch, Post batch ∈ seg /\ to_wire e ∈ batch) /\
    (forall body w, Post body ∈ seg -> w ∈ body ->
                    w ∈ map to_wire [report_record]).
Proof.
  assert (H1 : 0 < batch_size cfg_pc1) by (simpl; lia).
  assert (H2 : send_events_batch (env_of (Response 200 JsonObject)) cfg_pc1
                 [report_record] (init cfg_pc1 None)
               = (Done true,
                  with_trace [Post [one_record]] (init cfg_pc1 None)))
    by (vm_compute; reflexivity).
  split; [exact H1|].
  exact (send_events_batch_delivers _ _ _ _ _ H1 H2).
Defined.

(** ** Catch-up pass: edges *)

(** X13.  With a batch size of 0 and records to deliver at the start,
    [monitor_events] ends in the catch-up pass with [ValueError], which
    [range] raises: no request is made, nothing is marked or saved, and
    the loop is never entered. *)
Theorem monitor_events_batch_size_zero env cfg history polls st :
  batch_size cfg = 0 ->
  process_all_on_start cfg = true ->
  pass_records env cfg st history <> [] ->
  monitor_events env cfg history polls st = (Raised ValueError, st).
Proof.
  intros Hb Hp Hne.
  assert (B : send_events_batch env cfg (pass_records env cfg st history) st
              = (Raised ValueError, st)).
  { unfold send_events_batch.
    destruct (pass_records env cfg st history); [congruence|].
    unfold py_range. rewrite Hb. reflexivity. }
  assert (P : processar_todos_eventos env cfg history st
              = (Raised ValueError, st)).
  { rewrite (processar_todos_eventos_unfold env cfg history st Hne).
    exact (bind_raised _ _ _ _ _ B). }
  unfold monitor_events, startup, when. rewrite Hp.
  apply bind_raised. apply bind_raised. exact P.
Qed.

Lemma monitor_events_batch_size_zero_witness :
  batch_size {| machine_name := "PC1"; max_retries := 3; batch_size := 0;
                check_interval := 5; retry_interval := 30;
                process_all_on_start := true |} = 0 /\
  monitor_events (env_of (Response 200 JsonObject))
    {| machine_name := "PC1"; max_retries := 3; batch_size := 0;
       check_interval := 5; retry_interval := 30;
       process_all_on_start := true |}
    unreadable_history [] (init cfg_pc1 None)
  = (Raised ValueError, init cfg_pc1 None).
Proof.
  split; [reflexivity|].
  apply monitor_events_batch_size_zero;
    [reflexivity | reflexivity | vm_compute; discriminate].
Defined.

(** X14.  With a negative batch size [range] yields no batch, so a
    catch-up pass with records to deliver makes no request and still
    marks every event of the pass as processed and saves. *)
Theorem processar_todos_eventos_negative_batch env cfg eventos_raw st :
  batch_size cfg < 0 ->
  pass_records env cfg st eventos_raw <> [] ->
  exists marked final,
    for_each (pass_events cfg st eventos_raw) (mark_raw cfg) st
    = (Done tt, marked) /\
    (forall e, e ∈ pass_events cfg st eventos_raw ->
               raw_id cfg e ∈ eventos_processados marked) /\
    salvar_eventos_processados env marked = (Done tt, final) /\
    processar_todos_eventos env cfg eventos_raw st = (Done tt, final) /\
    posts_in (trace final) = posts_in (trace st).
Proof.
  intros Hb Hne.
  assert (B : send_events_batch env cfg (pass_records env cfg st eventos_raw) st
              = (Done true, st)).
  { unfold send_events_batch.
    destruct (pass_records env cfg st eventos_raw); [congruence|].
    unfold py_range. destruct (Z.eqb_spec (batch_size cfg) 0); [lia|].
    destruct (Z.ltb_spec (batch_size cfg) 0); [reflexivity | lia]. }
  pose proof (processar_todos_eventos_unfold env cfg eventos_raw st Hne) as U.
  unfold pass_records, pass_events in *.
  rewrite (bind_done _ _ _ _ _ B) in U.
  destruct (mark_all_run cfg
              (eventos_nao_processados cfg (eventos_processados st) eventos_raw)
              st) as (marked & Em & Sm & _ & _ & Tm).
  destruct (salvar_eventos_processados_run env marked) as (final & Es & Ef).
  rewrite (bind_done _ _ _ _ _ Em) in U.
  eexists marked, _. split; [exact Em|]. split.
  { intros e He. apply Sm. right. eauto. }
  split; [exact Es|]. split; [now rewrite U|].
  cbn [trace with_trace]. rewrite posts_in_app, Tm.
  unfold posts_in at 2. simpl. lia.
Qed.

Lemma processar_todos_eventos_negative_batch_witness :
  batch_size {| machine_name := "PC1"; max_retries := 3; batch_size := -1;
                check_interval := 5; retry_interval := 30;
                process_all_on_start := true |} < 0 /\
  exists marked final,
    for_each
      (pass_events
         {| machine_name := "PC1"; max_retries := 3; batch_size := -1;
            check_interval := 5; retry_interval := 30;
            process_all_on_start := true |}
         (init cfg_pc1 None) unreadable_history)
      (mark_raw
         {| machine_name := "PC1"; max_retries := 3; batch_size := -1;
            check_interval := 5; retry_interval := 30;
            process_all_on_start := true |})
      (init cfg_pc1 None) = (Done tt, marked) /\
    posts_in (trace final) = posts_in (trace (init cfg_pc1 None)).
Proof.
  split; [simpl; lia|].
  destruct (processar_todos_eventos_negative_batch
              (env_of ConnectionError)
              {| machine_name := "PC1"; max_retries := 3; batch_size := -1;
                 check_interval := 5; retry_interval := 30;
                 process_all_on_start := true |}
              unreadable_history (init cfg_pc1 None))
    as (marked & final & H1 & _ & _ & _ & H5);
    [simpl; lia | vm_compute; discriminate |].
  exists marked, final. split; [exact H1 | exact H5].
Defined.

Lemma eventos_nao_processados_nil cfg ids raws :
  (forall e, e ∈ raws -> raw_id cfg e ∈ ids) ->
  eventos_nao_processados cfg ids raws = [].
Proof.
  intros H. destruct (eventos_nao_processados cfg ids raws) as [|e l] eqn:E;
    [reflexivity|].
  assert (He : e ∈ eventos_nao_processados cfg ids raws)
    by (rewrite E; now left).
  apply eventos_nao_processados_elem in He as [He Hn].
  exfalso. apply Hn, H, He.
Qed.

(** X15.  A catch-up pass over a log whose events are all in the
    processed set does nothing: no request, no save, the state as it
    was. *)
Theorem processar_todos_eventos_all_processed env cfg eventos_raw st :
  (forall e, e ∈ eventos_raw -> raw_id cfg e ∈ eventos_processados st) ->
  processar_todos_eventos env cfg eventos_raw st = (Done tt, st).
Proof.
  intros H. apply processar_todos_eventos_nothing.
  unfold pass_records, pass_events.
  now rewrite (eventos_nao_processados_nil _ _ _ H).
Qed.

Lemma processar_todos_eventos_all_processed_witness :
  (forall e, e ∈ [report_event] ->
             raw_id cfg_pc1 e ∈ eventos_processados buffering) /\
  processar_todos_eventos (env_of ConnectionError) cfg_pc1 [report_event]
    buffering = (Done tt, buffering).
Proof.
  assert (H : forall e : RawEvent, e ∈ [report_event] ->
              raw_id cfg_pc1 e ∈ eventos_processados buffering).
  { intros e He. apply list_elem_of_singleton in He as ->.
    apply (bool_decide_unpack _). vm_compute. exact I. }
  split; [exact H|].
  exact (processar_todos_eventos_all_processed _ _ _ _ H).
Defined.

(** X16.  A catch-up pass whose delivery succeeded is not repeated:
    unless the save had to prune a set of more than 50000, a second pass
    over the same log, whatever the collector does then, makes no request
    and changes nothing. *)
Theorem processar_todos_eventos_twice env env' cfg eventos_raw st sent marked :
  pass_records env cfg st eventos_raw <> [] ->
  send_events_batch env cfg (pass_records env cfg st eventos_raw) st
  = (Done true, sent) ->
  for_each (pass_events cfg st eventos_raw) (mark_raw cfg) sent
  = (Done tt, marked) ->
  Z.of_nat (size (eventos_processados marked)) <= 50000 ->
  exists final,
    processar_todos_eventos env cfg eventos_raw st = (Done tt, final) /\
    processar_todos_eventos env' cfg eventos_raw final = (Done tt, final).
Proof.
  intros Hne B Em Hsz.
  pose proof (processar_todos_eventos_unfold env cfg eventos_raw st Hne) as U.
  unfold pass_records, pass_events in *.
  rewrite (bind_done _ _ _ _ _ B), (bind_done _ _ _ _ _ Em) in U.
  destruct (mark_all_run cfg
              (eventos_nao_processados cfg (eventos_processados st) eventos_raw)
              sent) as (marked' & Em' & Sm & _ & _ & _).
  rewrite Em in Em'. injection Em' as <-.
  destruct (salvar_eventos_processados_run env marked) as (final & Es & Ef).
  replace (50000 <? Z.of_nat (size (eventos_processados marked))) with false
    in Ef by (symmetry; apply Z.ltb_ge; lia).
  subst final. rewrite Es in U.
  eexists. split; [exact U|].
  apply processar_todos_eventos_nothing. unfold pass_records, pass_events.
  cbn [eventos_processados with_trace].
  rewrite eventos_nao_processados_nil; [reflexivity|].
  intros e He. apply Sm.
  destruct (decide (raw_id cfg e ∈ eventos_processados st)) as [Hin | Hout].
  - left. destruct (send_events_batch_frame _ _ _ _ _ _ B) as (seg & -> & _).
    exact Hin.
  - right. exists e. split; [|reflexivity].
    apply eventos_nao_processados_elem. auto.
Qed.

Lemma processar_todos_eventos_twice_witness :
  pass_records (env_of (Response 200 JsonObject)) cfg_pc1
    (init cfg_pc1 None) unreadable_history <> [] /\
  exists final,
    processar_todos_eventos (env_of (Response 200 JsonObject)) cfg_pc1
      unreadable_history (init cfg_pc1 None) = (Done tt, final) /\
    processar_todos_eventos (env_of ConnectionError) cfg_pc1
      unreadable_history final = (Done tt, final).
Proof.
  assert (H1 : pass_records (env_of (Response 200 JsonObject)) cfg_pc1
                 (init cfg_pc1 None) unreadable_history <> [])
    by (vm_compute; discriminate).
  assert (H2 : send_events_batch (env_of (Response 200 JsonObject)) cfg_pc1
                 (pass_records (env_of (Response 200 JsonObject)) cfg_pc1
                    (init cfg_pc1 None) unreadable_history)
                 (init cfg_pc1 None)
               = (Done true,
                  with_trace [Post [one_record]] (init cfg_pc1 None)))
    by (vm_compute; reflexivity).
  destruct (mark_all_run cfg_pc1
              (pass_events cfg_pc1 (init cfg_pc1 None) unreadable_history)
              (with_trace [Post [one_record]] (init cfg_pc1 None)))
    as (marked & H3 & Hm & _).
  assert (H4 : Z.of_nat (size (eventos_processados marked)) <= 50000).
  { assert (Hsub : eventos_processados marked
                   ⊆ list_to_set
                       (map (raw_id cfg_pc1)
                          (pass_events cfg_pc1 (init cfg_pc1 None)
                             unreadable_history))).
    { intros id Hid. apply Hm in Hid as [Hid | (e & He & ->)].
      - exfalso. revert Hid. apply not_elem_of_empty.
      - apply elem_of_list_to_set, list_elem_of_In, in_map, list_elem_of_In, He. }
    apply subseteq_size in Hsub.
    pose proof (size_list_to_set_le
                  (map (raw_id cfg_pc1)
                     (pass_events cfg_pc1 (init cfg_pc1 None)
                        unreadable_history))) as Hle.
    rewrite length_map in Hle.
    assert (Hlen : (length (pass_events cfg_pc1 (init cfg_pc1 None)
                              unreadable_history) <= 2)%nat).
    { unfold pass_events, eventos_nao_processados.
      etransitivity; [apply filter_length_le | simpl; lia]. }
    lia. }
  split; [exact H1|].
  exact (processar_todos_eventos_twice _ (env_of ConnectionError) _ _ _ _ _
           H1 H2 H3 H4).
Defined.

(** ** Delivery of the buffer *)

Lemma send_events_no_save env cfg events st ok st' :
  send_events env cfg events st = (Done ok, st') ->
  exists seg,
    st' = with_trace (trace st ++ seg) st /\
    (forall f, Save f ∉ seg) /\
    (forall body, Post body ∈ seg -> body = events).
Proof.
  intros E. destruct (send_events_run env cfg events st) as (ok' & seg & E' & H).
  rewrite E' in E. injection E as _ <-. exists seg. split; [reflexivity|].
  split.
  - intros f Hf. destruct (H _ Hf); discriminate.
  - intros body Hb. destruct (H _ Hb) as [[= ->] | [=]]. reflexivity.
Qed.

Lemma confirm_all_set cfg st : forall l s,
  Forall (buffered_ok cfg st) l ->
  eventos_processados s = eventos_processados st ->
  exists s',
    for_each l (confirm_buffered cfg) s = (Done tt, s') /\
    eventos_processados s' = eventos_processados st /\
    eventos_buffer s' = eventos_buffer s /\ trace s' = trace s /\
    highest_record_id s <= highest_record_id s' /\
    (forall ev rid, ev ∈ l -> record_id ev = Some rid ->
                    rid <= highest_record_id s') /\
    (highest_record_id s' = highest_record_id s \/
     exists ev, ev ∈ l /\ record_id ev = Some (highest_record_id s')).
Proof.
  induction l as [|ev l IH]; intros s Hl Hs.
  - exists s. simpl. unfold ret. repeat split; try lia; auto.
    intros ev rid H. inversion H.
  - apply Forall_cons in Hl as [(rid & Hr & Hid) Hl].
    cbn [for_each]. unfold bind at 1, confirm_buffered.
    unfold bind at 1, add_processado, update, buffered_id. rewrite Hr.
    unfold raise_highest, update.
    set (s1 := if _ <? rid then _ else _).
    assert (H1 : eventos_processados s1 = eventos_processados st
                 /\ eventos_buffer s1 = eventos_buffer s
                 /\ trace s1 = trace s
                 /\ highest_record_id s <= highest_record_id s1
                 /\ rid <= highest_record_id s1
                 /\ (highest_record_id s1 = highest_record_id s
                     \/ highest_record_id s1 = rid)).
    { assert (Hadd : {[criar_id_unico cfg rid None]} ∪ eventos_processados s
                     = eventos_processados st).
      { rewrite Hs. apply subseteq_union_1_L, singleton_subseteq_l, Hid. }
      subst s1. cbn [highest_record_id with_processados].
      destruct (Z.ltb_spec (highest_record_id s) rid);
        cbn [eventos_processados eventos_buffer trace highest_record_id
               with_processados with_highest];
        (split; [exact Hadd|]); repeat split; auto; lia. }
    destruct H1 as (S1 & B1 & T1 & M1 & R1 & A1).
    destruct (IH s1 Hl S1) as (s' & E & S & B & T & M & R & A).
    exists s'. split; [exact E|]. split; [exact S|]. split; [congruence|].
    split; [congruence|]. split; [lia|]. split.
    + intros ev' rid' Hin Hr'. apply elem_of_cons in Hin as [-> | Hin];
        [|eauto]. rewrite Hr in Hr'. injection Hr' as <-. lia.
    + destruct A as [A | (ev' & Hev' & A)].
      * destruct A1 as [A1 | A1]; [left; congruence|].
        right. exists ev. split; [now left | congruence].
      * right. exists ev'. split; [now right | exact A].
Qed.

Lemma deliver_buffer_cases env cfg st :
  steady cfg st -> eventos_buffer st <> [] ->
  exists ok seg st',
    send_events env cfg (map to_wire (eventos_buffer st)) st
    = (Done ok, with_trace (trace st ++ seg) st) /\
    (forall f, Save f ∉ seg) /\
    deliver_buffer env cfg st = (Done tt, st') /\
    (ok = false ->
     trace st' = trace st ++ seg /\
     eventos_processados st' = eventos_processados st /\
     highest_record_id st' = highest_record_id st /\
     eventos_buffer st'
     = if 1000 <? Z.of_nat (length (eventos_buffer st))
       then last_n 500 (eventos_buffer st) else eventos_buffer st) /\
    (ok = true ->
     trace st' = trace st ++ seg ++ [Save (state_file env st')] /\
     eventos_buffer st' = [] /\
     eventos_processados st' ⊆ eventos_processados st /\
     (Z.of_nat (size (eventos_processados st)) <= 50000 ->
      eventos_processados st' = eventos_processados st) /\
     highest_record_id st <= highest_record_id st' /\
     (forall ev rid, ev ∈ eventos_buffer st -> record_id ev = Some rid ->
                     rid <= highest_record_id st') /\
     (highest_record_id st' = highest_record_id st \/
      exists ev, ev ∈ eventos_buffer st /\
                 record_id ev = Some (highest_record_id st'))).
Proof.
  intros (Hh & F & N) Hne.
  destruct (send_events env cfg (map to_wire (eventos_buffer st)) st)
    as [[ok|x] s1] eqn:E1.
  2:{ destruct (send_events_run env cfg (map to_wire (eventos_buffer st)) st)
        as (? & ? & E & _). congruence. }
  destruct (send_events_no_save _ _ _ _ _ _ E1) as (seg & -> & Hns & _).
  unfold deliver_buffer, bind at 1, ask.
  destruct (eventos_buffer st) as [|ev0 buffer] eqn:Hb; [congruence|].
  rewrite <- Hb in *. rewrite (bind_done _ _ _ _ _ E1).
  set (s1 := with_trace (trace st ++ seg) st).
  destruct ok.
  - destruct (confirm_all_set cfg st (eventos_buffer st) s1 F eq_refl)
      as (s2 & E2 & S2 & B2 & T2 & M2 & R2 & A2).
    rewrite (bind_done _ _ _ _ _ E2). unfold bind at 1, update.
    destruct (salvar_eventos_processados_run env (with_buffer [] s2))
      as (s3 & E3 & Hs3).
    rewrite E3.
    assert (P3 : highest_record_id s3 = highest_record_id s2
                 /\ eventos_buffer s3 = []
                 /\ eventos_processados s3 ⊆ eventos_processados st
                 /\ (Z.of_nat (size (eventos_processados st)) <= 50000 ->
                     eventos_processados s3 = eventos_processados st)).
    { rewrite Hs3. cbn [eventos_processados with_buffer]. rewrite S2.
      destruct (Z.ltb_spec 50000 (Z.of_nat (size (eventos_processados st))));
        cbn; rewrite ?S2; repeat split; auto.
      - apply novos_eventos_subseteq.
      - intros; lia. }
    destruct P3 as (Hh3 & Hb3 & Hsub3 & Hsame3).
    exists true, seg, (with_trace (trace (with_buffer [] s2)
                                    ++ [Save (state_file env s3)]) s3).
    split; [reflexivity|]. split; [exact Hns|]. split; [reflexivity|].
    split; [discriminate|]. intros _.
    cbn [trace with_trace with_buffer eventos_buffer eventos_processados
           highest_record_id].
    split; [rewrite T2; subst s1; cbn [trace with_trace];
            now rewrite <- app_assoc|].
    split; [exact Hb3|]. split; [exact Hsub3|]. split; [exact Hsame3|].
    rewrite Hh3. subst s1. cbn [highest_record_id with_trace] in *.
    split; [exact M2|]. split; [exact R2 | exact A2].
  - exists false, seg,
      (if 1000 <? Z.of_nat (length (eventos_buffer st))
       then with_buffer (last_n 500 (eventos_buffer st)) s1 else s1).
    split; [reflexivity|]. split; [exact Hns|].
    split; [destruct (_ <? _); reflexivity|].
    split; [|discriminate]. intros _.
    destruct (_ <? _); cbn; repeat split; reflexivity.
Qed.

(** X17.  When the delivery of the buffer fails in the loop, nothing is
    marked and nothing is saved: the processed set, the high-water mark
    and the file on disk are as before; the buffer is kept whole if it
    has at most 1000 records, and otherwise cut to its last 500. *)
Theorem deliver_buffer_failure env cfg st sent :
  steady cfg st -> eventos_buffer st <> [] ->
  send_events env cfg (map to_wire (eventos_buffer st)) st
  = (Done false, sent) ->
  exists st',
    deliver_buffer env cfg st = (Done tt, st') /\
    eventos_processados st' = eventos_processados st /\
    highest_record_id st' = highest_record_id st /\
    (forall initial, disk initial (trace st') = disk initial (trace st)) /\
    eventos_buffer st'
    = if 1000 <? Z.of_nat (length (eventos_buffer st))
      then last_n 500 (eventos_buffer st) else eventos_buffer st.
Proof.
  intros Hst Hne E.
  destruct (deliver_buffer_cases env cfg st Hst Hne)
    as (ok & seg & st' & E' & Hns & D & Hf & _).
  rewrite E in E'. injection E' as <- _.
  destruct (Hf eq_refl) as (T & S & H & B).
  exists st'. split; [exact D|]. split; [exact S|]. split; [exact H|].
  split; [|exact B].
  intros initial. rewrite T, disk_app. now apply disk_no_save.
Qed.

(** X18.  When the delivery of the buffer succeeds in the loop, the
    buffer is emptied and the state saved, so that the file on disk is
    the one of the new state; the high-water mark does not go down, is
    at least every record number that was in the buffer, and if it moved
    it is one of them; and no identity is added to the processed set. *)
Theorem deliver_buffer_success env cfg st sent :
  steady cfg st -> eventos_buffer st <> [] ->
  send_events env cfg (map to_wire (eventos_buffer st)) st
  = (Done true, sent) ->
  exists st',
    deliver_buffer env cfg st = (Done tt, st') /\
    eventos_buffer st' = [] /\
    (forall initial, disk initial (trace st') = Some (state_file env st')) /\
    highest_record_id st <= highest_record_id st' /\
    (forall ev rid, ev ∈ eventos_buffer st -> record_id ev = Some rid ->
                    rid <= highest_record_id st') /\
    (highest_record_id st' = highest_record_id st \/
     exists ev, ev ∈ eventos_buffer st /\
                record_id ev = Some (highest_record_id st')) /\
    eventos_processados st' ⊆ eventos_processados st.
Proof.
  intros Hst Hne E.
  destruct (deliver_buffer_cases env cfg st Hst Hne)
    as (ok & seg & st' & E' & Hns & D & _ & Ht).
  rewrite E in E'. injection E' as <- _.
  destruct (Ht eq_refl) as (T & B & S & _ & H & R & A).
  exists st'. split; [exact D|]. split; [exact B|]. split.
  { intros initial. rewrite T, app_assoc, disk_app. reflexivity. }
  auto.
Qed.

Lemma buffering_steady : steady cfg_pc1 buffering.
Proof.
  split; [simpl; lia|]. split.
  - constructor; [|constructor]. exists 42. split; [reflexivity|].
    change (criar_id_unico cfg_pc1 42 None
            ∈ ({[criar_id_unico cfg_pc1 42 None]} : gset string)).
    apply elem_of_singleton. reflexivity.
  - simpl. constructor; [|constructor]. intros H. inversion H.
Qed.

Lemma deliver_buffer_failure_witness :
  steady cfg_pc1 buffering /\ eventos_buffer buffering <> [] /\
  exists st',
    deliver_buffer (env_of ConnectionError) cfg_pc1 buffering = (Done tt, st') /\
    eventos_processados st' = eventos_processados buffering /\
    highest_record_id st' = highest_record_id buffering /\
    (forall initial,
       disk initial (trace st') = disk initial (trace buffering)) /\
    eventos_buffer st'
    = if 1000 <? Z.of_nat (length (eventos_buffer buffering))
      then last_n 500 (eventos_buffer buffering)
      else eventos_buffer buffering.
Proof.
  assert (H2 : eventos_buffer buffering <> []) by discriminate.
  assert (H3 : send_events (env_of ConnectionError) cfg_pc1
                 (map to_wire (eventos_buffer buffering)) buffering
               = (Done false,
                  with_trace [Post [one_record]; Sleep 5; Post [one_record];
                              Sleep 5; Post [one_record]] buffering))
    by reflexivity.
  split; [exact buffering_steady|]. split; [exact H2|].
  exact (deliver_buffer_failure _ _ _ _ buffering_steady H2 H3).
Defined.

Lemma deliver_buffer_success_witness :
  steady cfg_pc1 buffering /\ eventos_buffer buffering <> [] /\
  exists st',
    deliver_buffer (env_of (Response 200 JsonObject)) cfg_pc1 buffering
    = (Done tt, st') /\
    eventos_buffer st' = [] /\
    (forall initial,
       disk initial (trace st')
       = Some (state_file (env_of (Response 200 JsonObject)) st')) /\
    highest_record_id buffering <= highest_record_id st' /\
    (forall ev rid, ev ∈ eventos_buffer buffering ->
                    record_id ev = Some rid -> rid <= highest_record_id st') /\
    (highest_record_id st' = highest_record_id buffering \/
     exists ev, ev ∈ eventos_buffer buffering /\
                record_id ev = Some (highest_record_id st')) /\
    eventos_processados st' ⊆ eventos_processados buffering.
Proof.
  assert (H2 : eventos_buffer buffering <> []) by discriminate.
  assert (H3 : send_events (env_of (Response 200 JsonObject)) cfg_pc1
                 (map to_wire (eventos_buffer buffering)) buffering
               = (Done true, with_trace [Post [one_record]] buffering))
    by reflexivity.
  split; [exact buffering_steady|]. split; [exact H2|].
  exact (deliver_buffer_success _ _ _ _ buffering_steady H2 H3).
Defined.

(** ** One iteration of the loop *)

Lemma collect_none env cfg : forall raws novos st,
  (forall e, e ∈ raws -> accepts cfg st e = false) ->
  collect env cfg raws novos st = (Done novos, st).
Proof.
  induction raws as [|e rest IH]; intros novos st H; [reflexivity|].
  cbn [collect]. unfold bind at 1, ask, id.
  rewrite (H e) by now left. apply IH. intros x Hx. apply H. now right.
Qed.

Lemma iteration_cases env cfg raws st :
  steady cfg st ->
  exists novos stc stb std r,
    collect env cfg raws [] st = (Done novos, stc) /\
    stb = with_buffer (eventos_buffer st ++ novos) stc /\
    trace stc = trace st /\
    highest_record_id stc = highest_record_id st /\
    eventos_processados st ⊆ eventos_processados stc /\
    steady cfg stb /\
    deliver_buffer env cfg stb = (Done tt, std) /\
    limpar_cache std = (r, std) /\
    iteration env cfg raws st
    = (Done tt, with_trace (trace std ++ [Sleep (pause_after cfg r)]) std).
Proof.
  intros Hst. pose proof Hst as (Hh & F & N).
  destruct (collect_run env cfg raws [] st Hh)
    as (novos & stc & E & H1 & H2 & H3 & H4 & H5 & H6 & H7).
  cbn [app] in E.
  set (stb := with_buffer (eventos_buffer st ++ novos) stc).
  assert (Eb : when (match novos with [] => false | _ => true end)
                 (update (fun s => with_buffer (eventos_buffer s ++ novos) s))
                 stc = (Done tt, stb)).
  { subst stb. destruct novos; unfold when, update, ret.
    - rewrite app_nil_r, <- H2. now destruct stc.
    - now rewrite H2. }
  assert (Hnd : NoDup (record_id <$> (eventos_buffer st ++ novos))).
  { rewrite fmap_app. apply NoDup_app. split; [exact N|]. split; [|exact H7].
    intros x Hx Hx'.
    apply list_elem_of_fmap in Hx as (ev & -> & Hev).
    apply list_elem_of_fmap in Hx' as (ev' & Heq & Hev').
    rewrite Forall_forall in F. destruct (F ev Hev) as (rid & Hr & Hid).
    rewrite Forall_forall in H5.
    destruct (H5 ev' Hev') as (e' & rid' & _ & _ & Hr' & Hd' & Hid' & Hm' & _).
    rewrite Hr, Hd' in Heq. injection Heq as ->.
    apply Hid'. now rewrite (raw_id_own cfg e' rid' Hm' Hr'). }
  assert (Hstb : steady cfg stb).
  { subst stb. unfold steady. cbn. split; [lia|]. split; [|exact Hnd].
    apply Forall_app. split; [|exact H6].
    eapply Forall_impl; [exact F|]. intros ev Hev.
    eapply buffered_ok_mono; eauto. }
  destruct (deliver_buffer_run env cfg stb Hstb)
    as (std & seg & Ed & _).
  destruct (limpar_cache_same std) as [r El].
  exists novos, stc, stb, std, r.
  split; [exact E|]. split; [reflexivity|]. split; [exact H3|].
  split; [exact H1|]. split; [exact H4|]. split; [exact Hstb|].
  split; [exact Ed|]. split; [exact El|].
  unfold iteration, tick.
  rewrite (bind_done _ _ _ _ _ E), (bind_done _ _ _ _ _ Eb),
    (bind_done _ _ _ _ _ Ed).
  destruct r as [[]|x].
  - now rewrite (bind_done _ _ _ _ _ El).
  - now rewrite (bind_raised _ _ _ _ _ El).
Qed.

Lemma deliver_buffer_bound env cfg st st' :
  steady cfg st ->
  deliver_buffer env cfg st = (Done tt, st') ->
  Z.of_nat (length (eventos_buffer st')) <= 1000 /\
  highest_record_id st <= highest_record_id st' /\
  eventos_buffer st' `suffix_of` eventos_buffer st.
Proof.
  intros Hst D.
  destruct (eventos_buffer st) as [|ev0 b] eqn:Hb.
  - unfold deliver_buffer, bind, ask in D. rewrite Hb in D.
    unfold ret in D. injection D as <-. rewrite Hb. simpl.
    split; [lia|]. split; [lia | reflexivity].
  - rewrite <- Hb in *.
    destruct (deliver_buffer_cases env cfg st Hst) as
      (ok & seg & st2 & _ & _ & D' & Hf & Ht); [rewrite Hb; discriminate|].
    rewrite D in D'. injection D' as <-. destruct ok.
    + destruct (Ht eq_refl) as (_ & B & _ & _ & H & _). rewrite B. simpl.
      split; [lia|]. split; [exact H | apply suffix_nil].
    + destruct (Hf eq_refl) as (_ & _ & H & B). rewrite B.
      destruct (Z.ltb_spec 1000 (Z.of_nat (length (eventos_buffer st)))).
      * unfold last_n. rewrite length_drop.
        split; [lia|]. split; [lia | apply suffix_drop].
      * split; [lia|]. split; [lia | reflexivity].
Qed.

(** X19.  The buffer is bounded: every iteration of the loop that
    starts in a state the loop maintains ends with at most 1000 records
    in the buffer, and those are the last of the records that were in it
    during the iteration. *)
Theorem iteration_buffer_bound env cfg raws st :
  steady cfg st ->
  exists novos collected st1,
    collect env cfg raws [] st = (Done novos, collected) /\
    iteration env cfg raws st = (Done tt, st1) /\
    Z.of_nat (length (eventos_buffer st1)) <= 1000 /\
    eventos_buffer st1 `suffix_of` eventos_buffer st ++ novos.
Proof.
  intros Hst.
  destruct (iteration_cases env cfg raws st Hst)
    as (novos & stc & stb & std & r & E & Hb & _ & _ & _ & Sb & D & _ & I).
  destruct (deliver_buffer_bound _ _ _ _ Sb D) as (B & _ & Sx).
  eexists novos, stc, _. split; [exact E|]. split; [exact I|].
  cbn [eventos_buffer with_trace]. split; [exact B|].
  rewrite Hb in Sx. exact Sx.
Qed.

Lemma iteration_buffer_bound_witness :
  steady cfg_pc1 buffering /\
  exists novos collected st1,
    collect (env_of ConnectionError) cfg_pc1 [] [] buffering
    = (Done novos, collected) /\
    iteration (env_of ConnectionError) cfg_pc1 [] buffering = (Done tt, st1) /\
    Z.of_nat (length (eventos_buffer st1)) <= 1000 /\
    eventos_buffer st1 `suffix_of` eventos_buffer buffering ++ novos.
Proof.
  split; [exact buffering_steady|].
  exact (iteration_buffer_bound _ _ _ _ buffering_steady).
Defined.

(** X20.  An idle iteration only sleeps: with an empty buffer, no raw
    event of the poll passing the three tests and at most 10000
    identities in the processed set, the iteration makes no request and
    no save, leaves the state as it was and sleeps the interval of the
    checks. *)
Theorem iteration_idle env cfg raws st :
  eventos_buffer st = [] ->
  (forall e, e ∈ raws -> accepts cfg st e = false) ->
  Z.of_nat (size (eventos_processados st)) <= 10000 ->
  iteration env cfg raws st
  = (Done tt, with_trace (trace st ++ [Sleep (check_interval cfg)]) st).
Proof.
  intros Hb Hnone Hsz. unfold iteration, tick.
  rewrite (bind_done _ _ _ _ _ (collect_none env cfg raws [] st Hnone)).
  cbn [when]. unfold bind at 1, ret.
  assert (D : deliver_buffer env cfg st = (Done tt, st))
    by (unfold deliver_buffer, bind, ask; now rewrite Hb).
  rewrite (bind_done _ _ _ _ _ D).
  assert (L : limpar_cache st = (Done tt, st)).
  { unfold limpar_cache, bind, ask, id.
    replace (10000 <? Z.of_nat (size (eventos_processados st))) with false
      by (symmetry; apply Z.ltb_ge; lia).
    reflexivity. }
  now rewrite (bind_done _ _ _ _ _ L).
Qed.

Lemma iteration_idle_witness :
  eventos_buffer (init cfg_pc1 None) = [] /\
  (forall e, e ∈ [raw 7 "PC2" (MStr report_msg)] ->
             accepts cfg_pc1 (init cfg_pc1 None) e = false) /\
  Z.of_nat (size (eventos_processados (init cfg_pc1 None))) <= 10000 /\
  iteration (env_of ConnectionError) cfg_pc1 [raw 7 "PC2" (MStr report_msg)]
    (init cfg_pc1 None)
  = (Done tt,
     with_trace (trace (init cfg_pc1 None) ++ [Sleep (check_interval cfg_pc1)])
       (init cfg_pc1 None)).
Proof.
  assert (H1 : eventos_buffer (init cfg_pc1 None) = []) by reflexivity.
  assert (H2 : forall e, e ∈ [raw 7 "PC2" (MStr report_msg)] ->
                         accepts cfg_pc1 (init cfg_pc1 None) e = false).
  { intros e He. apply list_elem_of_singleton in He. subst e.
    vm_compute. reflexivity. }
  assert (H3 : Z.of_nat (size (eventos_processados (init cfg_pc1 None)))
               <= 10000)
    by (vm_compute; discriminate).
  split; [exact H1|]. split; [exact H2|]. split; [exact H3|].
  exact (iteration_idle _ _ _ _ H1 H2 H3).
Defined.

(** X21.  Once the processed set has more than 10000 identities, every
    iteration ends with the pause of the retries instead of that of the
    checks, because the clean-up of the cache raises; with at most 10000
    it ends with the pause of the checks. *)
Theorem iteration_pause env cfg raws st :
  steady cfg st ->
  exists st1 t,
    iteration env cfg raws st = (Done tt, st1) /\
    trace st1
    = t ++ [Sleep (if 10000 <? Z.of_nat (size (eventos_processados st1))
                   then retry_interval cfg else check_interval cfg)].
Proof.
  intros Hst.
  destruct (iteration_cases env cfg raws st Hst)
    as (novos & stc & stb & std & r & _ & _ & _ & _ & _ & _ & _ & L & I).
  eexists _, (trace std). split; [exact I|].
  cbn [trace with_trace eventos_processados]. do 3 f_equal.
  destruct (Z.ltb_spec 10000 (Z.of_nat (size (eventos_processados std))))
    as [H | H].
  - rewrite (limpar_cache_over std H) in L. injection L as <-. reflexivity.
  - unfold limpar_cache, bind, ask, id in L.
    replace (10000 <? Z.of_nat (size (eventos_processados std))) with false
      in L by (symmetry; apply Z.ltb_ge; lia).
    unfold ret in L. injection L as <-. reflexivity.
Qed.

Lemma iteration_pause_witness :
  steady cfg_pc1 buffering /\
  exists st1 t,
    iteration (env_of ConnectionError) cfg_pc1 [] buffering = (Done tt, st1) /\
    trace st1
    = t ++ [Sleep (if 10000 <? Z.of_nat (size (eventos_processados st1))
                   then retry_interval cfg_pc1 else check_interval cfg_pc1)].
Proof.
  split; [exact buffering_steady|].
  exact (iteration_pause _ _ _ _ buffering_steady).
Defined.

(** ** The whole run *)

Lemma startup_highest env cfg history st r st1 :
  startup env cfg history st = (r, st1) ->
  highest_record_id st <= highest_record_id st1.
Proof.
  unfold startup, when. destruct (process_all_on_start cfg).
  - destruct (processar_todos_eventos env cfg history st) as [[[]|x] s] eqn:P;
      pose proof (processar_todos_eventos_highest _ _ _ _ _ _ P).
    + rewrite (bind_done _ _ _ _ _ P). unfold update. intros [= _ <-].
      exact H.
    + rewrite (bind_raised _ _ _ _ _ P). intros [= _ <-]. exact H.
  - unfold bind, ret, update. intros [= _ <-]. cbn. lia.
Qed.

Lemma polling_highest env cfg : forall polls st,
  steady cfg st ->
  exists st',
    for_each polls (iteration env cfg) st = (Done tt, st') /\
    steady cfg st' /\
    highest_record_id st <= highest_record_id st'.
Proof.
  induction polls as [|raws polls IH]; intros st Hst.
  - exists st. split; [reflexivity|]. split; [exact Hst | lia].
  - destruct (iteration_cases env cfg raws st Hst)
      as (novos & stc & stb & std & r & _ & Hb & _ & Hc & _ & Sb & D & _ & I).
    destruct (deliver_buffer_bound _ _ _ _ Sb D) as (_ & Hm & _).
    destruct (iteration_run env cfg raws st Hst)
      as (_ & _ & st1 & _ & _ & _ & _ & I' & _ & _ & S1 & _).
    rewrite I in I'. injection I' as <-.
    destruct (IH _ S1) as (st' & E & S' & H').
    exists st'. cbn [for_each]. rewrite (bind_done _ _ _ _ _ I).
    split; [exact E|]. split; [exact S'|].
    cbn [highest_record_id with_trace] in H'.
    rewrite Hb in Hm. cbn [highest_record_id with_buffer] in Hm. lia.
Qed.

Lemma add_all_grows cfg : forall (l : list CanonicalEvent) s s',
  for_each l (fun e => add_processado (buffered_id cfg e)) s = (Done tt, s') ->
  eventos_processados s ⊆ eventos_processados s'.
Proof.
  induction l as [|a l IHl]; intros s s'.
  - intros [= <-]. reflexivity.
  - cbn [for_each]. unfold bind at 1, add_processado, update.
    intros E. apply IHl in E. cbn [eventos_processados with_processados] in E.
    intros y Hy. apply E. apply elem_of_union. now right.
Qed.

Lemma add_all_run cfg : forall (l : list CanonicalEvent) st,
  exists st',
    for_each l (fun e => add_processado (buffered_id cfg e)) st
    = (Done tt, st') /\
    highest_record_id st' = highest_record_id st /\
    trace st' = trace st /\
    (forall e, e ∈ l -> buffered_id cfg e ∈ eventos_processados st').
Proof.
  induction l as [|e l IH]; intros st.
  - exists st. split; [reflexivity|]. split; [reflexivity|].
    split; [reflexivity|]. intros e H. inversion H.
  - cbn [for_each]. unfold bind at 1, add_processado, update.
    destruct (IH (with_processados
                    ({[buffered_id cfg e]} ∪ eventos_processados st) st))
      as (st' & E & H & T & S).
    exists st'. split; [exact E|]. split; [exact H|]. split; [exact T|].
    intros x Hx. apply elem_of_cons in Hx as [-> | Hx]; [|now apply S].
    apply (add_all_grows _ _ _ _ E).
    cbn [eventos_processados with_processados].
    apply elem_of_union. left. now apply elem_of_singleton.
Qed.

Lemma drain_run env cfg st :
  exists st',
    drain env cfg st = (Done tt, st') /\
    highest_record_id st' = highest_record_id st /\
    forall initial, disk initial (trace st') = Some (state_file env st').
Proof.
  assert (Last : forall s,
            exists s', salvar_eventos_processados env s = (Done tt, s') /\
                       highest_record_id s' = highest_record_id s /\
                       forall initial,
                         disk initial (trace s') = Some (state_file env s')).
  { intros s. destruct (salvar_eventos_processados_run env s) as (s1 & E & H).
    eexists. split; [exact E|]. cbn [highest_record_id trace with_trace].
    split; [rewrite H; destruct (_ <? _); reflexivity|].
    intros initial. rewrite disk_app. reflexivity. }
  unfold drain. unfold bind at 1. unfold bind at 1, ask.
  destruct (eventos_buffer st) as [|ev0 b] eqn:Hb.
  - unfold ret. apply Last.
  - rewrite <- Hb.
    destruct (send_events_run env cfg (map to_wire (eventos_buffer st)) st)
      as (ok & seg & E1 & _).
    rewrite (bind_done _ _ _ _ _ E1). destruct ok.
    + destruct (add_all_run cfg (eventos_buffer st)
                  (with_trace (trace st ++ seg) st))
        as (s2 & E2 & H2 & _).
      rewrite (bind_done _ _ _ _ _ E2).
      destruct (Last s2) as (s3 & E3 & H3 & _). rewrite E3.
      destruct (Last s3) as (s4 & E4 & H4 & D4).
      exists s4. split; [exact E4|]. split; [|exact D4].
      rewrite H4, H3, H2. reflexivity.
    + unfold ret. destruct (Last (with_trace (trace st ++ seg) st))
        as (s4 & E4 & H4 & D4).
      exists s4. split; [exact E4|]. split; [exact H4 | exact D4].
Qed.

(** X22.  The high-water mark never goes down: whatever the history,
    the polls and the collector, [monitor_events] ends, normally or by
    an exception, with a high-water mark at least as large as the one it
    started with. *)
Theorem monitor_events_highest env cfg history polls st r st' :
  0 <= highest_record_id st ->
  monitor_events env cfg history polls st = (r, st') ->
  highest_record_id st <= highest_record_id st'.
Proof.
  intros Hh. unfold monitor_events.
  destruct (startup env cfg history st) as [[[]|x] st1] eqn:S;
    pose proof (startup_highest _ _ _ _ _ _ S) as H1.
  - rewrite (bind_done _ _ _ _ _ S).
    destruct (polling_highest env cfg polls st1
                (startup_steady _ _ _ _ _ Hh S)) as (st2 & P & _ & H2).
    rewrite (bind_done _ _ _ _ _ P).
    destruct (drain_run env cfg st2) as (st3 & D & H3 & _).
    rewrite D. intros [= _ <-]. lia.
  - rewrite (bind_raised _ _ _ _ _ S). intros [= _ <-]. exact H1.
Qed.

Lemma monitor_events_highest_witness :
  0 <= highest_record_id (init cfg_pc1 None) /\
  highest_record_id (init cfg_pc1 None) <= highest_record_id offline_run.
Proof.
  assert (H : 0 <= highest_record_id (init cfg_pc1 None))
    by apply init_highest_nonneg.
  split; [exact H|].
  exact (monitor_events_highest (env_of ConnectionError) cfg_pc1 []
           [[raw 1 "PC1" (MStr report_msg)]] (init cfg_pc1 None)
           (fst (monitor_events (env_of ConnectionError) cfg_pc1 []
                   [[raw 1 "PC1" (MStr report_msg)]] (init cfg_pc1 None)))
           offline_run H (surjective_pairing _)).
Defined.

(** X23.  A run whose start did not raise ends with a save: after the
    loop, whether the last delivery succeeds or not, [monitor_events]
    writes the state file, and the file on disk is the one of the state
    it ends in. *)
Theorem monitor_events_final_save env cfg history polls st st1 :
  0 <= highest_record_id st ->
  startup env cfg history st = (Done tt, st1) ->
  exists st',
    monitor_events env cfg history polls st = (Done tt, st') /\
    forall initial, disk initial (trace st') = Some (state_file env st').
Proof.
  intros Hh S. unfold monitor_events. rewrite (bind_done _ _ _ _ _ S).
  destruct (polling_steady env cfg polls st1 (startup_steady _ _ _ _ _ Hh S))
    as (st2 & P & _).
  rewrite (bind_done _ _ _ _ _ P).
  destruct (drain_run env cfg st2) as (st3 & D & _ & F).
  exists st3. split; [exact D | exact F].
Qed.

Lemma monitor_events_final_save_witness :
  0 <= highest_record_id (init cfg_pc1 None) /\
  exists st',
    monitor_events (env_of ConnectionError) cfg_pc1 []
      [[raw 1 "PC1" (MStr report_msg)]] (init cfg_pc1 None) = (Done tt, st') /\
    forall initial,
      disk initial (trace st') = Some (state_file (env_of ConnectionError) st').
Proof.
  assert (H : 0 <= highest_record_id (init cfg_pc1 None))
    by apply init_highest_nonneg.
  assert (S : startup (env_of ConnectionError) cfg_pc1 [] (init cfg_pc1 None)
              = (Done tt, with_buffer [] (init cfg_pc1 None)))
    by reflexivity.
  split; [exact H|].
  exact (monitor_events_final_save _ _ _ _ _ _ H S).
Defined.

Lemma send_events_first env cfg events st :
  events <> [] -> 0 < max_retries cfg ->
  accepted (answer env st 0) = true ->
  send_events env cfg events st
  = (Done true, with_trace (trace st ++ [Post events]) st).
Proof.
  intros Hne Hm Ha. unfold send_events. destruct events; [congruence|].
  destruct (Z.to_nat (max_retries cfg)) as [|k] eqn:K; [lia|].
  cbn [send_attempts]. unfold bind, post.
  unfold answer in Ha. rewrite Nat.add_0_r in Ha. now rewrite Ha.
Qed.

(** X24.  With the collector up, an iteration delivers at once: when the
    first request is accepted and at least one attempt is allowed, the
    iteration makes one request with the whole buffer, saves, and ends
    with the buffer empty and a high-water mark at least every record
    number it delivered. *)
Theorem iteration_collector_up env cfg raws st :
  steady cfg st -> 0 < max_retries cfg ->
  accepted (answer env st 0) = true ->
  exists novos collected st1,
    collect env cfg raws [] st = (Done novos, collected) /\
    iteration env cfg raws st = (Done tt, st1) /\
    eventos_buffer st1 = [] /\
    (eventos_buffer st ++ novos <> [] ->
     exists pause,
       trace st1
       = trace st ++ [Post (map to_wire (eventos_buffer st ++ novos));
                      Save (state_file env st1); Sleep pause]) /\
    (forall ev rid, ev ∈ eventos_buffer st ++ novos ->
                    record_id ev = Some rid -> rid <= highest_record_id st1).
Proof.
  intros Hst Hm Ha.
  destruct (iteration_cases env cfg raws st Hst)
    as (novos & stc & stb & std & r & E & Hb & Tc & _ & _ & Sb & D & _ & I).
  eexists novos, stc, _. split; [exact E|]. split; [exact I|].
  cbn [eventos_buffer trace highest_record_id with_trace].
  assert (Bb : eventos_buffer stb = eventos_buffer st ++ novos)
    by (rewrite Hb; reflexivity).
  assert (Tb : trace stb = trace st) by (rewrite Hb; exact Tc).
  destruct (eventos_buffer st ++ novos) as [|ev0 b] eqn:Hbuf.
  - unfold deliver_buffer, bind, ask in D. rewrite Bb in D.
    unfold ret in D. injection D as <-.
    split; [exact Bb|]. split; [congruence|]. intros ev rid H. inversion H.
  - rewrite <- Hbuf in *.
    assert (Hne : eventos_buffer stb <> []) by (rewrite Bb, Hbuf; discriminate).
    assert (Ha' : accepted (answer env stb 0) = true)
      by (unfold answer in *; now rewrite Tb).
    pose proof (send_events_first env cfg (map to_wire (eventos_buffer stb))
                  stb) as E1.
    specialize (E1 ltac:(rewrite Bb, Hbuf; discriminate) Hm Ha').
    destruct (deliver_buffer_cases env cfg stb Sb Hne)
      as (ok & seg & st2 & E2 & _ & D2 & _ & Ht).
    rewrite D in D2. injection D2 as <-.
    rewrite E1 in E2. injection E2 as <- Hseg.
    assert (seg = [Post (map to_wire (eventos_buffer stb))]) as ->.
    { apply app_inv_head in Hseg. now symmetry. }
    destruct (Ht eq_refl) as (T & B & _ & _ & _ & R & _).
    split; [exact B|]. split.
    + intros _. exists (pause_after cfg r).
      rewrite T, Tb, Bb, <- !app_assoc. reflexivity.
    + intros ev rid Hev. apply R. now rewrite Bb.
Qed.

Lemma iteration_collector_up_witness :
  steady cfg_pc1 buffering /\ 0 < max_retries cfg_pc1 /\
  accepted (answer (env_of (Response 200 JsonObject)) buffering 0) = true /\
  exists novos collected st1,
    collect (env_of (Response 200 JsonObject)) cfg_pc1 [] [] buffering
    = (Done novos, collected) /\
    iteration (env_of (Response 200 JsonObject)) cfg_pc1 [] buffering
    = (Done tt, st1) /\
    eventos_buffer st1 = [].
Proof.
  assert (H2 : 0 < max_retries cfg_pc1) by (simpl; lia).
  assert (H3 : accepted (answer (env_of (Response 200 JsonObject))
                           buffering 0) = true) by reflexivity.
  split; [exact buffering_steady|]. split; [exact H2|]. split; [exact H3|].
  destruct (iteration_collector_up (env_of (Response 200 JsonObject)) cfg_pc1
              [] buffering buffering_steady H2 H3)
    as (novos & collected & st1 & E & I & B & _).
  exists novos, collected, st1. auto.
Defined.

(** ** The extractor never fails on a message *)

(** X25.  The extractor gives up on a raw event whose message is null.
    On an event whose message is absent or is a text of at most 4300
    characters (so that every run of digits is within what the integer
    conversion accepts) it always produces a record, which carries the
    record number of the raw event as it is, the host of the raw event
    or, when that is missing, the local one, and the time of the raw
    event or, when that is missing, the clock; the document, user and
    printer have their defaults whenever their pattern does not match. *)
Theorem extrair_dados_evento_total now self ev :
  (Message ev = MNull -> extrair_dados_evento now self ev = None) /\
  (forall msg, message_text ev = Some msg ->
     (String.length msg <= 4300)%nat ->
     exists d,
       extrair_dados_evento now self ev = Some d /\
       record_id d = RecordId ev /\
       machine d = default self (MachineName ev) /\
       date d = default now (TimeCreated ev) /\
       (re_search (if is_portuguese msg then pt_doc_user else en_doc_user) msg
        = None -> document d = "Documento" /\ user d = "Desconhecido") /\
       (re_search (if is_portuguese msg then pt_printer else en_printer) msg
        = None -> printer d = "Impressora")).
Proof.
  unfold extrair_dados_evento. split.
  - unfold message_text. intros ->. reflexivity.
  - intros msg -> L. cbn [mbind option_bind].
    destruct (doc_user_total msg) as [[doc usr] Hd].
    destruct (printer_name_total msg) as [prn Hp].
    destruct (extract_pages_total msg (counts_parsable_short _ _ L))
      as [pgs He].
    rewrite Hd, Hp, He. cbn [mbind option_bind].
    eexists. split; [reflexivity|].
    cbn [record_id machine date document user printer].
    split; [reflexivity|]. split; [reflexivity|]. split; [reflexivity|].
    unfold doc_user in Hd. unfold printer_name in Hp. split.
    + intros R. rewrite R in Hd. injection Hd as <- <-. now split.
    + intros R. rewrite R in Hp. now injection Hp as <-.
Qed.

Lemma extrair_dados_evento_total_witness :
  message_text (raw 7 "PC1" (MStr "7 pages")) = Some "7 pages" /\
  (String.length "7 pages" <= 4300)%nat /\
  exists d,
    extrair_dados_evento (clock (env_of ConnectionError)) "PC1"
      (raw 7 "PC1" (MStr "7 pages")) = Some d /\
    document d = "Documento" /\ user d = "Desconhecido" /\
    printer d = "Impressora".
Proof.
  assert (H1 : message_text (raw 7 "PC1" (MStr "7 pages")) = Some "7 pages")
    by reflexivity.
  assert (H2 : (String.length "7 pages" <= 4300)%nat) by (simpl; lia).
  split; [exact H1|]. split; [exact H2|].
  destruct (proj2 (extrair_dados_evento_total
                     (clock (env_of ConnectionError)) "PC1"
                     (raw 7 "PC1" (MStr "7 pages"))) _ H1 H2)
    as (d & E & _ & _ & _ & D & P).
  exists d. split; [exact E|].
  destruct (D eq_refl) as [D1 D2]. split; [exact D1|]. split; [exact D2|].
  exact (P eq_refl).
Defined.

(** ** The configuration *)

Lemma fill_defaults_dict : forall defaults m,
  exists m',
    fill_defaults defaults (VDict m) = Some (VDict m') /\
    forall k, m' !! k = match m !! k with
                        | Some v => Some v
                        | None => (list_to_map defaults : gmap string jvalue)
                                  !! k
                        end.
Proof.
  induction defaults as [|[key value] rest IH]; intros m.
  - exists m. split; [reflexivity|]. intros k. now destruct (m !! k).
  - cbn [fill_defaults key_in mbind option_bind].
    destruct (bool_decide_reflect (is_Some (m !! key))) as [[v Hv]|Hn].
    + cbn [mbind option_bind]. destruct (IH m) as (m' & E & L).
      exists m'. split; [exact E|]. intros k. rewrite L.
      destruct (m !! k) eqn:Hk; [reflexivity|].
      cbn [list_to_map foldr fst snd]. rewrite lookup_insert_ne; [reflexivity|].
      intros HH. cbn in HH. subst k. rewrite Hv in Hk. discriminate.
    + cbn [set_item mbind option_bind].
      destruct (IH (<[key := value]> m)) as (m' & E & L).
      exists m'. split; [exact E|]. intros k. rewrite L.
      cbn [list_to_map foldr fst snd].
      destruct (decide (key = k)) as [<-|Hne].
      * rewrite !lookup_insert_eq. destruct (m !! key) eqn:Hk; [|reflexivity].
        exfalso. apply Hn. eauto.
      * rewrite !(lookup_insert_ne _ _ _ _ Hne).
        now destruct (m !! k).
Qed.

Lemma fill_defaults_other : forall defaults config config',
  (forall m, config <> VDict m) ->
  fill_defaults defaults config = Some config' ->
  config' = config /\
  forall key value, (key, value) ∈ defaults -> key_in key config = Some true.
Proof.
  induction defaults as [|[key value] rest IH]; intros config config' Hd.
  - intros [= <-]. split; [reflexivity|]. intros k v H. inversion H.
  - cbn [fill_defaults]. destruct (key_in key config) as [[]|] eqn:K;
      cbn [mbind option_bind]; try discriminate.
    + intros E. destruct (IH _ _ Hd E) as [-> H]. split; [reflexivity|].
      intros k v Hk. apply elem_of_cons in Hk as [[= -> ->]|Hk]; eauto.
    + destruct config; cbn [set_item mbind option_bind]; try discriminate.
      now destruct (Hd m).
Qed.

(** X26.  [load_config] fills the gaps of the file and nothing else: from
    a file that holds a JSON object, the configuration has every key of
    the file with the file's value and every missing key of the defaults
    with its default, and nothing is written.  In every case the function
    either writes the defaults and returns them, or writes nothing; and
    what it returns is an object with the seven keys of the defaults,
    unless the file holds a list or a string in which every one of those
    keys occurs, which is then returned as it is. *)
Theorem load_config_fills f :
  (forall m, f = Parsed (VDict m) ->
     exists m',
       load_config f = (VDict m', None) /\
       forall k, m' !! k = match m !! k with
                           | Some v => Some v
                           | None => (list_to_map DEFAULT_CONFIG
                                        : gmap string jvalue) !! k
                           end) /\
  (forall config written, load_config f = (config, written) ->
     (written = None \/
      (written = Some default_config /\ config = default_config)) /\
     ((exists m, config = VDict m /\
                 forall key value, (key, value) ∈ DEFAULT_CONFIG ->
                                   is_Some (m !! key)) \/
      (f = Parsed config /\ written = None /\
       (forall m, config <> VDict m) /\
       forall key value, (key, value) ∈ DEFAULT_CONFIG ->
                         key_in key config = Some true))).
Proof.
  assert (Full : forall key value,
             (key, value) ∈ DEFAULT_CONFIG ->
             is_Some ((list_to_map DEFAULT_CONFIG : gmap string jvalue)
                        !! key)).
  { intros key value H. unfold DEFAULT_CONFIG in H.
    repeat (apply elem_of_cons in H as [[= -> ->]|H]);
      [..|inversion H]; eexists; vm_compute; reflexivity. }
  split.
  - intros m ->. unfold load_config.
    destruct (fill_defaults_dict DEFAULT_CONFIG m) as (m' & E & L).
    rewrite E. exists m'. split; [reflexivity | exact L].
  - intros config written.
    assert (Fresh : (default_config, Some default_config) = (config, written)
                    -> (written = None \/
                        written = Some default_config /\
                        config = default_config) /\
                       ((exists m, config = VDict m /\
                           forall key value, (key, value) ∈ DEFAULT_CONFIG ->
                                             is_Some (m !! key)) \/
                        (f = Parsed config /\ written = None /\
                         (forall m, config <> VDict m) /\
                         forall key value, (key, value) ∈ DEFAULT_CONFIG ->
                                           key_in key config = Some true))).
    { intros [= <- <-]. split; [right; split; reflexivity|]. left.
      eexists. split; [reflexivity | exact Full]. }
    unfold load_config. destruct f as [| |c]; try exact Fresh.
    destruct (fill_defaults DEFAULT_CONFIG c) as [c'|] eqn:E; [|exact Fresh].
    intros [= <- <-]. split; [now left|].
    assert (D : (exists m, c = VDict m) \/ forall m, c <> VDict m)
      by (destruct c; eauto; right; discriminate).
    destruct D as [[m ->]|Hd].
    + left. destruct (fill_defaults_dict DEFAULT_CONFIG m) as (m' & E' & L).
      rewrite E in E'. injection E' as ->. exists m'. split; [reflexivity|].
      intros key value H. rewrite L. destruct (m !! key); [eauto|].
      exact (Full _ _ H).
    + right. destruct (fill_defaults_other _ _ _ Hd E) as [-> H].
      split; [reflexivity|]. split; [reflexivity|]. split; assumption.
Qed.

Lemma load_config_fills_witness :
  exists m',
    load_config (Parsed (VDict {["batch_size" := VInt 10]}))
    = (VDict m', None) /\
    m' !! "batch_size" = Some (VInt 10) /\
    m' !! "max_retries" = Some (VInt 3).
Proof.
  destruct (proj1 (load_config_fills
                     (Parsed (VDict {["batch_size" := VInt 10]}))) _ eq_refl)
    as (m' & E & L).
  exists m'. split; [exact E|].
  split; rewrite L; reflexivity.
Defined.

(** ** A failed batch does not stop the delivery *)

Lemma send_events_posts env cfg events st :
  events <> [] -> 0 < max_retries cfg ->
  exists ok seg,
    send_events env cfg events st = (Done ok, with_trace (trace st ++ seg) st)
    /\ Post events ∈ seg.
Proof.
  intros Hne Hm.
  destruct (send_attempts_run env cfg events (Z.to_nat (max_retries cfg)) 0 st)
    as (ok & posts & E' & _ & _ & Hok & Hko); [intros H; simpl; lia|].
  exists ok, (retry_trace events posts). split.
  - destruct events; [congruence | exact E'].
  - apply retry_trace_last. destruct ok.
    + now apply Hok.
    + destruct (Hko eq_refl) as [-> _]. lia.
Qed.

Lemma send_batches_all_posts env cfg to_send :
  0 < max_retries cfg ->
  forall starts st,
  exists failed seg,
    send_batches env cfg to_send starts st
    = (Done failed, with_trace (trace st ++ seg) st) /\
    (forall i, i ∈ starts ->
               slice i (i + batch_size cfg) to_send <> [] ->
               Post (slice i (i + batch_size cfg) to_send) ∈ seg).
Proof.
  intros Hm. induction starts as [|i rest IH]; intros st.
  - exists [], []. simpl. unfold ret. rewrite app_nil_r, with_trace_same.
    split; [reflexivity|]. intros i H. inversion H.
  - cbn [send_batches].
    assert (E1 : exists ok seg1,
               send_events env cfg (slice i (i + batch_size cfg) to_send) st
               = (Done ok, with_trace (trace st ++ seg1) st) /\
               (slice i (i + batch_size cfg) to_send <> [] ->
                Post (slice i (i + batch_size cfg) to_send) ∈ seg1)).
    { destruct (slice i (i + batch_size cfg) to_send) as [|w ws] eqn:S.
      - exists true, []. split; [|congruence].
        rewrite send_events_empty, app_nil_r, with_trace_same. reflexivity.
      - destruct (send_events_posts env cfg (w :: ws) st ltac:(discriminate) Hm)
          as (ok & seg1 & E & H).
        exists ok, seg1. split; [exact E | intros _; exact H]. }
    destruct E1 as (ok & seg1 & E1 & H1).
    rewrite (bind_done _ _ _ _ _ E1).
    set (pause := if i + batch_size cfg <? Z.of_nat (length to_send)
                  then [Sleep 1] else []).
    assert (E2 : when (i + batch_size cfg <? Z.of_nat (length to_send))
                   (sleep 1) (with_trace (trace st ++ seg1) st)
                 = (Done tt, with_trace (trace st ++ seg1 ++ pause) st)).
    { subst pause. destruct (_ <? _); unfold when, sleep, emit, update, ret;
        cbn [trace with_trace].
      - unfold with_trace.
        cbn [eventos_processados highest_record_id eventos_buffer trace].
        now rewrite <- app_assoc.
      - now rewrite app_nil_r. }
    rewrite (bind_done _ _ _ _ _ E2).
    destruct (IH (with_trace (trace st ++ seg1 ++ pause) st))
      as (failed' & seg3 & E3 & Hp).
    rewrite (bind_done _ _ _ _ _ E3). unfold ret.
    eexists _, (seg1 ++ pause ++ seg3). split.
    { unfold with_trace. cbn. now rewrite <- !app_assoc. }
    intros j Hj Hne. apply elem_of_cons in Hj as [-> | Hj].
    + apply elem_of_app. left. now apply H1.
    + rewrite !elem_of_app. right. right. now apply Hp.
Qed.

(** X27.  A batch that fails does not stop the delivery.  With a positive
    batch size and at least one attempt allowed, [send_events_batch]
    returns without raising, whatever the collector answers, and it has
    made a request for every record of the list, also for the records of
    the batches that come after one that failed. *)
Theorem send_events_batch_tries_all env cfg events st :
  0 < batch_size cfg -> 0 < max_retries cfg ->
  exists ok seg,
    send_events_batch env cfg events st
    = (Done ok, with_trace (trace st ++ seg) st) /\
    forall e, e ∈ events ->
              exists batch, Post batch ∈ seg /\ to_wire e ∈ batch.
Proof.
  intros Hb Hm. destruct events as [|d events].
  - exists true, []. unfold send_events_batch, ret.
    rewrite app_nil_r, with_trace_same. split; [reflexivity|].
    intros e H. inversion H.
  - unfold send_events_batch.
    destruct (py_range (Z.of_nat (length (d :: events))) (batch_size cfg))
      as [starts|x] eqn:R.
    2:{ unfold py_range in R. destruct (Z.eqb_spec (batch_size cfg) 0); [lia|].
        destruct (batch_size cfg <? 0); discriminate. }
    destruct (send_batches_all_posts env cfg (map to_wire (d :: events)) Hm
                starts st) as (failed & seg & B & Hp).
    rewrite (bind_done _ _ _ _ _ B). unfold ret.
    eexists _, seg. split; [reflexivity|]. intros e He.
    rewrite <- length_map with (f := to_wire) in R.
    destruct (batches_chunks cfg (map to_wire (d :: events)) starts Hb R)
      as [Hc Hne].
    assert (Hw : to_wire e
                 ∈ concat (batches cfg (map to_wire (d :: events)) starts)).
    { rewrite Hc. apply list_elem_of_In, in_map, list_elem_of_In, He. }
    apply list_elem_of_In, in_concat in Hw as (batch & Hbatch & Hw).
    unfold batches in Hbatch. apply in_map_iff in Hbatch as (i & <- & Hi).
    exists (slice i (i + batch_size cfg) (map to_wire (d :: events))).
    split; [|now apply list_elem_of_In].
    apply Hp; [now apply list_elem_of_In|].
    rewrite Forall_forall in Hne.
    apply (Hne (slice i (i + batch_size cfg) (map to_wire (d :: events)))).
    unfold batches. apply list_elem_of_In, in_map_iff. eauto.
Qed.

Lemma send_events_batch_tries_all_witness :
  0 < batch_size cfg_pc1 /\ 0 < max_retries cfg_pc1 /\
  exists ok seg,
    send_events_batch (env_of ConnectionError) cfg_pc1 [report_record]
      (init cfg_pc1 None)
    = (Done ok, with_trace (trace (init cfg_pc1 None) ++ seg)
                  (init cfg_pc1 None)) /\
    forall e, e ∈ [report_record] ->
              exists batch, Post batch ∈ seg /\ to_wire e ∈ batch.
Proof.
  assert (H1 : 0 < batch_size cfg_pc1) by (simpl; lia).
  assert (H2 : 0 < max_retries cfg_pc1) by (simpl; lia).
  split; [exact H1|]. split; [exact H2|].
  exact (send_events_batch_tries_all (env_of ConnectionError) cfg_pc1
           [report_record] (init cfg_pc1 None) H1 H2).
Defined.
